(** * Fuwapachi API server: message handlers and delete-event broadcast

    A shallow embedding of [internal/handler] (message.go, the WebSocket
    handlers, handler.go), [internal/model] and [internal/config] together
    with the theorems that relate the natural-language specification to
    the code.

    The handlers talk to three collaborators that are not part of the
    repository: the SQL store behind [h.DB], the JSON decoder reading the
    request body, and the WebSocket library.  Each is modelled by the
    smallest state that the handlers can observe:
    - the store is the [messages] table, its [AUTO_INCREMENT] counter, an
      oracle that says which statements come back with [err != nil], and
      the two conventions of the database engine that the handlers meet:
      what a [DATETIME] column keeps of a time, and which key a string
      parameter compared with the [INT] key names;
    - the request body is described by what [json.Decoder.Decode] finds at
      its head and by how many bytes it has to read for that;
    - a [websocket.Conn] is an address into a table of connection states.

    Everything a handler does to the outside world is appended to a log of
    effects, so that orderings ("the store write happens before the event is
    queued") are statements about that log.

    [DeleteMessage] is given as a step function on its program points, and
    the dispatcher turn by turn, so that requests can be run one after the
    other ([run_ops]) as well as interleaved under a schedule ([sys_run]). *)

From Stdlib Require Import ZArith Lia String List DecimalString DecimalZ DecimalPos.
From stdpp Require Import gmap strings list fin_maps.

(** * internal/model/message.go *)

(** [time.Time], as a number of clock ticks. *)
Definition Time := Z.
Bind Scope Z_scope with Time.

Record Message := mkMessage {
  ID : string;
  Content : string;
  CreatedAt : Time;
  DeletedAt : option Time;       (* *time.Time, nil = None *)
}.

Record DeleteEventMessage := mkDeleteEventMessage {
  EventType : string;            (* Type *)
  EventID : string;              (* ID *)
  EventDeletedAt : Time;         (* DeletedAt *)
}.

#[global] Instance Message_eq_dec : EqDecision Message.
Proof. solve_decision. Defined.
#[global] Instance DeleteEventMessage_eq_dec : EqDecision DeleteEventMessage.
Proof. solve_decision. Defined.

(** [fmt.Sprintf("%d", n)] *)
Definition Sprintf_d (n : Z) : string := NilZero.string_of_int (Z.to_int n).

(** * net/http: status codes, headers, responses *)

Inductive Status :=
| StatusOK                       (* 200 *)
| StatusCreated                  (* 201 *)
| StatusNoContent                (* 204 *)
| StatusBadRequest               (* 400 *)
| StatusForbidden                (* 403 *)
| StatusNotFound                 (* 404 *)
| StatusInternalServerError.     (* 500 *)

#[global] Instance Status_eq_dec : EqDecision Status.
Proof. solve_decision. Defined.

(** What the handler encodes into the response body. *)
Inductive ResponseBody :=
| BodyEmpty
| BodyError (error : string)             (* map[string]string{"error": ...} *)
| BodyMessage (msg : Message)
| BodyMessages (msgList : list Message).

Record Response := mkResponse {
  status : Status;
  body : ResponseBody;
}.

(** [http.Header]: a key has a list of values, [Get] returns the first
    one, or the empty string when there is none. *)
Definition Header := gmap string (list string).

Definition Header_Get (h : Header) (key : string) : string :=
  match h !! key with
  | Some (v :: _) => v
  | _ => ""
  end.

(** * The request body as the JSON decoder sees it

    [json.Decoder.Decode] reads the next JSON value from its input and
    stops there; what follows the value is never read.  The body is
    therefore described by that leading value: *)
Inductive JSONHead :=
| HeadValue (len : Z) (msg : Message)
    (* the first [len] bytes are a complete JSON value, and unmarshalling
       it into a zero [model.Message] gives [msg] *)
| HeadInvalid.
    (* no value can be decoded: a syntax error, a field of the wrong type,
       or the input ends inside the value *)

Record RequestBody := mkRequestBody {
  body_len : Z;                  (* number of bytes the client sent *)
  body_head : JSONHead;
}.

(** [http.MaxBytesReader(w, r.Body, n)]: reading beyond the first [n]
    bytes fails. *)
Record Reader := mkReader {
  reader_src : RequestBody;
  reader_limit : Z;
}.

Definition MaxBytesReader (n : Z) (b : RequestBody) : Reader :=
  mkReader b n.

(** [json.NewDecoder(r.Body).Decode(&msg)]; [None] is [err != nil].  The
    decoder asks the reader for more input only until the leading value is
    complete, so it succeeds when that value ends within the bytes the
    reader hands out, whatever the length of the body. *)
Definition Decode (rd : Reader) : option Message :=
  match body_head (reader_src rd) with
  | HeadValue len msg => if (len <=? reader_limit rd)%Z then Some msg else None
  | HeadInvalid => None
  end.

Record Request := mkRequest {
  ReqHeader : Header;
  Body : RequestBody;
  handshake : bool;
    (* the request is a well-formed WebSocket opening handshake and the
       connection can be taken over; everything [Upgrader.Upgrade] checks
       except the origin *)
}.

(** [r.Referer()] *)
Definition Referer (r : Request) : string := Header_Get (ReqHeader r) "Referer".

(** * The store behind [h.DB] *)

(** One row of the [messages] table
    ([id INT AUTO_INCREMENT PRIMARY KEY, content, created_at, deleted_at NULL]). *)
Record Row := mkRow {
  row_id : Z;
  row_content : string;
  row_created_at : Time;
  row_deleted_at : option Time;
}.

#[global] Instance Row_eq_dec : EqDecision Row.
Proof. solve_decision. Defined.

(** What is left to the database engine (MariaDB or MySQL, by the
    README).  The columns [created_at] and [deleted_at] are [DATETIME]:
    they keep a time to the whole second, rounded or cut off as the engine
    has it.  [WHERE id = ?] compares the [INT] key with a string
    parameter as numbers: the decimal form of a key names that key, and
    what any other string, such as ["01"] or [" 1"], is read as is up to
    the engine. *)
Record Engine := mkEngine {
  DATETIME : Time -> Time;       (* what a DATETIME column keeps of a time *)
  key_of : string -> option Z;
    (* the key that a parameter which is not the decimal form of a key
       is taken for, if it is taken for one *)
}.

Record Store := mkStore {
  messages : list Row;           (* in insertion order *)
  AUTO_INCREMENT : Z;            (* the key the next INSERT gets *)
  faults : list bool;
    (* oracle for storage errors: the n-th fallible call on the store
       fails when the n-th entry is [true]; past the end nothing fails *)
  entropy : list nat;            (* source of randomness for RAND() *)
  gaps : list nat;
    (* how many keys the n-th failed INSERT uses up all the same; past
       the end none *)
  engine : Engine;
}.

(** The SQL statements and driver calls issued by the handlers. *)
Inductive Stmt :=
| InsertMessage (content : string) (created_at : Time) (deleted_at : option Time)
| LastInsertId
| SelectExistsActive (id : string)
| UpdateDeletedAt (now : Time) (id : string)
| SelectActiveRandom (limit : nat)
| RowsScan
| RowsErr.

#[global] Instance Stmt_eq_dec : EqDecision Stmt.
Proof. solve_decision. Defined.

(** * WebSocket connections *)

(** A [*websocket.Conn]. *)
Definition Conn := positive.

(** What [conn.ReadJSON] gets from a connection that works: a frame that
    holds a JSON value, or a frame that does not. *)
Inductive Frame :=
| FrameJSON
| FrameOther.

Record ConnState := mkConnState {
  closes : nat;                  (* how many times Close() was called on it *)
  peer_gone : bool;              (* the peer went away or broke the protocol *)
}.

(** * Effects *)

Inductive Effect :=
| EStore (s : Stmt) (ok : bool)                  (* a call on h.DB and whether err == nil *)
| ESend (ev : DeleteEventMessage)                (* h.Broadcast <- ev went through *)
| ERecv (ev : DeleteEventMessage)                (* the dispatcher took ev from h.Broadcast *)
| EWriteHeader (st : Status)
| EUpgrade (c : Conn)                            (* a connection object was created *)
| EWriteJSON (c : Conn) (ev : DeleteEventMessage) (ok : bool)
| EClose (c : Conn).

#[global] Instance Effect_eq_dec : EqDecision Effect.
Proof. solve_decision. Defined.

(** * internal/handler/handler.go: the Handler and its environment *)

Record World := mkWorld {
  DB : Store;                                    (* h.DB *)
  AllowedOrigins : list string;                  (* h.Config.AllowedOrigins *)
  Clients : gmap Conn bool;                      (* h.Clients, guarded by h.ClientMu *)
  Broadcast : list DeleteEventMessage;           (* h.Broadcast, oldest first *)
  clock : Time;                                  (* what time.Now() returns *)
  conns : gmap Conn ConnState;                   (* every connection object created so far *)
  log : list Effect;                             (* oldest first *)
}.

(** [make(chan model.DeleteEventMessage, 100)] in [New]. *)
Definition BroadcastCap : nat := 100.

Definition set_DB (db : Store) (w : World) : World :=
  mkWorld db (AllowedOrigins w) (Clients w) (Broadcast w) (clock w) (conns w) (log w).
Definition set_Clients (cl : gmap Conn bool) (w : World) : World :=
  mkWorld (DB w) (AllowedOrigins w) cl (Broadcast w) (clock w) (conns w) (log w).
Definition set_Broadcast (q : list DeleteEventMessage) (w : World) : World :=
  mkWorld (DB w) (AllowedOrigins w) (Clients w) q (clock w) (conns w) (log w).
Definition set_clock (t : Time) (w : World) : World :=
  mkWorld (DB w) (AllowedOrigins w) (Clients w) (Broadcast w) t (conns w) (log w).
Definition set_conns (cs : gmap Conn ConnState) (w : World) : World :=
  mkWorld (DB w) (AllowedOrigins w) (Clients w) (Broadcast w) (clock w) cs (log w).
Definition emit (e : Effect) (w : World) : World :=
  mkWorld (DB w) (AllowedOrigins w) (Clients w) (Broadcast w) (clock w) (conns w) (log w ++ [e]).

Definition set_messages (rows : list Row) (s : Store) : Store :=
  mkStore rows (AUTO_INCREMENT s) (faults s) (entropy s) (gaps s) (engine s).
Definition set_faults (fs : list bool) (s : Store) : Store :=
  mkStore (messages s) (AUTO_INCREMENT s) fs (entropy s) (gaps s) (engine s).

(** [New]: no clients, an empty channel. *)
Definition New (db : Store) (origins : list string) (t : Time) : World :=
  mkWorld db origins ∅ [] t ∅ [].

(** ** Calls on the store

    Every fallible call asks the oracle first and is logged with its
    outcome.  A call that fails leaves the table alone. *)
Definition db_call (s : Stmt) (w : World) : bool * World :=
  let failed := match faults (DB w) with [] => false | b :: _ => b end in
  let w := set_DB (set_faults (tail (faults (DB w))) (DB w)) w in
  (failed, emit (EStore s (negb failed)) w).

(** The key a string is the decimal form of, as [Sprintf_d] prints it,
    if it is one. *)
Definition decimal_key (id : string) : option Z :=
  match NilZero.int_of_string id with
  | Some d =>
    let k := Z.of_int d in
    if String.eqb (Sprintf_d k) id then Some k else None
  | None => None
  end.

(** The key that the engine compares the [INT] column with when the
    parameter is the string [id]. *)
Definition named_key (e : Engine) (id : string) : option Z :=
  match decimal_key id with
  | Some k => Some k
  | None => key_of e id
  end.

(** [WHERE id = ?] with the identifier taken from the request path and
    passed as a string: the row whose key the parameter names. *)
Definition id_is (e : Engine) (id : string) (r : Row) : bool :=
  match named_key e id with
  | Some k => (row_id r =? k)%Z
  | None => false
  end.

(** [deleted_at IS NULL] *)
Definition is_active (r : Row) : bool :=
  match row_deleted_at r with None => true | Some _ => false end.

(** An INSERT that failed: no row is written, but the engine may have
    used up keys for it. *)
Definition insert_failed (w : World) : World :=
  let s := DB w in
  let k := (AUTO_INCREMENT s + Z.of_nat (hd 0%nat (gaps s)))%Z in
  set_DB (mkStore (messages s) k (faults s) (entropy s) (tail (gaps s)) (engine s)) w.

(** [h.DB.Exec("INSERT INTO messages (content, created_at, deleted_at)
    VALUES (?, ?, ?)", ...)]: the row gets the next key and its two
    [DATETIME] columns keep what the engine keeps of the times passed; a
    key that is already taken violates the primary key and the statement
    fails. *)
Definition Exec_Insert (content : string) (created_at : Time) (deleted_at : option Time)
    (w : World) : option Z * World :=
  let '(failed, w) := db_call (InsertMessage content created_at deleted_at) w in
  let k := AUTO_INCREMENT (DB w) in
  let e := engine (DB w) in
  if failed then (None, insert_failed w)
  else if existsb (fun r => (row_id r =? k)%Z) (messages (DB w)) then (None, insert_failed w)
  else
    let row := mkRow k content (DATETIME e created_at) (DATETIME e <$> deleted_at) in
    let db := mkStore (messages (DB w) ++ [row]) (k + 1)%Z (faults (DB w)) (entropy (DB w))
                (gaps (DB w)) e in
    (Some k, set_DB db w).

(** [result.LastInsertId()] *)
Definition Result_LastInsertId (k : Z) (w : World) : option Z * World :=
  let '(failed, w) := db_call LastInsertId w in
  if failed then (None, w) else (Some k, w).

(** [h.DB.QueryRow("SELECT EXISTS(SELECT 1 FROM messages WHERE id = ? AND
    deleted_at IS NULL)", id).Scan(&exists)] *)
Definition QueryRow_Exists (id : string) (w : World) : option bool * World :=
  let '(failed, w) := db_call (SelectExistsActive id) w in
  if failed then (None, w)
  else (Some (existsb (fun r => id_is (engine (DB w)) id r && is_active r)
                (messages (DB w))), w).

(** [h.DB.Exec("UPDATE messages SET deleted_at = ? WHERE id = ?", now, id)];
    [false] is [err != nil].  Every row that the parameter names gets
    what the column keeps of [now], whether it had a [deleted_at] or not. *)
Definition soft_delete (e : Engine) (now : Time) (id : string) (r : Row) : Row :=
  if id_is e id r
  then mkRow (row_id r) (row_content r) (row_created_at r) (Some (DATETIME e now))
  else r.

Definition Exec_Update (now : Time) (id : string) (w : World) : bool * World :=
  let '(failed, w) := db_call (UpdateDeletedAt now id) w in
  if failed then (false, w)
  else
    let rows := map (soft_delete (engine (DB w)) now id) (messages (DB w)) in
    (true, set_DB (set_messages rows (DB w)) w).

(** [w.WriteHeader(st)] followed by the encoded body. *)
Definition respond (st : Status) (b : ResponseBody) (w : World) : Response * World :=
  (mkResponse st b, emit (EWriteHeader st) w).

(** * internal/handler/message.go *)

(** ** CreateMessage handles POST /messages *)
Definition CreateMessage (r : Request) (w : World) : Response * World :=
  match Decode (MaxBytesReader (2 ^ 20) (Body r)) with
  | None => respond StatusBadRequest (BodyError "Invalid request body") w
  | Some msg =>
    if String.eqb (Content msg) "" then
      respond StatusBadRequest (BodyError "content is required") w
    else
      (* msg.CreatedAt = time.Now(); msg.DeletedAt = nil *)
      let msg := mkMessage (ID msg) (Content msg) (clock w) None in
      match Exec_Insert (Content msg) (CreatedAt msg) (DeletedAt msg) w with
      | (None, w) =>
        respond StatusInternalServerError (BodyError "Failed to create message") w
      | (Some result, w) =>
        match Result_LastInsertId result w with
        | (None, w) =>
          respond StatusInternalServerError (BodyError "Failed to retrieve message id") w
        | (Some lastInsertID, w) =>
          let msg := mkMessage (Sprintf_d lastInsertID) (Content msg) (CreatedAt msg) (DeletedAt msg) in
          respond StatusCreated (BodyMessage msg) w
        end
      end
  end.

(** ** GetMessages handles GET /messages *)

(** [maxMessagesPerRequest] *)
Definition maxMessagesPerRequest : nat := 10.

Fixpoint isOriginAllowed_loop (origin : string) (allowed : list string) : bool :=
  match allowed with
  | [] => false
  | a :: rest => if String.eqb origin a then true else isOriginAllowed_loop origin rest
  end.

Definition isOriginAllowed (w : World) (origin : string) : bool :=
  isOriginAllowed_loop origin (AllowedOrigins w).

(** [ORDER BY RAND()]: the rows are drawn one after the other, the
    position of each draw coming from the store's randomness. *)
Fixpoint order_by_rand (n : nat) (picks : list nat) (rows : list Row) : list Row :=
  match n with
  | O => []
  | S n' =>
    let i := (hd 0 picks mod length rows)%nat in
    match rows !! i with
    | Some r => r :: order_by_rand n' (tail picks) (delete i rows)
    | None => []
    end
  end.

(** [h.DB.Query("SELECT id, content, created_at FROM messages WHERE
    deleted_at IS NULL ORDER BY RAND() LIMIT ?", limit)] *)
Definition Query_Active (limit : nat) (w : World) : option (list Row) * World :=
  let '(failed, w) := db_call (SelectActiveRandom limit) w in
  if failed then (None, w)
  else
    let active := List.filter is_active (messages (DB w)) in
    let picks := entropy (DB w) in
    let db := mkStore (messages (DB w)) (AUTO_INCREMENT (DB w)) (faults (DB w))
                (drop (length active) picks) (gaps (DB w)) (engine (DB w)) in
    (Some (take limit (order_by_rand (length active) picks active)), set_DB db w).

(** [rows.Scan(&msg.ID, &msg.Content, &msg.CreatedAt)] on one row. *)
Definition scan_message (r : Row) : Message :=
  mkMessage (Sprintf_d (row_id r)) (row_content r) (row_created_at r) None.

(** The [for rows.Next()] loop: a row whose [Scan] fails is skipped. *)
Fixpoint scan_rows (rows : list Row) (w : World) : list Message * World :=
  match rows with
  | [] => ([], w)
  | r :: rest =>
    let '(failed, w) := db_call RowsScan w in
    let '(msgList, w) := scan_rows rest w in
    if failed then (msgList, w) else (scan_message r :: msgList, w)
  end.

(** [*url.URL], the two fields the handler reads. *)
Record URL := mkURL {
  Scheme : string;
  Host : string;
}.

Section GetMessages.

(** [url.Parse]; [None] is [err != nil]. *)
Variable url_Parse : string -> option URL.

Definition forbidden (w : World) : Response * World :=
  respond StatusForbidden (BodyError "Forbidden") w.

(** Lines 131-170: the query and the encoding of its rows. *)
Definition list_messages (w : World) : Response * World :=
  match Query_Active maxMessagesPerRequest w with
  | (None, w) => respond StatusInternalServerError (BodyError "Database error") w
  | (Some rows, w) =>
    let '(msgList, w) := scan_rows rows w in
    let '(failed, w) := db_call RowsErr w in
    if failed then respond StatusInternalServerError (BodyError "Database error") w
    else (mkResponse StatusOK (BodyMessages msgList), w)
  end.

Definition GetMessages (r : Request) (w : World) : Response * World :=
  let origin := Header_Get (ReqHeader r) "Origin" in
  if negb (String.eqb origin "") then
    if negb (isOriginAllowed w origin) then forbidden w
    else list_messages w
  else
    let referer := Referer r in
    if String.eqb referer "" then forbidden w
    else
      match url_Parse referer with
      | None => forbidden w
      | Some parsed =>
        if String.eqb (Scheme parsed) "" || String.eqb (Host parsed) "" then forbidden w
        else
          let refererOrigin := (Scheme parsed +:+ "://" +:+ Host parsed) in
          if negb (isOriginAllowed w refererOrigin) then forbidden w
          else list_messages w
      end.

End GetMessages.

(** ** DeleteMessage handles DELETE /messages/{id}

    The handler is a sequence of four actions on shared state: the
    existence query, reading the clock, the update and the send on the
    channel.  Other requests can run between any two of them, so the
    handler is given as a step function on its program point; the send
    cannot step while the channel is full. *)
Inductive DeletePc :=
| DelCheck                       (* line 180 *)
| DelNow                         (* line 198 *)
| DelUpdate (now : Time)         (* line 199 *)
| DelSend (now : Time)           (* line 211 *)
| DelDone (resp : Response).

Definition done (rw : Response * World) : DeletePc * World :=
  (DelDone (fst rw), snd rw).

Definition DeleteMessage_step (id : string) (pc : DeletePc) (w : World)
    : option (DeletePc * World) :=
  match pc with
  | DelCheck =>
    match QueryRow_Exists id w with
    | (None, w) =>
      Some (done (respond StatusInternalServerError (BodyError "Database error") w))
    | (Some false, w) =>
      Some (done (respond StatusNotFound (BodyError "Message not found") w))
    | (Some true, w) => Some (DelNow, w)
    end
  | DelNow => Some (DelUpdate (clock w), w)
  | DelUpdate now =>
    match Exec_Update now id w with
    | (false, w) =>
      Some (done (respond StatusInternalServerError (BodyError "Failed to delete message") w))
    | (true, w) => Some (DelSend now, w)
    end
  | DelSend now =>
    if decide (length (Broadcast w) < BroadcastCap)%nat then
      let ev := mkDeleteEventMessage "message_deleted" id now in
      let w := emit (ESend ev) (set_Broadcast (Broadcast w ++ [ev]) w) in
      Some (done (respond StatusNoContent BodyEmpty w))
    else None
  | DelDone _ => None
  end.

(** Running a handler on its own until it returns or cannot go on. *)
Fixpoint DeleteMessage_run (fuel : nat) (id : string) (pc : DeletePc) (w : World)
    : DeletePc * World :=
  match fuel with
  | O => (pc, w)
  | S fuel' =>
    match DeleteMessage_step id pc w with
    | Some (pc', w') => DeleteMessage_run fuel' id pc' w'
    | None => (pc, w)
    end
  end.

(** The handler called with nothing else running: it ends in [DelDone]
    with the response, or in [DelSend] when it is held up at a full
    channel. *)
Definition DeleteMessage (id : string) (w : World) : DeletePc * World :=
  DeleteMessage_run 4 id DelCheck w.

(** * The WebSocket handlers *)

(** [websocket.Upgrader], the one field that is set. *)
Record Upgrader := mkUpgrader {
  CheckOrigin : Request -> bool;
}.

(** [allowedMap[origin] = true] for every configured origin. *)
Definition allowedMap_of (allowedOrigins : list string) : gmap string bool :=
  foldl (fun m origin => <[origin := true]> m) ∅ allowedOrigins.

(** [createUpgrader]; reading a key that is not in the map gives [false]. *)
Definition createUpgrader (allowedOrigins : list string) : Upgrader :=
  let allowedMap := allowedMap_of allowedOrigins in
  mkUpgrader (fun r =>
    let origin := Header_Get (ReqHeader r) "Origin" in
    default false (allowedMap !! origin)).

(** [upgrader.Upgrade(w, r, nil)]: the handshake is refused when it is
    malformed or when [CheckOrigin] says no; only an accepted handshake
    creates a connection object.  [None] is [err != nil]. *)
Definition Upgrade (u : Upgrader) (r : Request) (w : World) : option Conn * World :=
  if negb (handshake r) then (None, w)
  else if negb (CheckOrigin u r) then (None, w)
  else
    let conn := fresh (dom (conns w)) in
    (Some conn, emit (EUpgrade conn) (set_conns (<[conn := mkConnState 0 false]> (conns w)) w)).

(** A read or a write on a connection works as long as nobody closed it
    and the peer is still there. *)
Definition conn_ok (w : World) (c : Conn) : bool :=
  match conns w !! c with
  | Some st => Nat.eqb (closes st) 0 && negb (peer_gone st)
  | None => false
  end.

(** [client.WriteJSON(event)]; [false] is [err != nil]. *)
Definition WriteJSON (c : Conn) (event : DeleteEventMessage) (w : World) : bool * World :=
  let ok := conn_ok w c in
  (ok, emit (EWriteJSON c event ok) w).

(** The two actions by which a connection is torn down.  Each is atomic:
    the removal from [h.Clients] runs under [h.ClientMu.Lock()]. *)
Inductive Teardown :=
| TdClose (c : Conn)             (* c.Close() *)
| TdDelete (c : Conn).           (* Lock(); delete(h.Clients, c); Unlock() *)

Definition Close (c : Conn) (w : World) : World :=
  let bump st := mkConnState (S (closes st)) (peer_gone st) in
  emit (EClose c) (set_conns (alter bump c (conns w)) w).

Definition teardown_step (w : World) (a : Teardown) : World :=
  match a with
  | TdClose c => Close c w
  | TdDelete c => set_Clients (delete c (Clients w)) w
  end.

Definition teardown (acts : list Teardown) (w : World) : World :=
  foldl teardown_step w acts.

(** HandleBroadcast, lines 70-74: after a failed write. *)
Definition dispatch_teardown (client : Conn) : list Teardown :=
  [TdClose client; TdDelete client].

(** HandleWebSocket, lines 47-52 and the deferred [conn.Close()] of line
    33: after a failed read. *)
Definition reader_teardown (conn : Conn) : list Teardown :=
  [TdDelete conn; TdClose conn].

(** ** HandleWebSocket handles GET /ws

    Lines 27-41: upgrade and register.  The result is the connection the
    read loop then waits on, or [None] when the upgrade failed and the
    handler returned. *)
Definition HandleWebSocket (r : Request) (w : World) : option Conn * World :=
  let upgrader := createUpgrader (AllowedOrigins w) in
  match Upgrade upgrader r w with
  | (None, w) => (None, w)
  | (Some conn, w) => (Some conn, set_Clients (<[conn := true]> (Clients w)) w)
  end.

(** [conn.ReadJSON(&msg)] on the frame that has arrived; [false] is
    [err != nil]: the connection does not work, or the frame does not
    hold a JSON value. *)
Definition ReadJSON (conn : Conn) (frame : Frame) (w : World) : bool :=
  conn_ok w conn && match frame with FrameJSON => true | FrameOther => false end.

(** Lines 44-53: one turn of the read loop.  A frame that was read is
    dropped and the loop waits for the next one ([None]); a failed read
    ends the handler. *)
Definition HandleWebSocket_read (conn : Conn) (frame : Frame) (w : World) : option World :=
  if ReadJSON conn frame w then None
  else Some (teardown (reader_teardown conn) w).

(** ** HandleBroadcast *)

(** Lines 61-66: the members of [h.Clients], copied under the read lock. *)
Definition clientsSnapshot (w : World) : list Conn :=
  (map_to_list (Clients w)).*1.

(** Lines 68-75: the loop over the snapshot. *)
Fixpoint broadcast_to (event : DeleteEventMessage) (snapshot : list Conn) (w : World) : World :=
  match snapshot with
  | [] => w
  | client :: rest =>
    let '(ok, w) := WriteJSON client event w in
    let w := if ok then w else teardown (dispatch_teardown client) w in
    broadcast_to event rest w
  end.

(** One turn of [for event := range h.Broadcast]; [None] when the channel
    is empty and the loop waits. *)
Definition HandleBroadcast_turn (w : World) : option World :=
  match Broadcast w with
  | [] => None
  | event :: rest =>
    let w := emit (ERecv event) (set_Broadcast rest w) in
    Some (broadcast_to event (clientsSnapshot w) w)
  end.

(** The loop, for at most [turns] events. *)
Fixpoint HandleBroadcast (turns : nat) (w : World) : World :=
  match turns with
  | O => w
  | S turns' =>
    match HandleBroadcast_turn w with
    | Some w' => HandleBroadcast turns' w'
    | None => w
    end
  end.

(** * Requests running side by side

    A system is the shared world and the delete requests in flight.  The
    schedule says which request takes its next step and when time passes;
    a request that cannot step is left where it is. *)
Inductive Action :=
| Run (i : nat)
| Tick (dt : positive)
| Dispatch.                      (* one turn of HandleBroadcast *)

Record System := mkSystem {
  world : World;
  deletes : list (string * DeletePc);
}.

Definition sys_step (s : System) (a : Action) : System :=
  match a with
  | Run i =>
    match deletes s !! i with
    | Some (id, pc) =>
      match DeleteMessage_step id pc (world s) with
      | Some (pc', w') => mkSystem w' (<[i := (id, pc')]> (deletes s))
      | None => s
      end
    | None => s
    end
  | Tick dt => mkSystem (set_clock (clock (world s) + Z.pos dt)%Z (world s)) (deletes s)
  | Dispatch =>
    match HandleBroadcast_turn (world s) with
    | Some w' => mkSystem w' (deletes s)
    | None => s
    end
  end.

Definition sys_run (schedule : list Action) (s : System) : System :=
  foldl sys_step s schedule.

(** * Requests one after the other

    A history of the server in which every request runs to its end (or to
    the point where it is held up) before the next one starts. *)
Inductive Op :=
| OpCreate (r : Request)
| OpList (r : Request)
| OpDelete (id : string)
| OpSubscribe (r : Request)
| OpDispatch                     (* the dispatcher handles one event *)
| OpTick (dt : positive).        (* time passes *)

Section Ops.

Variable url_Parse : string -> option URL.

Definition apply_op (w : World) (o : Op) : World :=
  match o with
  | OpCreate r => snd (CreateMessage r w)
  | OpList r => snd (GetMessages url_Parse r w)
  | OpDelete id => snd (DeleteMessage id w)
  | OpSubscribe r => snd (HandleWebSocket r w)
  | OpDispatch => HandleBroadcast 1 w
  | OpTick dt => set_clock (clock w + Z.pos dt)%Z w
  end.

Definition run_ops (ops : list Op) (w : World) : World :=
  foldl apply_op w ops.

End Ops.

(** The three things a request can do to the [messages] table at time
    [now]: nothing, insert an active row under a key not yet in use, or
    soft-delete the rows that an identifier names when one of them is
    active. *)
Inductive table_step (e : Engine) (now : Time) (rows : list Row) : list Row -> Prop :=
| table_same : table_step e now rows rows
| table_insert (k : Z) (content : string) :
    (forall r, r ∈ rows -> row_id r <> k) ->
    table_step e now rows (rows ++ [mkRow k content (DATETIME e now) None])
| table_delete (id : string) :
    (exists r, r ∈ rows /\ id_is e id r = true /\ is_active r = true) ->
    table_step e now rows (map (soft_delete e now id) rows).

(** A request leaves the clock alone, uses up some of the fault oracle and
    moves the table by one [table_step]. *)
Definition store_moves (w w' : World) : Prop :=
  table_step (engine (DB w)) (clock w) (messages (DB w)) (messages (DB w')) /\
  (exists n, faults (DB w') = drop n (faults (DB w))) /\
  clock w' = clock w.

(** The ways two sequences of atomic actions can be run side by side,
    each keeping its own order. *)
Inductive Interleave {A : Type} : list A -> list A -> list A -> Prop :=
| interleave_nil : Interleave [] [] []
| interleave_left (a : A) (l1 l2 l : list A) :
    Interleave l1 l2 l -> Interleave (a :: l1) l2 (a :: l)
| interleave_right (a : A) (l1 l2 l : list A) :
    Interleave l1 l2 l -> Interleave l1 (a :: l2) (a :: l).

(** What the dispatcher does with one client of its snapshot: the write,
    and the close when the write failed. *)
Definition client_effects (event : DeleteEventMessage) (w : World) (c : Conn) : list Effect :=
  EWriteJSON c event (conn_ok w c) :: (if conn_ok w c then [] else [EClose c]).





(** The store call by which the deletion that an event announces was
    recorded. *)
Definition recorded (ev : DeleteEventMessage) : Effect :=
  EStore (UpdateDeletedAt (EventDeletedAt ev) (EventID ev)) true.

(** The event an effect hands on, if it hands one on. *)
Definition event_of (e : Effect) : option DeleteEventMessage :=
  match e with
  | ESend ev | ERecv ev | EWriteJSON _ ev _ => Some ev
  | _ => None
  end.

(** In a log, every effect that hands an event on comes after the store
    call that recorded the deletion. *)
Definition write_first (l : list Effect) : Prop :=
  forall n e ev, l !! n = Some e -> event_of e = Some ev ->
    exists m, (m < n)%nat /\ l !! m = Some (recorded ev).

(** A system in which no event has got ahead of its deletion: not in the
    log, not on the channel, and not in the hands of a request that is
    about to send it. *)
Definition in_order (s : System) : Prop :=
  write_first (log (world s)) /\
  (forall ev, ev ∈ Broadcast (world s) -> recorded ev ∈ log (world s)) /\
  (forall i id now, deletes s !! i = Some (id, DelSend now) ->
     recorded (mkDeleteEventMessage "message_deleted" id now) ∈ log (world s)).

(** Every deletion that the log says was recorded shows in the table:
    the rows that its identifier names are soft-deleted. *)
Definition deletions_show (w : World) : Prop :=
  forall now id, EStore (UpdateDeletedAt now id) true ∈ log w ->
    forall r, r ∈ messages (DB w) -> id_is (engine (DB w)) id r = true -> is_active r = false.

(** * Vocabulary of the specification *)

(** The reasons the specification gives for turning a create request
    down: the content is empty, the body is not a JSON message, the body
    is longer than 1 MiB. *)
Definition content_empty (r : Request) : Prop :=
  match body_head (Body r) with
  | HeadValue _ msg => Content msg = ""
  | HeadInvalid => False
  end.

Definition unparsable (r : Request) : Prop :=
  body_head (Body r) = HeadInvalid.

Definition oversized (r : Request) : Prop :=
  (body_len (Body r) > 2 ^ 20)%Z.

(** What the code looks at instead of the length of the body: whether
    the leading JSON value ends within the first 1 MiB. *)
Definition head_oversized (r : Request) : Prop :=
  match body_head (Body r) with
  | HeadValue len _ => (len > 2 ^ 20)%Z
  | HeadInvalid => False
  end.

(** No call on the store appears in a stretch of the log. *)
Definition no_store_call (l : list Effect) : Prop :=
  forall s ok, EStore s ok ∉ l.

(** The store holds no active message that the identifier names: it
    names no message, or the message it names is already soft-deleted. *)
Definition no_active (id : string) (w : World) : Prop :=
  forall r, r ∈ messages (DB w) -> id_is (engine (DB w)) id r = true -> is_active r = false.

(** The identifier names a message, and it is soft-deleted. *)
Definition soft_deleted (e : Engine) (id : string) (rows : list Row) : Prop :=
  (exists r, r ∈ rows /\ id_is e id r = true) /\
  (forall r, r ∈ rows -> id_is e id r = true -> is_active r = false).

(** The answers of [DeleteMessage]. *)
Definition deleted_ok : Response := mkResponse StatusNoContent BodyEmpty.

(** The event a delete of [id] at time [now] puts on the channel. *)
Definition delete_event (id : string) (now : Time) : DeleteEventMessage :=
  mkDeleteEventMessage "message_deleted" id now.

(** The world after a call on the store, whatever its outcome. *)
Definition after_call (s : Stmt) (w : World) : World := snd (db_call s w).
Arguments after_call : simpl never.

(** The world in which the update of [DeleteMessage] has been made. *)
Definition updated (id : string) (w : World) : World :=
  let w1 := after_call (UpdateDeletedAt (clock w) id) (after_call (SelectExistsActive id) w) in
  set_DB (set_messages (map (soft_delete (engine (DB w1)) (clock w) id) (messages (DB w1)))
            (DB w1)) w1.

(** The origin a list request declares: its [Origin] header when there
    is one, else the [scheme://host] of its [Referer] when that parses
    into both parts, else none. *)
Definition declared_origin (url_Parse : string -> option URL) (r : Request) : option string :=
  let origin := Header_Get (ReqHeader r) "Origin" in
  if decide (origin = "") then
    if decide (Referer r = "") then None
    else
      match url_Parse (Referer r) with
      | Some u =>
        if decide (Scheme u = "" \/ Host u = "") then None
        else Some (Scheme u +:+ "://" +:+ Host u)
      | None => None
      end
  else Some origin.

(** A list request passes origin validation. *)
Definition list_authorized (url_Parse : string -> option URL) (r : Request) (w : World) : Prop :=
  match declared_origin url_Parse r with
  | Some origin => origin ∈ AllowedOrigins w
  | None => False
  end.

(** [WHERE deleted_at IS NULL] *)
Definition active_rows (w : World) : list Row :=
  List.filter is_active (messages (DB w)).

(** ** Sample data *)

Definition sample_origins : list string :=
  ["http://localhost:8080"; "http://127.0.0.1:8080"].

(** An engine seen through a clock that ticks once a second: a
    [DATETIME] column keeps every tick, and no string but the decimal
    form is taken for a key. *)
Definition second_engine : Engine :=
  mkEngine (fun t => t) (fun _ => None).

Definition sample_store : Store :=
  mkStore [mkRow 1 "first" 100 None; mkRow 2 "second" 110 (Some 120%Z)] 3 [] [5; 1; 2]%nat
    [] second_engine.

Definition sample_world : World := New sample_store sample_origins 200%Z.

(** An engine in the manner of MySQL, seen through a clock that ticks a
    thousand times a second: a [DATETIME] column rounds to the nearest
    whole second, and a string parameter is read as the number it spells,
    blanks and a plus sign before the digits and leading zeros set aside. *)
Fixpoint skip_blanks (s : string) : string :=
  match s with
  | String c rest => if Ascii.eqb c (Ascii.ascii_of_nat 32) then skip_blanks rest else s
  | EmptyString => s
  end.

Definition read_number (s : string) : option Z :=
  let s := skip_blanks s in
  let digits :=
    match s with
    | String c rest => if Ascii.eqb c (Ascii.ascii_of_nat 43) then rest else s
    | EmptyString => s
    end in
  Z.of_int <$> NilZero.int_of_string digits.

Definition millisecond_engine : Engine :=
  mkEngine (fun t => 1000 * ((t + 500) / 1000))%Z read_number.

(** One active message, created at second 100; it is now 200.7 s. *)
Definition rounding_store : Store :=
  mkStore [mkRow 1 "first" 100000 None] 2 [] [] [] millisecond_engine.

Definition rounding_world : World := New rounding_store sample_origins 200700.

(** A create request whose body forges [id], [created_at] and
    [deleted_at]. *)
Definition forged_create : Request :=
  mkRequest ∅ (mkRequestBody 80 (HeadValue 80 (mkMessage "999" "hi" 1 (Some 2%Z)))) false.

(** [{"content":"hi"}] followed by two megabytes of white space. *)
Definition padded_create : Request :=
  mkRequest ∅ (mkRequestBody (16 + 2 ^ 21) (HeadValue 16 (mkMessage "" "hi" 0 None))) false.



(** Fifteen active messages, as in [TestGetMessages_MaxLimit]. *)
Definition fifteen_rows : list Row :=
  map (fun k => mkRow (Z.of_nat k) "Message" 100 None) (seq 1 15).

(** The store with fifteen active messages: in working order, refusing
    the query, and failing the scan of the first selected row. *)
Definition fifteen_world : World :=
  New (mkStore fifteen_rows 16 [] [] [] second_engine) sample_origins 200.

Definition fifteen_down : World :=
  New (mkStore fifteen_rows 16 [true] [] [] second_engine) sample_origins 200.

Definition fifteen_flaky : World :=
  New (mkStore fifteen_rows 16 [false; true] [] [] second_engine) sample_origins 200.

Definition list_request : Request :=
  mkRequest {["Origin" := ["http://localhost:8080"]]} (mkRequestBody 0 HeadInvalid) false.

(** A stand-in for [url.Parse] that knows one address. *)
Definition parse_app_page (s : string) : option URL :=
  if String.eqb s "http://localhost:8080/app" then Some (mkURL "http" "localhost:8080")
  else if String.eqb s "/app" then Some (mkURL "" "")
  else None.

Definition list_request_with (headers : list (string * list string)) : Request :=
  mkRequest (list_to_map headers) (mkRequestBody 0 HeadInvalid) false.

(** Opening handshakes: with a given [Origin], and without the header. *)
Definition handshake_from (origin : string) : Request :=
  mkRequest {["Origin" := [origin]]} (mkRequestBody 0 HeadInvalid) true.

Definition handshake_without_origin : Request :=
  mkRequest ∅ (mkRequestBody 0 HeadInvalid) true.

(** A configuration in which the list of allowed origins has an empty
    entry, as [ALLOWED_ORIGINS="http://localhost:8080,"] gives. *)
Definition lax_world : World :=
  New sample_store ["http://localhost:8080"; ""] 200.

(** Two subscribers; the first has been closed, and two events wait on
    the channel. *)
Definition two_clients : World :=
  let w1 := snd (HandleWebSocket (handshake_from "http://localhost:8080") sample_world) in
  let w2 := snd (HandleWebSocket (handshake_from "http://localhost:8080") w1) in
  set_Broadcast [delete_event "1" 150; delete_event "2" 160] (Close 1%positive w2).

(** Two delete requests for the same active message, in flight at the
    same time.  Both make their existence query before either makes its
    update; the first reads the clock, time passes, and the second reads
    the clock, updates and sends before the first does. *)
Definition race_system : System :=
  mkSystem (New (mkStore [mkRow 1 "first" 100 None] 2 [] [] [] second_engine)
              sample_origins 200)
    [("1", DelCheck); ("1", DelCheck)].

Definition race_schedule : list Action :=
  [Run 0; Run 1; Run 0; Tick 5; Run 1; Run 1; Run 1; Run 0; Run 0].

(** * More vocabulary: histories of creates, the registry, the channel *)

(** The counter is ahead of every key in the table, as it is in a table
    that only ever got its keys from the counter. *)
Definition keys_below (s : Store) : Prop :=
  forall r, r ∈ messages s -> (row_id r < AUTO_INCREMENT s)%Z.

(** The body of a create request decodes to a message with content. *)
Definition well_formed_create (r : Request) : Prop :=
  exists msg, Decode (MaxBytesReader (2 ^ 20) (Body r)) = Some msg /\ Content msg <> "".

(** Create requests served one after the other, with their responses. *)
Fixpoint create_all (rs : list Request) (w : World) : list Response * World :=
  match rs with
  | [] => ([], w)
  | r :: rest =>
    let '(resp, w) := CreateMessage r w in
    let '(resps, w) := create_all rest w in
    (resp :: resps, w)
  end.

(** The identifier a response hands to the client, if it carries a
    message. *)
Definition created_id (resp : Response) : option string :=
  match body resp with
  | BodyMessage msg => Some (ID msg)
  | _ => None
  end.

(** Between [w] and [w'] nothing has changed but the log and what the
    store has used up of its oracle and its randomness. *)
Definition untouched (w w' : World) : Prop :=
  messages (DB w') = messages (DB w) /\
  AUTO_INCREMENT (DB w') = AUTO_INCREMENT (DB w) /\
  Broadcast w' = Broadcast w /\
  Clients w' = Clients w /\
  conns w' = conns w /\
  clock w' = clock w /\
  AllowedOrigins w' = AllowedOrigins w.

(** Every registered client is a connection that an upgrade has made. *)
Definition registry_ok (w : World) : Prop :=
  forall c, is_Some (Clients w !! c) -> is_Some (conns w !! c).

(** The peer of a connection goes away: reads and writes on it fail from
    then on. *)
Definition peer_hangs_up (c : Conn) (w : World) : World :=
  set_conns (alter (fun st => mkConnState (closes st) true) c (conns w)) w.

(** What a log says was written to one client: the events, in order,
    each with the outcome of the write. *)
Definition written_to (c : Conn) (l : list Effect) : list (DeleteEventMessage * bool) :=
  omap (fun e =>
          match e with
          | EWriteJSON c' ev ok => if decide (c' = c) then Some (ev, ok) else None
          | _ => None
          end) l.

(** The events a log says were put on the channel, and those it says
    were taken from it, in order. *)
Definition sent (l : list Effect) : list DeleteEventMessage :=
  omap (fun e => match e with ESend ev => Some ev | _ => None end) l.

Definition received (l : list Effect) : list DeleteEventMessage :=
  omap (fun e => match e with ERecv ev => Some ev | _ => None end) l.

(** The channel holds, in the order they were sent, the events that were
    sent and not yet received, and no more of them than its capacity. *)
Definition channel_ok (w : World) : Prop :=
  sent (log w) = received (log w) ++ Broadcast w /\
  (length (Broadcast w) <= BroadcastCap)%nat.

(** Between [w] and [w'] the channel, the registry and the connections
    were left alone, and nothing that hands an event on was logged. *)
Definition quiet (w w' : World) : Prop :=
  Broadcast w' = Broadcast w /\
  Clients w' = Clients w /\
  conns w' = conns w /\
  exists l, log w' = log w ++ l /\ Forall (fun e => event_of e = None) l.

(** The store accepts the INSERT and then fails [LastInsertId]. *)
Definition orphan_world : World :=
  New (mkStore (messages sample_store) 3 [false; true] [] [] second_engine) sample_origins 200.

(** A create request with the given content. *)
Definition create_request (content : string) : Request :=
  mkRequest ∅ (mkRequestBody 40 (HeadValue 40 (mkMessage "" content 0 None))) false.

(** * internal/config/config.go

    [Load] reads the process environment.  Of the library functions it
    calls, [strings.Split] is given for the separator it is called with
    and [strings.TrimSpace] by its two loops over the bytes of the string;
    what [TrimSpace] hands to the Unicode-aware [TrimFunc] and
    [TrimRightFunc] when it meets a byte outside ASCII is left to them. *)
Module config.

Import Stdlib.Strings.Ascii.

Record Config := mkConfig {
  DBHost : string;
  DBPort : string;
  DBUser : string;
  DBPassword : string;
  DBName : string;
  ServerPort : string;
  Env : string;
  AllowedOrigins : list string;
}.

(** [os.Getenv]: the value of the variable, [""] when it is not set. *)
Definition Getenv (environ : gmap string string) (key : string) : string :=
  default "" (environ !! key).

(** The separator of the list of origins. *)
Definition comma : ascii := ascii_of_nat 44.

(** [strings.Split(s, ",")]: the pieces of [s] between the commas; a
    string without a comma, the empty one too, is its own single piece. *)
Fixpoint Split_comma (s : string) : list string :=
  match s with
  | EmptyString => [EmptyString]
  | String c rest =>
    if Ascii.eqb c comma then EmptyString :: Split_comma rest
    else
      match Split_comma rest with
      | piece :: pieces => String c piece :: pieces
      | [] => [String c EmptyString]
      end
  end.

(** [asciiSpace]: tab, line feed, vertical tab, form feed, carriage
    return and space. *)
Definition asciiSpace (c : ascii) : bool :=
  match nat_of_ascii c with
  | 9 | 10 | 11 | 12 | 13 | 32 => true
  | _ => false
  end%nat.

(** [c >= utf8.RuneSelf] *)
Definition RuneSelf : nat := 128.

Definition above_RuneSelf (c : ascii) : bool := (RuneSelf <=? nat_of_ascii c)%nat.

(** One loop of [TrimSpace] over the bytes it meets, from the end it
    starts at: it stops at the first byte that is not ASCII white space,
    and says whether that byte is outside ASCII. *)
Fixpoint trim_loop (s : list ascii) : bool * list ascii :=
  match s with
  | [] => (false, [])
  | c :: rest =>
    if above_RuneSelf c then (true, s)
    else if asciiSpace c then trim_loop rest
    else (false, s)
  end.

Section Load.

(** [strings.TrimFunc(s, unicode.IsSpace)] and
    [strings.TrimRightFunc(s, unicode.IsSpace)]. *)
Variable TrimFunc_IsSpace : string -> string.
Variable TrimRightFunc_IsSpace : string -> string.

(** [strings.TrimSpace]: the loop from the front, then the loop from the
    back over what is left. *)
Definition TrimSpace (s : string) : string :=
  let '(fallback, from_start) := trim_loop (list_ascii_of_string s) in
  if fallback then TrimFunc_IsSpace (string_of_list_ascii from_start)
  else
    let '(fallback, kept) := trim_loop (reverse from_start) in
    if fallback then TrimRightFunc_IsSpace (string_of_list_ascii (reverse kept))
    else string_of_list_ascii (reverse kept).

Definition Load (environ : gmap string string) : Config :=
  let dbHost := Getenv environ "DB_HOST" in
  let dbHost := if String.eqb dbHost "" then "localhost" else dbHost in
  let dbPort := Getenv environ "DB_PORT" in
  let dbPort := if String.eqb dbPort "" then "3306" else dbPort in
  let dbUser := Getenv environ "DB_USER" in
  let dbPassword := Getenv environ "DB_PASSWORD" in
  let dbName := Getenv environ "DB_NAME" in
  let serverPort := Getenv environ "SERVER_PORT" in
  let serverPort := if String.eqb serverPort "" then "8080" else serverPort in
  let env := Getenv environ "ENV" in
  let env := if String.eqb env "" then "development" else env in
  let allowedOrigins := Getenv environ "ALLOWED_ORIGINS" in
  let allowedOrigins :=
    if String.eqb allowedOrigins "" then "http://localhost:3000,http://127.0.0.1:3000"
    else allowedOrigins in
  mkConfig dbHost dbPort dbUser dbPassword dbName serverPort env
    (map TrimSpace (Split_comma allowedOrigins)).

End Load.

(** A string of ASCII white space. *)
Definition blank (s : string) : Prop :=
  Forall (fun c => asciiSpace c = true) (list_ascii_of_string s).

(** A byte at which [TrimSpace] stops without asking further. *)
Definition edge (c : ascii) : Prop :=
  above_RuneSelf c = false /\ asciiSpace c = false.

(** An origin as one writes it into the list: no comma in it, and neither
    white space nor a byte outside ASCII at either end. *)
Definition plain_origin (o : string) : Prop :=
  let bytes := list_ascii_of_string o in
  (comma ∉ bytes) /\
  (forall c, head bytes = Some c -> edge c) /\
  (forall c, last bytes = Some c -> edge c).

(** An entry of the list with the white space around it. *)
Definition padded (entry : string * string * string) : string :=
  let '(before, origin, after) := entry in before +:+ origin +:+ after.

Definition origin_of (entry : string * string * string) : string :=
  let '(_, origin, _) := entry in origin.

Definition well_padded (entry : string * string * string) : Prop :=
  let '(before, origin, after) := entry in
  blank before /\ plain_origin origin /\ blank after.

(** The number of commas in a string. *)
Definition commas (s : string) : nat :=
  length (List.filter (fun c => Ascii.eqb c comma) (list_ascii_of_string s)).

End config.

(** * Basic facts about the store calls *)

Lemma db_call_spec (s : Stmt) (w : World) :
  db_call s w =
    (hd false (faults (DB w)),
     emit (EStore s (negb (hd false (faults (DB w)))))
       (set_DB (set_faults (tail (faults (DB w))) (DB w)) w)).
Proof. unfold db_call. destruct (faults (DB w)); reflexivity. Qed.

Lemma set_faults_healthy (s : Store) :
  faults s = [] -> set_faults (tail (faults s)) s = s.
Proof. destruct s as [m k f e]; simpl; intros ->; reflexivity. Qed.

Lemma eqb_empty (s : string) : String.eqb s "" = true <-> s = "".
Proof. apply String.eqb_eq. Qed.

Lemma no_store_call_WriteHeader (st : Status) : no_store_call [EWriteHeader st].
Proof. intros s ok Hin. apply list_elem_of_singleton in Hin. discriminate. Qed.

(** * CreateMessage *)

(** What [CreateMessage] does, by the case the request falls in. *)
Lemma CreateMessage_rejected (r : Request) (w : World) :
  Decode (MaxBytesReader (2 ^ 20) (Body r)) = None \/
  (exists msg, Decode (MaxBytesReader (2 ^ 20) (Body r)) = Some msg /\ Content msg = "") ->
  status (fst (CreateMessage r w)) = StatusBadRequest /\
  DB (snd (CreateMessage r w)) = DB w /\
  log (snd (CreateMessage r w)) = log w ++ [EWriteHeader StatusBadRequest].
Proof.
  unfold CreateMessage.
  intros [-> | (msg & -> & Hc)]; [now cbn |].
  rewrite Hc. now cbn.
Qed.

Lemma CreateMessage_accepted (r : Request) (w : World) (msg : Message) :
  Decode (MaxBytesReader (2 ^ 20) (Body r)) = Some msg ->
  Content msg <> "" ->
  status (fst (CreateMessage r w)) = StatusCreated \/
  status (fst (CreateMessage r w)) = StatusInternalServerError.
Proof.
  unfold CreateMessage. intros -> Hc.
  destruct (String.eqb (Content msg) "") eqn:E; [apply eqb_empty in E; contradiction |].
  unfold Exec_Insert, Result_LastInsertId. rewrite db_call_spec.
  destruct (hd false (faults (DB w))); cbn; [now right |].
  match goal with |- context [existsb ?f ?l] => destruct (existsb f l) end; cbn; [now right |].
  match goal with |- context [match ?f with [] => _ | _ => _ end] => destruct f as [|[] ?] end;
    cbn; auto.
Qed.

(** ** C4 *)

(** C4. For every successful create (status 201) the returned message
    carries the key the store's auto-increment counter handed out, printed
    in decimal, the handler's reading of the clock as [created_at], and no
    [deleted_at]; its content is the content the client sent.  The [id],
    [created_at] and [deleted_at] that the client put in the body do not
    occur in the result, and the row written to the store is the same
    message, with what its [DATETIME] column keeps of that time. *)
Theorem CreateMessage_server_assigned (r : Request) (w : World) :
  status (fst (CreateMessage r w)) = StatusCreated ->
  exists (len : Z) (client : Message),
    body_head (Body r) = HeadValue len client /\
    let k := AUTO_INCREMENT (DB w) in
    body (fst (CreateMessage r w)) =
      BodyMessage (mkMessage (Sprintf_d k) (Content client) (clock w) None) /\
    messages (DB (snd (CreateMessage r w))) =
      messages (DB w) ++
        [mkRow k (Content client) (DATETIME (engine (DB w)) (clock w)) None] /\
    AUTO_INCREMENT (DB (snd (CreateMessage r w))) = (k + 1)%Z.
Proof.
  unfold CreateMessage, Decode, MaxBytesReader. cbn [reader_src reader_limit].
  destruct (body_head (Body r)) as [len client|]; [| cbn; discriminate].
  destruct (len <=? 2 ^ 20)%Z; [| cbn; discriminate].
  destruct (String.eqb (Content client) ""); [cbn; discriminate |].
  unfold Exec_Insert, Result_LastInsertId. rewrite db_call_spec.
  destruct (hd false (faults (DB w))); cbn; [discriminate |].
  match goal with |- context [existsb ?f ?l] => destruct (existsb f l) end; cbn; [discriminate |].
  match goal with |- context [match ?f with [] => _ | _ => _ end] => destruct f as [|[] ?] end;
    cbn; try discriminate; intros _; exists len, client; auto.
Qed.

Lemma CreateMessage_server_assigned_witness :
  status (fst (CreateMessage forged_create sample_world)) = StatusCreated /\
  body (fst (CreateMessage forged_create sample_world)) =
    BodyMessage (mkMessage "3" "hi" 200 None).
Proof.
  split; [reflexivity |].
  destruct (CreateMessage_server_assigned forged_create sample_world eq_refl)
    as (len & client & Hhead & Hbody & _).
  injection Hhead as <- <-. exact Hbody.
Defined.

(** ** C9 *)

(** C9 as stated fails: a body of more than 1 MiB whose leading JSON
    value is short and valid is accepted, because the decoder stops
    reading at the end of that value. *)
Lemma CreateMessage_oversized_counterexample :
  ~ (forall (r : Request) (w : World),
       status (fst (CreateMessage r w)) = StatusBadRequest <->
       content_empty r \/ unparsable r \/ oversized r).
Proof.
  intros H.
  assert (Hbad : status (fst (CreateMessage padded_create sample_world)) = StatusBadRequest).
  { apply H. right; right. reflexivity. }
  discriminate Hbad.
Qed.

(** C9, amended.  A create request is answered with 400 exactly when the
    leading JSON value of the body cannot be decoded, or is not complete
    within the first 1 MiB, or decodes to an empty content; in each of
    these cases the handler makes no call on the store, so no row is
    inserted. *)
Theorem CreateMessage_rejected_iff (r : Request) (w : World) :
  (status (fst (CreateMessage r w)) = StatusBadRequest <->
     content_empty r \/ unparsable r \/ head_oversized r) /\
  (status (fst (CreateMessage r w)) = StatusBadRequest ->
     DB (snd (CreateMessage r w)) = DB w /\
     exists l, log (snd (CreateMessage r w)) = log w ++ l /\ no_store_call l).
Proof.
  assert (Hcases :
    Decode (MaxBytesReader (2 ^ 20) (Body r)) = None /\
      (unparsable r \/ head_oversized r) \/
    exists msg, Decode (MaxBytesReader (2 ^ 20) (Body r)) = Some msg /\
      ~ unparsable r /\ ~ head_oversized r /\
      (content_empty r <-> Content msg = "")).
  { unfold Decode, MaxBytesReader, unparsable, head_oversized, content_empty.
    cbn [reader_src reader_limit].
    destruct (body_head (Body r)) as [len msg|]; [| left; auto].
    destruct (Z.leb_spec len (2 ^ 20)).
    - right. exists msg. repeat split; auto; try discriminate; lia.
    - left. split; auto. right. lia. }
  destruct Hcases as [[Hd Hwhy] | (msg & Hd & Hnu & Hno & Hce)].
  - destruct (CreateMessage_rejected r w (or_introl Hd)) as (Hs & Hdb & Hlog).
    split; [split; [tauto | auto] |].
    intros _. split; [exact Hdb |].
    eexists; split; [exact Hlog |]. apply no_store_call_WriteHeader.
  - destruct (decide (Content msg = "")) as [Hc | Hc].
    + destruct (CreateMessage_rejected r w (or_intror (ex_intro _ msg (conj Hd Hc))))
        as (Hs & Hdb & Hlog).
      split; [split; [tauto | auto] |].
      intros _. split; [exact Hdb |].
      eexists; split; [exact Hlog |]. apply no_store_call_WriteHeader.
    + pose proof (CreateMessage_accepted r w msg Hd Hc) as Hs.
      split; [split |].
      * intros Hbad. rewrite Hbad in Hs. destruct Hs; discriminate.
      * tauto.
      * intros Hbad. rewrite Hbad in Hs. destruct Hs; discriminate.
Qed.

(** * DeleteMessage *)

Lemma db_call_after (s : Stmt) (w : World) :
  db_call s w = (hd false (faults (DB w)), after_call s w).
Proof. unfold after_call. rewrite db_call_spec. reflexivity. Qed.

Lemma after_call_messages s w : messages (DB (after_call s w)) = messages (DB w).
Proof. unfold after_call. rewrite db_call_spec. reflexivity. Qed.

Lemma after_call_faults s w : faults (DB (after_call s w)) = tail (faults (DB w)).
Proof. unfold after_call. rewrite db_call_spec. reflexivity. Qed.

Lemma after_call_log s w :
  log (after_call s w) = log w ++ [EStore s (negb (hd false (faults (DB w))))].
Proof. unfold after_call. rewrite db_call_spec. reflexivity. Qed.

Lemma after_call_frame s w :
  AUTO_INCREMENT (DB (after_call s w)) = AUTO_INCREMENT (DB w) /\
  entropy (DB (after_call s w)) = entropy (DB w) /\
  AllowedOrigins (after_call s w) = AllowedOrigins w /\
  Clients (after_call s w) = Clients w /\
  Broadcast (after_call s w) = Broadcast w /\
  clock (after_call s w) = clock w /\
  conns (after_call s w) = conns w.
Proof. unfold after_call. rewrite db_call_spec. cbn. tauto. Qed.

Lemma after_call_engine s w : engine (DB (after_call s w)) = engine (DB w).
Proof. unfold after_call. rewrite db_call_spec. reflexivity. Qed.

Lemma after_call_gaps s w : gaps (DB (after_call s w)) = gaps (DB w).
Proof. unfold after_call. rewrite db_call_spec. reflexivity. Qed.

Lemma existsb_active_false (id : string) (w : World) :
  existsb (fun r => id_is (engine (DB w)) id r && is_active r) (messages (DB w)) = false
  <-> no_active id w.
Proof.
  unfold no_active. rewrite <- not_true_iff_false, existsb_exists. split.
  - intros Hno r Hin Hid. destruct (is_active r) eqn:Ha; [| reflexivity].
    exfalso. apply Hno. exists r. rewrite Hid, Ha. split; [now apply list_elem_of_In | reflexivity].
  - intros Hall (r & Hin & Hr). apply andb_true_iff in Hr as [Hid Ha].
    apply list_elem_of_In in Hin. rewrite (Hall r Hin Hid) in Ha. discriminate.
Qed.

(** The five ways a delete request can go. *)
Lemma DeleteMessage_query_fails (id : string) (w : World) :
  hd false (faults (DB w)) = true ->
  DeleteMessage id w =
    done (respond StatusInternalServerError (BodyError "Database error")
            (after_call (SelectExistsActive id) w)).
Proof.
  intros Hf. unfold DeleteMessage. cbn [DeleteMessage_run DeleteMessage_step].
  unfold QueryRow_Exists. rewrite db_call_after, Hf. reflexivity.
Qed.

Lemma DeleteMessage_absent (id : string) (w : World) :
  hd false (faults (DB w)) = false ->
  no_active id w ->
  DeleteMessage id w = done (respond StatusNotFound (BodyError "Message not found")
                               (after_call (SelectExistsActive id) w)).
Proof.
  intros Hf Hno. unfold DeleteMessage. cbn [DeleteMessage_run DeleteMessage_step].
  unfold QueryRow_Exists. rewrite db_call_after, Hf, after_call_messages, after_call_engine.
  apply existsb_active_false in Hno. rewrite Hno. reflexivity.
Qed.

Lemma DeleteMessage_update_fails (id : string) (w : World) :
  hd false (faults (DB w)) = false ->
  ~ no_active id w ->
  hd false (tail (faults (DB w))) = true ->
  DeleteMessage id w =
    done (respond StatusInternalServerError (BodyError "Failed to delete message")
            (after_call (UpdateDeletedAt (clock w) id) (after_call (SelectExistsActive id) w))).
Proof.
  intros Hf Hact Hf2. unfold DeleteMessage. cbn [DeleteMessage_run DeleteMessage_step].
  unfold QueryRow_Exists. rewrite db_call_after, Hf, after_call_messages, after_call_engine.
  rewrite <- existsb_active_false, not_false_iff_true in Hact. rewrite Hact.
  cbn [DeleteMessage_run DeleteMessage_step]. unfold Exec_Update.
  destruct (after_call_frame (SelectExistsActive id) w) as (_ & _ & _ & _ & _ & -> & _).
  rewrite db_call_after, after_call_faults, Hf2. reflexivity.
Qed.

Lemma DeleteMessage_run_to_send (id : string) (w : World) :
  hd false (faults (DB w)) = false ->
  ~ no_active id w ->
  hd false (tail (faults (DB w))) = false ->
  DeleteMessage_run 3 id DelCheck w = (DelSend (clock w), updated id w).
Proof.
  intros Hf Hact Hf2. cbn [DeleteMessage_run DeleteMessage_step].
  unfold QueryRow_Exists. rewrite db_call_after, Hf, after_call_messages, after_call_engine.
  rewrite <- existsb_active_false, not_false_iff_true in Hact. rewrite Hact.
  cbn [DeleteMessage_run DeleteMessage_step]. unfold Exec_Update.
  destruct (after_call_frame (SelectExistsActive id) w) as (_ & _ & _ & _ & _ & -> & _).
  rewrite db_call_after, after_call_faults, Hf2. reflexivity.
Qed.

(** A handler that is past the update has one step left. *)
Lemma DeleteMessage_run_last (id : string) (w : World) :
  DeleteMessage id w =
    let '(pc, w1) := DeleteMessage_run 3 id DelCheck w in
    match pc with
    | DelSend _ =>
      match DeleteMessage_step id pc w1 with
      | Some (pc', w') => (pc', w')
      | None => (pc, w1)
      end
    | _ => (pc, w1)
    end.
Proof.
  unfold DeleteMessage. cbn [DeleteMessage_run DeleteMessage_step].
  unfold QueryRow_Exists. rewrite db_call_after.
  destruct (hd false (faults (DB w))); [reflexivity |].
  destruct (existsb _ _); [| reflexivity].
  cbn [DeleteMessage_run DeleteMessage_step]. unfold Exec_Update. rewrite db_call_after.
  destruct (hd false _); [reflexivity |].
  cbn [DeleteMessage_run DeleteMessage_step].
  destruct decide; reflexivity.
Qed.

Lemma updated_frame (id : string) (w : World) :
  messages (DB (updated id w)) =
    map (soft_delete (engine (DB w)) (clock w) id) (messages (DB w)) /\
  faults (DB (updated id w)) = tail (tail (faults (DB w))) /\
  Broadcast (updated id w) = Broadcast w /\
  clock (updated id w) = clock w /\
  Clients (updated id w) = Clients w /\
  log (updated id w) =
    log w ++ [EStore (SelectExistsActive id) (negb (hd false (faults (DB w))));
              EStore (UpdateDeletedAt (clock w) id) (negb (hd false (tail (faults (DB w)))))].
Proof.
  unfold updated, after_call. rewrite !db_call_spec. cbn.
  rewrite <- app_assoc. tauto.
Qed.

Lemma updated_engine (id : string) (w : World) :
  engine (DB (updated id w)) = engine (DB w).
Proof. unfold updated, after_call. rewrite !db_call_spec. reflexivity. Qed.

Lemma DeleteMessage_held_up (id : string) (w : World) :
  hd false (faults (DB w)) = false ->
  ~ no_active id w ->
  hd false (tail (faults (DB w))) = false ->
  ~ (length (Broadcast w) < BroadcastCap)%nat ->
  DeleteMessage id w = (DelSend (clock w), updated id w).
Proof.
  intros Hf Hact Hf2 Hfull.
  rewrite DeleteMessage_run_last, (DeleteMessage_run_to_send id w Hf Hact Hf2).
  cbn [DeleteMessage_step].
  destruct (updated_frame id w) as (_ & _ & -> & _).
  destruct decide; [contradiction | reflexivity].
Qed.

Lemma DeleteMessage_succeeds (id : string) (w : World) :
  hd false (faults (DB w)) = false ->
  ~ no_active id w ->
  hd false (tail (faults (DB w))) = false ->
  (length (Broadcast w) < BroadcastCap)%nat ->
  DeleteMessage id w =
    done (respond StatusNoContent BodyEmpty
            (emit (ESend (delete_event id (clock w)))
               (set_Broadcast (Broadcast w ++ [delete_event id (clock w)]) (updated id w)))).
Proof.
  intros Hf Hact Hf2 Hroom.
  rewrite DeleteMessage_run_last, (DeleteMessage_run_to_send id w Hf Hact Hf2).
  cbn [DeleteMessage_step].
  destruct (updated_frame id w) as (_ & _ & -> & _).
  destruct decide; [reflexivity | contradiction].
Qed.

(** * What a request does to the store *)

Lemma Sprintf_d_inj (a b : Z) : Sprintf_d a = Sprintf_d b -> a = b.
Proof.
  unfold Sprintf_d. intros H. apply to_int_inj.
  assert (Hnn : forall z, Z.to_int z <> Decimal.Pos Decimal.Nil /\
                          Z.to_int z <> Decimal.Neg Decimal.Nil).
  { intros [|p|p]; cbn; split; try discriminate; intros [= Hp];
      exact (Unsigned.to_uint_nonnil p Hp). }
  assert (Hs : Some (Z.to_int a) = Some (Z.to_int b)).
  { rewrite <- (NilZero.isi (Z.to_int a)), <- (NilZero.isi (Z.to_int b)) by apply Hnn.
    now rewrite H. }
  now injection Hs.
Qed.

Lemma tail_drop {A} (l : list A) : tail l = drop 1 l.
Proof. destruct l; reflexivity. Qed.

Lemma insert_failed_frame (w : World) :
  messages (DB (insert_failed w)) = messages (DB w) /\
  faults (DB (insert_failed w)) = faults (DB w) /\
  clock (insert_failed w) = clock w /\
  engine (DB (insert_failed w)) = engine (DB w) /\
  Broadcast (insert_failed w) = Broadcast w /\
  Clients (insert_failed w) = Clients w /\
  conns (insert_failed w) = conns w /\
  AllowedOrigins (insert_failed w) = AllowedOrigins w /\
  log (insert_failed w) = log w.
Proof. unfold insert_failed. cbn. tauto. Qed.

Lemma CreateMessage_moves (r : Request) (w : World) :
  store_moves w (snd (CreateMessage r w)).
Proof.
  unfold store_moves, CreateMessage.
  destruct (Decode _) as [msg|]; cbn [respond snd emit DB clock];
    [| split; [constructor | split; [now exists 0%nat | reflexivity]]].
  destruct (String.eqb (Content msg) ""); cbn [respond snd emit DB clock];
    [split; [constructor | split; [now exists 0%nat | reflexivity]] |].
  unfold Exec_Insert, Result_LastInsertId. rewrite db_call_after.
  cbn [CreatedAt DeletedAt Content].
  destruct (after_call_frame (InsertMessage (Content msg) (clock w) None) w)
    as (Hk & _ & _ & _ & _ & Hclk & _).
  pose proof (after_call_messages (InsertMessage (Content msg) (clock w) None) w) as Hm.
  pose proof (after_call_faults (InsertMessage (Content msg) (clock w) None) w) as Hf.
  pose proof (after_call_engine (InsertMessage (Content msg) (clock w) None) w) as He.
  set (w1 := after_call _ w) in *.
  destruct (insert_failed_frame w1) as (Hm' & Hf' & Hclk' & _).
  destruct (hd false (faults (DB w))); cbn [respond snd emit DB clock].
  { rewrite Hm', Hf', Hclk', Hm, Hf, Hclk. split; [constructor | split; [| reflexivity]].
    exists 1%nat. apply tail_drop. }
  destruct (existsb _ _) eqn:Hdup; cbn [respond snd emit DB clock].
  { rewrite Hm', Hf', Hclk', Hm, Hf, Hclk. split; [constructor | split; [| reflexivity]].
    exists 1%nat. apply tail_drop. }
  rewrite db_call_after.
  assert (Hfresh : forall r0, r0 ∈ messages (DB w) -> row_id r0 <> AUTO_INCREMENT (DB w1)).
  { intros r0 Hin Heq. apply not_true_iff_false in Hdup. apply Hdup.
    apply existsb_exists. exists r0. rewrite Hm. split; [now apply list_elem_of_In |].
    now apply Z.eqb_eq. }
  assert (Hgoal : forall w2,
    messages (DB w2) =
      messages (DB w) ++
        [mkRow (AUTO_INCREMENT (DB w1)) (Content msg) (DATETIME (engine (DB w)) (clock w)) None] ->
    faults (DB w2) = tail (tail (faults (DB w))) -> clock w2 = clock w ->
    store_moves w w2).
  { intros w2 Hm2 Hf2 Hc2. unfold store_moves. rewrite Hm2, Hf2, Hc2.
    split; [now constructor | split; [| reflexivity]].
    exists 2%nat. rewrite !tail_drop, drop_drop. reflexivity. }
  destruct (hd false _); cbn [respond snd emit DB clock];
    apply Hgoal; unfold after_call; rewrite db_call_spec; cbn; rewrite ?Hm, ?Hf, ?Hclk, ?He;
    reflexivity.
Qed.

Lemma no_active_dec (id : string) (w : World) : {no_active id w} + {~ no_active id w}.
Proof.
  destruct (existsb (fun r => id_is (engine (DB w)) id r && is_active r) (messages (DB w)))
    eqn:E.
  - right. rewrite <- existsb_active_false. congruence.
  - left. now apply existsb_active_false.
Qed.

Lemma active_row_of (id : string) (w : World) :
  ~ no_active id w ->
  exists r, r ∈ messages (DB w) /\ id_is (engine (DB w)) id r = true /\ is_active r = true.
Proof.
  rewrite <- existsb_active_false, not_false_iff_true, existsb_exists.
  intros (r & Hin & Hr). apply andb_true_iff in Hr.
  exists r. split; [now apply list_elem_of_In | exact Hr].
Qed.

Lemma store_moves_same (w w' : World) (n : nat) :
  messages (DB w') = messages (DB w) ->
  faults (DB w') = drop n (faults (DB w)) ->
  clock w' = clock w ->
  store_moves w w'.
Proof.
  intros Hm Hf Hc. unfold store_moves. rewrite Hm, Hc.
  split; [constructor | split; [now exists n | reflexivity]].
Qed.

Lemma DeleteMessage_moves (id : string) (w : World) :
  store_moves w (snd (DeleteMessage id w)).
Proof.
  destruct (hd false (faults (DB w))) eqn:Hf.
  { rewrite (DeleteMessage_query_fails id w Hf). cbn [done respond fst snd].
    apply (store_moves_same _ _ 1); cbn;
      [apply after_call_messages | rewrite after_call_faults; apply tail_drop |
       apply after_call_frame]. }
  destruct (no_active_dec id w) as [Hno | Hact].
  { rewrite (DeleteMessage_absent id w Hf Hno). cbn [done respond fst snd].
    apply (store_moves_same _ _ 1); cbn;
      [apply after_call_messages | rewrite after_call_faults; apply tail_drop |
       apply after_call_frame]. }
  destruct (hd false (tail (faults (DB w)))) eqn:Hf2.
  { rewrite (DeleteMessage_update_fails id w Hf Hact Hf2). cbn [done respond fst snd].
    apply (store_moves_same _ _ 2); cbn.
    - now rewrite !after_call_messages.
    - now rewrite !after_call_faults, !tail_drop, drop_drop.
    - destruct (after_call_frame (UpdateDeletedAt (clock w) id)
                  (after_call (SelectExistsActive id) w)) as (_ & _ & _ & _ & _ & -> & _).
      apply after_call_frame. }
  destruct (updated_frame id w) as (Hm & Hfl & _ & Hc & _).
  assert (Hmoves : forall w2,
    messages (DB w2) = messages (DB (updated id w)) ->
    faults (DB w2) = faults (DB (updated id w)) ->
    clock w2 = clock (updated id w) -> store_moves w w2).
  { intros w2 Hm2 Hf2' Hc2. unfold store_moves. rewrite Hm2, Hf2', Hc2, Hm, Hfl, Hc.
    split; [constructor; now apply active_row_of | split; [| reflexivity]].
    exists 2%nat. now rewrite !tail_drop, drop_drop. }
  destruct (decide (length (Broadcast w) < BroadcastCap)%nat) as [Hroom | Hfull].
  - rewrite (DeleteMessage_succeeds id w Hf Hact Hf2 Hroom). now apply Hmoves.
  - rewrite (DeleteMessage_held_up id w Hf Hact Hf2 Hfull). now apply Hmoves.
Qed.

Lemma scan_rows_frame (rows : list Row) (w : World) :
  messages (DB (snd (scan_rows rows w))) = messages (DB w) /\
  faults (DB (snd (scan_rows rows w))) = drop (length rows) (faults (DB w)) /\
  clock (snd (scan_rows rows w)) = clock w.
Proof.
  revert w. induction rows as [|r rows IH]; intros w; [now cbn |].
  cbn [scan_rows]. rewrite db_call_after.
  specialize (IH (after_call RowsScan w)).
  destruct (scan_rows rows (after_call RowsScan w)) as [msgs w'].
  cbn [snd] in IH. destruct IH as (Hm & Hf & Hc).
  assert (Hgoal : messages (DB w') = messages (DB w) /\
                  faults (DB w') = drop (length (r :: rows)) (faults (DB w)) /\
                  clock w' = clock w).
  { rewrite Hm, Hf, Hc, after_call_messages, after_call_faults, tail_drop, drop_drop.
    repeat split. }
  destruct (hd false _); exact Hgoal.
Qed.

Lemma Query_Active_frame (limit : nat) (w : World) :
  messages (DB (snd (Query_Active limit w))) = messages (DB w) /\
  faults (DB (snd (Query_Active limit w))) = tail (faults (DB w)) /\
  clock (snd (Query_Active limit w)) = clock w.
Proof.
  unfold Query_Active. rewrite db_call_after.
  destruct (hd false _); cbn [snd set_DB DB messages faults clock];
    rewrite ?after_call_messages, ?after_call_faults; repeat split;
    apply after_call_frame.
Qed.

Lemma list_messages_moves (w : World) : store_moves w (snd (list_messages w)).
Proof.
  unfold list_messages.
  destruct (Query_Active_frame maxMessagesPerRequest w) as (Hm & Hf & Hc).
  destruct (Query_Active maxMessagesPerRequest w) as [[rows|] w1]; cbn [snd] in *.
  2:{ apply (store_moves_same _ _ 1); cbn; [exact Hm | now rewrite Hf, tail_drop | exact Hc]. }
  destruct (scan_rows_frame rows w1) as (Hm2 & Hf2 & Hc2).
  destruct (scan_rows rows w1) as [msgs w2]; cbn [snd] in *.
  rewrite db_call_after.
  assert (Hgoal : forall w3, messages (DB w3) = messages (DB (after_call RowsErr w2)) ->
     faults (DB w3) = faults (DB (after_call RowsErr w2)) ->
     clock w3 = clock (after_call RowsErr w2) -> store_moves w w3).
  { intros w3 Hm3 Hf3 Hc3. apply (store_moves_same _ _ (1 + (length rows + 1))).
    - now rewrite Hm3, after_call_messages, Hm2.
    - rewrite Hf3, after_call_faults, Hf2, Hf, !tail_drop, !drop_drop. reflexivity.
    - rewrite Hc3. destruct (after_call_frame RowsErr w2) as (_ & _ & _ & _ & _ & -> & _).
      congruence. }
  destruct (hd false _); cbn [respond snd]; now apply Hgoal.
Qed.

Lemma GetMessages_moves (url_Parse : string -> option URL) (r : Request) (w : World) :
  store_moves w (snd (GetMessages url_Parse r w)).
Proof.
  unfold GetMessages, forbidden.
  repeat match goal with
  | |- context [if ?b then _ else _] => destruct b
  | |- context [match url_Parse ?x with _ => _ end] => destruct (url_Parse x)
  end; try apply list_messages_moves; now apply (store_moves_same _ _ 0).
Qed.

Lemma HandleWebSocket_frame (r : Request) (w : World) :
  DB (snd (HandleWebSocket r w)) = DB w /\
  clock (snd (HandleWebSocket r w)) = clock w /\
  Broadcast (snd (HandleWebSocket r w)) = Broadcast w.
Proof.
  unfold HandleWebSocket, Upgrade.
  destruct (negb (handshake r)); [now cbn |].
  destruct (negb (CheckOrigin _ r)); now cbn.
Qed.

Lemma teardown_frame (acts : list Teardown) (w : World) :
  DB (teardown acts w) = DB w /\
  clock (teardown acts w) = clock w /\
  Broadcast (teardown acts w) = Broadcast w /\
  AllowedOrigins (teardown acts w) = AllowedOrigins w.
Proof.
  unfold teardown. revert w. induction acts as [|a acts IH]; intros w; [now cbn |].
  cbn [foldl]. destruct (IH (teardown_step w a)) as (-> & -> & -> & ->).
  destruct a; now cbn.
Qed.

Lemma broadcast_to_frame (event : DeleteEventMessage) (snapshot : list Conn) (w : World) :
  DB (broadcast_to event snapshot w) = DB w /\
  clock (broadcast_to event snapshot w) = clock w /\
  Broadcast (broadcast_to event snapshot w) = Broadcast w /\
  AllowedOrigins (broadcast_to event snapshot w) = AllowedOrigins w.
Proof.
  revert w. induction snapshot as [|c rest IH]; intros w; [now cbn |].
  cbn [broadcast_to WriteJSON].
  destruct (conn_ok w c).
  - destruct (IH (emit (EWriteJSON c event true) w)) as (-> & -> & -> & ->). now cbn.
  - destruct (IH (teardown (dispatch_teardown c) (emit (EWriteJSON c event false) w)))
      as (-> & -> & -> & ->).
    destruct (teardown_frame (dispatch_teardown c) (emit (EWriteJSON c event false) w))
      as (-> & -> & -> & ->). now cbn.
Qed.

Lemma HandleBroadcast_turn_frame (w w' : World) :
  HandleBroadcast_turn w = Some w' ->
  DB w' = DB w /\ clock w' = clock w /\ Broadcast w' = tail (Broadcast w).
Proof.
  unfold HandleBroadcast_turn. destruct (Broadcast w) as [|event rest] eqn:E; [discriminate |].
  intros [= <-].
  destruct (broadcast_to_frame event
              (clientsSnapshot (emit (ERecv event) (set_Broadcast rest w)))
              (emit (ERecv event) (set_Broadcast rest w))) as (-> & -> & -> & _).
  now cbn.
Qed.

(** No request changes the engine. *)
Lemma CreateMessage_engine (r : Request) (w : World) :
  engine (DB (snd (CreateMessage r w))) = engine (DB w).
Proof.
  unfold CreateMessage.
  destruct (Decode _) as [msg|]; [| reflexivity].
  destruct (String.eqb _ _); [reflexivity |].
  unfold Exec_Insert, Result_LastInsertId. rewrite db_call_spec.
  destruct (hd false (faults (DB w))); [reflexivity |].
  cbn [emit set_DB DB set_faults messages AUTO_INCREMENT].
  destruct (existsb _ _); [reflexivity |].
  rewrite db_call_spec. destruct (hd false _); reflexivity.
Qed.

Lemma scan_rows_engine (rows : list Row) (w : World) :
  engine (DB (snd (scan_rows rows w))) = engine (DB w).
Proof.
  revert w. induction rows as [|r rows IH]; intros w; [reflexivity |].
  cbn [scan_rows]. rewrite db_call_after.
  specialize (IH (after_call RowsScan w)).
  destruct (scan_rows rows (after_call RowsScan w)) as [msgs w'].
  cbn [snd] in IH. rewrite after_call_engine in IH.
  destruct (hd false _); exact IH.
Qed.

Lemma list_messages_engine (w : World) :
  engine (DB (snd (list_messages w))) = engine (DB w).
Proof.
  unfold list_messages, Query_Active. rewrite db_call_after.
  destruct (hd false (faults (DB w))); [cbn; apply after_call_engine |].
  match goal with |- context [scan_rows ?rows ?w0] =>
    pose proof (scan_rows_engine rows w0) as H1;
    destruct (scan_rows rows w0) as [msgs w1] end.
  cbn [snd set_DB DB engine] in H1. rewrite after_call_engine in H1.
  rewrite db_call_after.
  destruct (hd false _); cbn [respond snd emit DB]; now rewrite after_call_engine.
Qed.

Lemma GetMessages_engine (url_Parse : string -> option URL) (r : Request) (w : World) :
  engine (DB (snd (GetMessages url_Parse r w))) = engine (DB w).
Proof.
  unfold GetMessages, forbidden.
  repeat match goal with
  | |- context [if ?b then _ else _] => destruct b
  | |- context [match url_Parse ?x with _ => _ end] => destruct (url_Parse x)
  end; try apply list_messages_engine; reflexivity.
Qed.

Lemma DeleteMessage_step_engine (id : string) (pc pc' : DeletePc) (w w' : World) :
  DeleteMessage_step id pc w = Some (pc', w') -> engine (DB w') = engine (DB w).
Proof.
  destruct pc as [| | now | now | resp]; cbn [DeleteMessage_step].
  - unfold QueryRow_Exists. rewrite db_call_after.
    destruct (hd false (faults (DB w))); [| destruct (existsb _ _)];
      intros [= <- <-]; cbn [respond snd emit DB]; apply after_call_engine.
  - now intros [= <- <-].
  - unfold Exec_Update. rewrite db_call_after.
    destruct (hd false (faults (DB w))); intros [= <- <-];
      cbn; first [apply after_call_engine | reflexivity].
  - destruct decide; [| discriminate]. now intros [= <- <-].
  - discriminate.
Qed.

Lemma DeleteMessage_run_engine (fuel : nat) (id : string) (pc : DeletePc) (w : World) :
  engine (DB (snd (DeleteMessage_run fuel id pc w))) = engine (DB w).
Proof.
  revert pc w. induction fuel as [|fuel IH]; intros pc w; [reflexivity |].
  cbn [DeleteMessage_run].
  destruct (DeleteMessage_step id pc w) as [[pc' w']|] eqn:Hstep; [| reflexivity].
  rewrite IH. exact (DeleteMessage_step_engine _ _ _ _ _ Hstep).
Qed.

Lemma apply_op_engine (url_Parse : string -> option URL) (w : World) (o : Op) :
  engine (DB (apply_op url_Parse w o)) = engine (DB w).
Proof.
  destruct o as [r | r | id | r | | dt]; cbn [apply_op].
  - apply CreateMessage_engine.
  - apply GetMessages_engine.
  - apply DeleteMessage_run_engine.
  - now destruct (HandleWebSocket_frame r w) as (-> & _).
  - cbn [HandleBroadcast]. destruct (HandleBroadcast_turn w) as [w'|] eqn:E; [| reflexivity].
    now destruct (HandleBroadcast_turn_frame w w' E) as (-> & _).
  - reflexivity.
Qed.


Lemma apply_op_moves (url_Parse : string -> option URL) (w : World) (o : Op) :
  table_step (engine (DB w)) (clock w) (messages (DB w))
    (messages (DB (apply_op url_Parse w o))) /\
  (exists n, faults (DB (apply_op url_Parse w o)) = drop n (faults (DB w))) /\
  (clock w <= clock (apply_op url_Parse w o))%Z.
Proof.
  assert (Hmoves : forall w', store_moves w w' ->
    table_step (engine (DB w)) (clock w) (messages (DB w)) (messages (DB w')) /\
    (exists n, faults (DB w') = drop n (faults (DB w))) /\ (clock w <= clock w')%Z).
  { intros w' (Ht & Hf & Hc). rewrite Hc. repeat split; auto. lia. }
  destruct o as [r | r | id | r | | dt]; cbn [apply_op].
  - apply Hmoves, CreateMessage_moves.
  - apply Hmoves, GetMessages_moves.
  - apply Hmoves, DeleteMessage_moves.
  - apply Hmoves. destruct (HandleWebSocket_frame r w) as (Hdb & Hc & _).
    apply (store_moves_same _ _ 0); [now rewrite Hdb | now rewrite Hdb | exact Hc].
  - apply Hmoves. cbn [HandleBroadcast].
    destruct (HandleBroadcast_turn w) as [w'|] eqn:E.
    + destruct (HandleBroadcast_turn_frame w w' E) as (Hdb & Hc & _).
      apply (store_moves_same _ _ 0); [now rewrite Hdb | now rewrite Hdb | exact Hc].
    + now apply (store_moves_same _ _ 0).
  - cbn. split; [constructor | split; [now exists 0%nat | lia]].
Qed.

Lemma run_ops_healthy (url_Parse : string -> option URL) (ops : list Op) (w : World) :
  faults (DB w) = [] -> faults (DB (run_ops url_Parse ops w)) = [].
Proof.
  unfold run_ops. revert w. induction ops as [|o ops IH]; intros w Hw; [exact Hw |].
  cbn [foldl]. apply IH.
  destruct (apply_op_moves url_Parse w o) as (_ & (n & ->) & _).
  rewrite Hw. apply drop_nil.
Qed.

(** ** A soft-deleted message stays soft-deleted *)

Lemma decimal_key_Sprintf_d (k : Z) : decimal_key (Sprintf_d k) = Some k.
Proof.
  unfold decimal_key, Sprintf_d at 1.
  assert (Hnn : Z.to_int k <> Decimal.Pos Decimal.Nil /\
                Z.to_int k <> Decimal.Neg Decimal.Nil).
  { destruct k as [|p|p]; cbn; split; try discriminate; intros [= Hp];
      exact (Unsigned.to_uint_nonnil p Hp). }
  rewrite NilZero.isi by apply Hnn. cbn zeta. rewrite DecimalZ.of_to.
  now rewrite String.eqb_refl.
Qed.

Lemma decimal_key_Some (id : string) (k : Z) : decimal_key id = Some k -> id = Sprintf_d k.
Proof.
  unfold decimal_key. destruct (NilZero.int_of_string id) as [d|]; [| discriminate].
  cbn zeta. destruct (String.eqb _ id) eqn:E; [| discriminate].
  intros [= <-]. apply String.eqb_eq in E. now symmetry.
Qed.

(** The decimal form of a key names that key, whatever the engine. *)
Lemma named_key_Sprintf_d (e : Engine) (k : Z) : named_key e (Sprintf_d k) = Some k.
Proof. unfold named_key. now rewrite decimal_key_Sprintf_d. Qed.

Lemma id_is_named (e : Engine) (id : string) (r : Row) :
  id_is e id r = true <-> named_key e id = Some (row_id r).
Proof.
  unfold id_is. destruct (named_key e id) as [k|]; [| split; discriminate].
  rewrite Z.eqb_eq. split; [now intros -> | now intros [= ->]].
Qed.

Lemma id_is_Sprintf_d (e : Engine) (k : Z) (r : Row) :
  id_is e (Sprintf_d k) r = (row_id r =? k)%Z.
Proof. unfold id_is. now rewrite named_key_Sprintf_d. Qed.

Lemma id_is_same_key (e : Engine) (id : string) (r r' : Row) :
  id_is e id r = true -> id_is e id r' = true -> row_id r = row_id r'.
Proof. rewrite !id_is_named. congruence. Qed.

Lemma soft_delete_id (e e' : Engine) (now : Time) (id id' : string) (r : Row) :
  id_is e' id' (soft_delete e now id r) = id_is e' id' r.
Proof. unfold soft_delete. destruct (id_is e id r); reflexivity. Qed.

Lemma soft_delete_inactive (e : Engine) (now : Time) (id : string) (r : Row) :
  is_active r = false -> is_active (soft_delete e now id r) = false.
Proof. unfold soft_delete. destruct (id_is e id r); auto. Qed.

Lemma soft_delete_hit (e : Engine) (now : Time) (id : string) (r : Row) :
  id_is e id r = true ->
  row_deleted_at (soft_delete e now id r) = Some (DATETIME e now).
Proof. unfold soft_delete. intros ->. reflexivity. Qed.

Lemma table_step_soft_deleted (e : Engine) (now : Time) (id : string)
    (rows rows' : list Row) :
  table_step e now rows rows' -> soft_deleted e id rows -> soft_deleted e id rows'.
Proof.
  intros Hstep [(r0 & Hin0 & Hid0) Hall].
  destruct Hstep as [| k content Hfresh | id' _].
  - split; eauto.
  - split.
    + exists r0. split; [apply elem_of_app; now left | exact Hid0].
    + intros r Hin Hid. apply elem_of_app in Hin as [Hin | Hin]; [now apply Hall |].
      apply list_elem_of_singleton in Hin. subst r. exfalso.
      pose proof (id_is_same_key e id _ _ Hid0 Hid) as Hk. cbn in Hk.
      exact (Hfresh r0 Hin0 Hk).
  - split.
    + exists (soft_delete e now id' r0).
      split; [now apply list_elem_of_fmap_2 | now rewrite soft_delete_id].
    + intros r Hin Hid. apply list_elem_of_fmap in Hin as (r1 & -> & Hin1).
      rewrite soft_delete_id in Hid. apply soft_delete_inactive. now apply Hall.
Qed.

Lemma run_ops_soft_deleted (url_Parse : string -> option URL) (id : string)
    (ops : list Op) (w : World) :
  soft_deleted (engine (DB w)) id (messages (DB w)) ->
  soft_deleted (engine (DB w)) id (messages (DB (run_ops url_Parse ops w))).
Proof.
  unfold run_ops. revert w. induction ops as [|o ops IH]; intros w Hw; [exact Hw |].
  cbn [foldl]. rewrite <- (apply_op_engine url_Parse w o). apply IH.
  rewrite (apply_op_engine url_Parse w o).
  destruct (apply_op_moves url_Parse w o) as (Hstep & _).
  exact (table_step_soft_deleted _ _ _ _ _ Hstep Hw).
Qed.

(** ** C1 *)

Lemma map_soft_delete_soft_deleted (now : Time) (id : string) (w : World) :
  ~ no_active id w ->
  soft_deleted (engine (DB w)) id
    (map (soft_delete (engine (DB w)) now id) (messages (DB w))).
Proof.
  intros Hact. destruct (active_row_of id w Hact) as (r0 & Hin0 & Hid0 & _). split.
  - exists (soft_delete (engine (DB w)) now id r0).
    split; [now apply list_elem_of_fmap_2 | now rewrite soft_delete_id].
  - intros r Hin Hid. apply list_elem_of_fmap in Hin as (r1 & -> & _).
    rewrite soft_delete_id in Hid. unfold is_active.
    now rewrite (soft_delete_hit _ _ _ _ Hid).
Qed.





(** * Origin checks *)

Lemma isOriginAllowed_loop_spec (origin : string) (allowed : list string) :
  isOriginAllowed_loop origin allowed = true <-> origin ∈ allowed.
Proof.
  induction allowed as [|a rest IH]; cbn [isOriginAllowed_loop].
  - split; [discriminate | intros H; inversion H].
  - destruct (String.eqb_spec origin a) as [-> | Hne].
    + split; [intros _; left | reflexivity].
    + rewrite IH. split; [now right |].
      intros H. apply elem_of_cons in H as [? | ?]; [contradiction | assumption].
Qed.

Lemma isOriginAllowed_spec (w : World) (origin : string) :
  isOriginAllowed w origin = true <-> origin ∈ AllowedOrigins w.
Proof. apply isOriginAllowed_loop_spec. Qed.

(** The map built by [createUpgrader] holds [true] at the configured
    origins and nothing else. *)
Lemma allowedMap_lookup_from (allowed : list string) (m : gmap string bool) (origin : string) :
  foldl (fun m o => <[o := true]> m) m allowed !! origin =
    if decide (origin ∈ allowed) then Some true else m !! origin.
Proof.
  revert m. induction allowed as [|a rest IH]; intros m; cbn [foldl].
  - destruct decide as [H | _]; [inversion H | reflexivity].
  - rewrite IH. destruct (decide (origin ∈ rest)) as [Hin | Hnin].
    + rewrite decide_True by now right. reflexivity.
    + destruct (decide (origin = a)) as [-> | Hne].
      * rewrite decide_True by now left. apply lookup_insert_eq.
      * rewrite decide_False by (rewrite elem_of_cons; tauto).
        now apply lookup_insert_ne.
Qed.

Lemma CheckOrigin_spec (allowed : list string) (r : Request) :
  CheckOrigin (createUpgrader allowed) r = true <->
  Header_Get (ReqHeader r) "Origin" ∈ allowed.
Proof.
  unfold createUpgrader, allowedMap_of. cbn [CheckOrigin].
  rewrite allowedMap_lookup_from, lookup_empty.
  destruct decide; cbn; split; auto; discriminate.
Qed.

(** The list endpoint and the upgrader decide on an origin alike. *)
Lemma isOriginAllowed_CheckOrigin (w : World) (r : Request) :
  isOriginAllowed w (Header_Get (ReqHeader r) "Origin") =
  CheckOrigin (createUpgrader (AllowedOrigins w)) r.
Proof.
  apply eq_true_iff_eq. rewrite isOriginAllowed_spec, CheckOrigin_spec. reflexivity.
Qed.

(** ** C7 *)

Lemma list_messages_queries (w : World) :
  exists ok l, log (snd (list_messages w)) =
    log w ++ EStore (SelectActiveRandom maxMessagesPerRequest) ok :: l.
Proof.
  assert (Hscan : forall rows w0, exists l, log (snd (scan_rows rows w0)) = log w0 ++ l).
  { induction rows as [|r rows IH]; intros w0; [exists []; cbn; now rewrite app_nil_r |].
    cbn [scan_rows]. rewrite db_call_after.
    destruct (IH (after_call RowsScan w0)) as (l & Hl).
    destruct (scan_rows rows (after_call RowsScan w0)) as [msgs w1]. cbn [snd] in Hl.
    exists (EStore RowsScan (negb (hd false (faults (DB w0)))) :: l).
    rewrite after_call_log, <- app_assoc in Hl.
    destruct (hd false _); exact Hl. }
  unfold list_messages, Query_Active. rewrite db_call_after.
  exists (negb (hd false (faults (DB w)))).
  destruct (hd false (faults (DB w))) eqn:Hf.
  - eexists. cbn [respond snd emit log]. rewrite after_call_log, Hf, <- app_assoc. reflexivity.
  - match goal with |- context [scan_rows ?rows ?w0] =>
      destruct (Hscan rows w0) as (l & Hl); destruct (scan_rows rows w0) as [msgs w1] end.
    cbn [snd] in Hl. cbn [set_DB log] in Hl. rewrite after_call_log, Hf, <- app_assoc in Hl.
    rewrite db_call_after.
    destruct (hd false (faults (DB w1))) eqn:Hf1; cbn [respond snd emit log];
      rewrite ?after_call_log, Hl, <- ?app_assoc; eexists; reflexivity.
Qed.

(** The handler, by the origin the request declares. *)
Lemma GetMessages_by_declared_origin (url_Parse : string -> option URL)
    (r : Request) (w : World) :
  GetMessages url_Parse r w =
    match declared_origin url_Parse r with
    | Some origin => if isOriginAllowed w origin then list_messages w else forbidden w
    | None => forbidden w
    end.
Proof.
  unfold GetMessages, declared_origin.
  destruct (String.eqb_spec (Header_Get (ReqHeader r) "Origin") "") as [He | Hne].
  - rewrite decide_True by exact He. cbn [negb].
    destruct (String.eqb_spec (Referer r) "") as [Hr | Hr].
    + now rewrite decide_True.
    + rewrite decide_False by exact Hr.
      destruct (url_Parse (Referer r)) as [u|]; [| reflexivity].
      destruct (String.eqb_spec (Scheme u) "") as [Hs | Hs]; cbn [orb].
      * rewrite decide_True by now left. reflexivity.
      * destruct (String.eqb_spec (Host u) "") as [Hh | Hh].
        -- rewrite decide_True by now right. reflexivity.
        -- rewrite decide_False by tauto. now destruct (isOriginAllowed w _).
  - rewrite decide_False by exact Hne. cbn [negb]. now destruct (isOriginAllowed w _).
Qed.

Lemma GetMessages_authorized (url_Parse : string -> option URL) (r : Request) (w : World) :
  list_authorized url_Parse r w -> GetMessages url_Parse r w = list_messages w.
Proof.
  intros Hauth. rewrite GetMessages_by_declared_origin. unfold list_authorized in Hauth.
  destruct (declared_origin url_Parse r) as [origin|]; [| contradiction].
  apply isOriginAllowed_spec in Hauth. now rewrite Hauth.
Qed.

(** C7. The list endpoint decides on the origin with the same allow-set
    as the upgrader of the subscription endpoint.  A request with an
    [Origin] header is judged by that header alone.  A request without one
    is judged by its [Referer]: it is turned down when there is no
    [Referer], when the [Referer] does not parse, and when the parsed
    [Referer] lacks a scheme or a host; otherwise its [scheme://host] is
    looked up in the allow-set.  A request that passes goes on to query
    the store; every request that does not is answered with 403
    "Forbidden" and the handler returns without a call on the store. *)
Theorem GetMessages_origin_validation (url_Parse : string -> option URL)
    (r : Request) (w : World) :
  let origin := Header_Get (ReqHeader r) "Origin" in
  let passes := GetMessages url_Parse r w = list_messages w in
  let rejected :=
    GetMessages url_Parse r w =
      (mkResponse StatusForbidden (BodyError "Forbidden"),
       emit (EWriteHeader StatusForbidden) w) in
  (forall r' : Request,
     isOriginAllowed w (Header_Get (ReqHeader r') "Origin") =
     CheckOrigin (createUpgrader (AllowedOrigins w)) r') /\
  (origin <> "" ->
     (origin ∈ AllowedOrigins w -> passes) /\
     (origin ∉ AllowedOrigins w -> rejected)) /\
  (origin = "" ->
     (Referer r = "" -> rejected) /\
     (url_Parse (Referer r) = None -> rejected) /\
     (forall u, url_Parse (Referer r) = Some u ->
        (Scheme u = "" \/ Host u = "" -> rejected) /\
        (Referer r <> "" -> Scheme u <> "" -> Host u <> "" ->
           (Scheme u +:+ "://" +:+ Host u ∈ AllowedOrigins w -> passes) /\
           (Scheme u +:+ "://" +:+ Host u ∉ AllowedOrigins w -> rejected)))) /\
  (list_authorized url_Parse r w <-> passes) /\
  (~ list_authorized url_Parse r w <-> rejected) /\
  (passes ->
     exists ok l, log (snd (GetMessages url_Parse r w)) =
       log w ++ EStore (SelectActiveRandom maxMessagesPerRequest) ok :: l) /\
  (rejected ->
     DB (snd (GetMessages url_Parse r w)) = DB w /\
     log (snd (GetMessages url_Parse r w)) = log w ++ [EWriteHeader StatusForbidden]).
Proof.
  intros origin passes rejected.
  pose proof (GetMessages_by_declared_origin url_Parse r w) as Hrun.
  destruct (list_messages_queries w) as (ok & l & Hquery).
  assert (Hdiff : list_messages w <>
            (mkResponse StatusForbidden (BodyError "Forbidden"),
             emit (EWriteHeader StatusForbidden) w)).
  { intros Heq. rewrite Heq in Hquery. cbn in Hquery.
    apply app_inv_head in Hquery. discriminate. }
  assert (Hauth : list_authorized url_Parse r w -> passes).
  { apply GetMessages_authorized. }
  assert (Hnot : ~ list_authorized url_Parse r w -> rejected).
  { intros Hno. subst rejected. rewrite Hrun. unfold list_authorized in Hno.
    destruct (declared_origin url_Parse r) as [o|]; [| reflexivity].
    destruct (isOriginAllowed w o) eqn:E; [| reflexivity].
    apply isOriginAllowed_spec in E. contradiction. }
  assert (Hdec : list_authorized url_Parse r w \/ ~ list_authorized url_Parse r w).
  { unfold list_authorized. destruct (declared_origin url_Parse r) as [o|]; [| tauto].
    destruct (decide (o ∈ AllowedOrigins w)); tauto. }
  assert (Hexcl : passes -> rejected -> False).
  { subst passes rejected. intros Hp Hr. rewrite Hp in Hr. contradiction. }
  split; [intros r'; apply isOriginAllowed_CheckOrigin |].
  split; [| split; [| split; [| split; [| split]]]].
  - intros Hne.
    assert (Hd : declared_origin url_Parse r = Some origin).
    { unfold declared_origin. now rewrite decide_False. }
    split; [intros Hin; apply Hauth | intros Hnin; apply Hnot];
      unfold list_authorized; now rewrite Hd.
  - intros He. unfold list_authorized, declared_origin in Hnot, Hauth.
    rewrite decide_True in Hnot, Hauth by exact He.
    split; [| split].
    + intros Hr. apply Hnot. rewrite decide_True by exact Hr. tauto.
    + intros Hp. apply Hnot. destruct decide; [tauto |]. rewrite Hp. tauto.
    + intros u Hu. rewrite Hu in Hnot, Hauth. split.
      * intros Hempty. apply Hnot. destruct decide; [tauto |].
        rewrite decide_True by exact Hempty. tauto.
      * intros Hr Hs Hh. rewrite decide_False in Hnot, Hauth by exact Hr.
        rewrite decide_False in Hnot, Hauth by tauto. auto.
  - split; [exact Hauth |]. intros Hp. destruct Hdec as [? | Hno]; [assumption |].
    exfalso. exact (Hexcl Hp (Hnot Hno)).
  - split; [exact Hnot |]. intros Hr Ha. exact (Hexcl (Hauth Ha) Hr).
  - intros Hp. subst passes. rewrite Hp. now exists ok, l.
  - intros Hr. subst rejected. rewrite Hr. split; reflexivity.
Qed.

(** The cases of the origin check on the sample configuration. *)
Example GetMessages_origin_examples :
  status (fst (GetMessages parse_app_page
                 (list_request_with [("Origin", ["http://localhost:8080"])]) sample_world))
    = StatusOK /\
  status (fst (GetMessages parse_app_page
                 (list_request_with [("Origin", ["http://example.com"]);
                                     ("Referer", ["http://localhost:8080/app"])]) sample_world))
    = StatusForbidden /\
  status (fst (GetMessages parse_app_page
                 (list_request_with [("Referer", ["http://localhost:8080/app"])]) sample_world))
    = StatusOK /\
  status (fst (GetMessages parse_app_page
                 (list_request_with [("Referer", ["/app"])]) sample_world))
    = StatusForbidden /\
  status (fst (GetMessages parse_app_page
                 (list_request_with [("Referer", ["not a url"])]) sample_world))
    = StatusForbidden /\
  GetMessages parse_app_page (list_request_with []) sample_world
    = (mkResponse StatusForbidden (BodyError "Forbidden"),
       emit (EWriteHeader StatusForbidden) sample_world).
Proof. repeat split. Qed.

(** * GetMessages: what is listed *)

Lemma order_by_rand_Permutation (picks : list nat) (rows : list Row) :
  order_by_rand (length rows) picks rows ≡ₚ rows.
Proof.
  remember (length rows) as n eqn:Hn. revert picks rows Hn.
  induction n as [|n IH]; intros picks rows Hn; cbn [order_by_rand].
  - destruct rows; [reflexivity | discriminate].
  - assert (Hlt : (hd 0 picks mod length rows < length rows)%nat).
    { apply Nat.mod_upper_bound. rewrite <- Hn. discriminate. }
    destruct (lookup_lt_is_Some_2 rows _ Hlt) as [r Hr]. rewrite Hr.
    etransitivity; [| symmetry; exact (delete_Permutation rows _ r Hr)].
    constructor. apply IH. rewrite length_delete by eauto. lia.
Qed.

Lemma Query_Active_rows (limit : nat) (w : World) (rows : list Row) :
  fst (Query_Active limit w) = Some rows ->
  rows ⊆+ active_rows w /\
  length rows = Nat.min limit (length (active_rows w)).
Proof.
  unfold Query_Active. rewrite db_call_after.
  destruct (hd false _); [discriminate |]. cbn [fst]. intros [= <-].
  fold (active_rows w).
  pose proof (order_by_rand_Permutation (entropy (DB w)) (active_rows w)) as Hperm.
  split.
  - etransitivity; [apply sublist_submseteq, sublist_take |].
    now apply Permutation_submseteq.
  - rewrite length_take. f_equal. now apply Permutation_length.
Qed.

Lemma Query_Active_healthy (limit : nat) (w : World) :
  hd false (faults (DB w)) = false ->
  exists rows, fst (Query_Active limit w) = Some rows.
Proof.
  intros Hf. unfold Query_Active. rewrite db_call_after, Hf. eexists. reflexivity.
Qed.

Lemma scan_rows_sublist (rows : list Row) (w : World) :
  exists picked, fst (scan_rows rows w) = map scan_message picked /\ sublist picked rows.
Proof.
  revert w. induction rows as [|r rows IH]; intros w.
  - exists []. split; [reflexivity | constructor].
  - cbn [scan_rows]. rewrite db_call_after.
    destruct (IH (after_call RowsScan w)) as (picked & Hp & Hsub).
    destruct (scan_rows rows (after_call RowsScan w)) as [msgs w']. cbn [fst] in Hp.
    destruct (hd false _); cbn [fst].
    + exists picked. split; [exact Hp | now constructor].
    + exists (r :: picked). split; [now rewrite Hp | now constructor].
Qed.

Lemma scan_rows_healthy (rows : list Row) (w : World) :
  faults (DB w) = [] -> fst (scan_rows rows w) = map scan_message rows.
Proof.
  revert w. induction rows as [|r rows IH]; intros w Hw; [reflexivity |].
  cbn [scan_rows]. rewrite db_call_after, Hw. cbn [hd].
  specialize (IH (after_call RowsScan w)).
  rewrite after_call_faults, Hw in IH. specialize (IH eq_refl).
  destruct (scan_rows rows (after_call RowsScan w)) as [msgs w']. cbn [fst] in *.
  now rewrite IH.
Qed.

(** What [list_messages] returns when it returns a list. *)
Lemma list_messages_listed (w : World) (msgList : list Message) :
  body (fst (list_messages w)) = BodyMessages msgList ->
  exists picked, msgList = map scan_message picked /\
    picked ⊆+ active_rows w /\
    (length picked <= maxMessagesPerRequest)%nat.
Proof.
  unfold list_messages.
  pose proof (Query_Active_rows maxMessagesPerRequest w) as Hq.
  destruct (Query_Active maxMessagesPerRequest w) as [[rows|] w1]; [| discriminate].
  destruct (Hq rows eq_refl) as (Hsub & Hlen).
  destruct (scan_rows_sublist rows w1) as (picked & Hp & Hpsub).
  destruct (scan_rows rows w1) as [msgs w2]. cbn [fst] in Hp.
  rewrite db_call_after. destruct (hd false _); [discriminate |].
  cbn [fst body]. intros [= <-]. exists picked.
  split; [exact Hp |]. split.
  - etransitivity; [apply sublist_submseteq, Hpsub | exact Hsub].
  - apply sublist_length in Hpsub. lia.
Qed.

Lemma list_messages_healthy (w : World) :
  faults (DB w) = [] ->
  exists rows, fst (list_messages w) = mkResponse StatusOK (BodyMessages (map scan_message rows)) /\
    rows ⊆+ active_rows w /\
    length rows = Nat.min maxMessagesPerRequest (length (active_rows w)).
Proof.
  intros Hw. unfold list_messages.
  pose proof (Query_Active_rows maxMessagesPerRequest w) as Hq.
  destruct (Query_Active_healthy maxMessagesPerRequest w) as (rows & Hrows);
    [now rewrite Hw |].
  destruct (Query_Active_frame maxMessagesPerRequest w) as (_ & Hf1 & _).
  destruct (Query_Active maxMessagesPerRequest w) as [rows' w1]. cbn [fst snd] in *.
  subst rows'. rewrite Hw in Hf1. cbn in Hf1.
  pose proof (scan_rows_healthy rows w1 Hf1) as Hscan.
  destruct (scan_rows_frame rows w1) as (_ & Hf2 & _).
  destruct (scan_rows rows w1) as [msgs w2]. cbn [fst snd] in *.
  rewrite Hf1, drop_nil in Hf2.
  rewrite db_call_after, Hf2. cbn [hd fst]. exists rows. subst msgs.
  split; [reflexivity | exact (Hq rows eq_refl)].
Qed.

(** ** C5 *)

(** C5 as stated fails when the store reports an error: with fifteen
    active messages, a query that fails gives 500 and no list, and a row
    whose scan fails is left out of a list that is otherwise answered with
    200, which then has nine entries. *)
Lemma GetMessages_exactly_ten_counterexample :
  ~ (forall (url_Parse : string -> option URL) (r : Request) (w : World),
       list_authorized url_Parse r w ->
       (length (active_rows w) > maxMessagesPerRequest)%nat ->
       exists msgList,
         body (fst (GetMessages url_Parse r w)) = BodyMessages msgList /\
         length msgList = maxMessagesPerRequest) /\
  fst (GetMessages (fun _ => None) list_request fifteen_down) =
    mkResponse StatusInternalServerError (BodyError "Database error") /\
  (exists msgList,
     fst (GetMessages (fun _ => None) list_request fifteen_flaky) =
       mkResponse StatusOK (BodyMessages msgList) /\
     length msgList = 9%nat).
Proof.
  split; [| split; [reflexivity | eexists; split; reflexivity]].
  intros H.
  destruct (H (fun _ => None) list_request fifteen_down) as (msgList & Hbody & _).
  - unfold list_authorized. cbn. set_solver.
  - vm_compute. lia.
  - discriminate Hbody.
Qed.

Lemma active_rows_spec (w : World) (row : Row) :
  row ∈ active_rows w <-> row ∈ messages (DB w) /\ row_deleted_at row = None.
Proof.
  unfold active_rows. rewrite !list_elem_of_In, filter_In, <- !list_elem_of_In.
  unfold is_active. destruct (row_deleted_at row); intuition congruence.
Qed.

(** C5, amended.  For every list request that passes origin validation:
    a list that is returned holds only messages of the store whose
    [deleted_at] is absent, each row at most once, and never more than 10
    of them; and when the store reports no error during the request, a
    list is returned with status 200 and it has as many entries as there
    are active messages, up to 10, so exactly 10 when more than 10
    messages are active. *)
Theorem GetMessages_active_capped (url_Parse : string -> option URL)
    (r : Request) (w : World) :
  list_authorized url_Parse r w ->
  (forall msgList,
     body (fst (GetMessages url_Parse r w)) = BodyMessages msgList ->
     (forall m, m ∈ msgList ->
        exists row, row ∈ messages (DB w) /\ row_deleted_at row = None /\ m = scan_message row) /\
     (exists picked, msgList = map scan_message picked /\ picked ⊆+ active_rows w) /\
     (length msgList <= maxMessagesPerRequest)%nat) /\
  (faults (DB w) = [] ->
     exists msgList,
       fst (GetMessages url_Parse r w) = mkResponse StatusOK (BodyMessages msgList) /\
       length msgList = Nat.min maxMessagesPerRequest (length (active_rows w)) /\
       ((length (active_rows w) > maxMessagesPerRequest)%nat ->
          length msgList = maxMessagesPerRequest)).
Proof.
  intros Hauth.
  rewrite (GetMessages_authorized url_Parse r w Hauth). split.
  - intros msgList Hbody.
    destruct (list_messages_listed w msgList Hbody) as (picked & -> & Hsub & Hlen).
    split; [| split].
    + intros m Hin. apply list_elem_of_fmap in Hin as (row & -> & Hrow).
      exists row. pose proof (elem_of_submseteq _ _ _ Hrow Hsub) as Hact.
      apply active_rows_spec in Hact. tauto.
    + now exists picked.
    + now rewrite length_map.
  - intros Hw. destruct (list_messages_healthy w Hw) as (rows & Heq & _ & Hlen).
    exists (map scan_message rows). rewrite length_map.
    split; [exact Heq |]. split; [exact Hlen |]. lia.
Qed.

Lemma GetMessages_active_capped_witness :
  list_authorized (fun _ => None) list_request fifteen_world /\
  length (active_rows fifteen_world) = 15%nat /\
  exists msgList,
    fst (GetMessages (fun _ => None) list_request fifteen_world) =
      mkResponse StatusOK (BodyMessages msgList) /\
    length msgList = 10%nat.
Proof.
  assert (Hauth : list_authorized (fun _ => None) list_request fifteen_world).
  { unfold list_authorized. simpl. left. }
  split; [exact Hauth |]. split; [reflexivity |].
  destruct (GetMessages_active_capped (fun _ => None) list_request fifteen_world Hauth)
    as (_ & Hten).
  destruct (Hten eq_refl) as (msgList & Heq & _ & Hlen).
  exists msgList. split; [exact Heq |]. apply Hlen. vm_compute. lia.
Defined.

(** * HandleWebSocket *)

Lemma HandleWebSocket_refused (r : Request) (w : World) :
  CheckOrigin (createUpgrader (AllowedOrigins w)) r = false ->
  HandleWebSocket r w = (None, w).
Proof.
  intros Hc. unfold HandleWebSocket, Upgrade. rewrite Hc.
  now destruct (handshake r).
Qed.

Lemma HandleWebSocket_accepted (r : Request) (w : World) :
  handshake r = true ->
  CheckOrigin (createUpgrader (AllowedOrigins w)) r = true ->
  let conn := fresh (dom (conns w)) in
  fst (HandleWebSocket r w) = Some conn /\
  conns w !! conn = None /\
  Clients (snd (HandleWebSocket r w)) = <[conn := true]> (Clients w) /\
  conns (snd (HandleWebSocket r w)) = <[conn := mkConnState 0 false]> (conns w) /\
  log (snd (HandleWebSocket r w)) = log w ++ [EUpgrade conn].
Proof.
  intros Hh Hc conn. unfold HandleWebSocket, Upgrade. rewrite Hh, Hc. cbn.
  repeat split. apply not_elem_of_dom. apply is_fresh.
Qed.

(** ** C6 *)

(** C6. A subscription attempt whose [Origin] is not, character for
    character, one of the configured origins is refused by the upgrade:
    the handler returns without a connection and leaves the world as it
    found it, so no connection object has been created, nothing has been
    added to [h.Clients] and the number of its members is what it was. *)
Theorem HandleWebSocket_refuses_unlisted_origin (r : Request) (w : World) :
  Header_Get (ReqHeader r) "Origin" ∉ AllowedOrigins w ->
  HandleWebSocket r w = (None, w) /\
  conns (snd (HandleWebSocket r w)) = conns w /\
  Clients (snd (HandleWebSocket r w)) = Clients w /\
  size (Clients (snd (HandleWebSocket r w))) = size (Clients w).
Proof.
  intros Hnot.
  assert (Hc : CheckOrigin (createUpgrader (AllowedOrigins w)) r = false).
  { apply not_true_iff_false. now rewrite CheckOrigin_spec. }
  rewrite (HandleWebSocket_refused r w Hc). auto.
Qed.

Lemma HandleWebSocket_refuses_unlisted_origin_witness :
  HandleWebSocket (handshake_from "http://localhost:808") sample_world = (None, sample_world) /\
  HandleWebSocket (handshake_from "http://localhost:8080.example.com") sample_world
    = (None, sample_world) /\
  HandleWebSocket (handshake_from "localhost:8080") sample_world = (None, sample_world) /\
  fst (HandleWebSocket (handshake_from "http://localhost:8080") sample_world) = Some 1%positive.
Proof.
  split; [| split; [| split; [| reflexivity]]].
  - apply (HandleWebSocket_refuses_unlisted_origin (handshake_from "http://localhost:808")
             sample_world).
    refine (bool_decide_unpack _ _). vm_compute. exact I.
  - apply (HandleWebSocket_refuses_unlisted_origin
             (handshake_from "http://localhost:8080.example.com") sample_world).
    refine (bool_decide_unpack _ _). vm_compute. exact I.
  - apply (HandleWebSocket_refuses_unlisted_origin (handshake_from "localhost:8080")
             sample_world).
    refine (bool_decide_unpack _ _). vm_compute. exact I.
Defined.

(** ** C10 *)

(** C10. A subscription attempt without an [Origin] header is checked as
    the empty origin.  It is refused, with the world left as it was,
    unless the empty string is one of the configured origins; when it is,
    a well-formed handshake is accepted and its connection registered. *)
Theorem HandleWebSocket_without_origin (r : Request) (w : World) :
  ReqHeader r !! "Origin" = None ->
  (CheckOrigin (createUpgrader (AllowedOrigins w)) r = true <-> "" ∈ AllowedOrigins w) /\
  ("" ∉ AllowedOrigins w -> HandleWebSocket r w = (None, w)) /\
  ("" ∈ AllowedOrigins w -> handshake r = true ->
     exists conn, fst (HandleWebSocket r w) = Some conn /\
       Clients (snd (HandleWebSocket r w)) !! conn = Some true).
Proof.
  intros Hnone.
  assert (Hget : Header_Get (ReqHeader r) "Origin" = "").
  { unfold Header_Get. now rewrite Hnone. }
  pose proof (CheckOrigin_spec (AllowedOrigins w) r) as Hspec. rewrite Hget in Hspec.
  split; [exact Hspec |]. split.
  - intros Hnot. apply HandleWebSocket_refused. apply not_true_iff_false. now rewrite Hspec.
  - intros Hin Hh. apply Hspec in Hin.
    destruct (HandleWebSocket_accepted r w Hh Hin) as (Hc & _ & Hcl & _).
    eexists. split; [exact Hc |]. rewrite Hcl. apply lookup_insert_eq.
Qed.

Lemma HandleWebSocket_without_origin_witness :
  ReqHeader handshake_without_origin !! "Origin" = None /\
  HandleWebSocket handshake_without_origin sample_world = (None, sample_world) /\
  exists conn, fst (HandleWebSocket handshake_without_origin lax_world) = Some conn.
Proof.
  split; [reflexivity |].
  destruct (HandleWebSocket_without_origin handshake_without_origin sample_world eq_refl)
    as (_ & Hrefuse & _).
  destruct (HandleWebSocket_without_origin handshake_without_origin lax_world eq_refl)
    as (_ & _ & Haccept).
  split.
  - apply Hrefuse. refine (bool_decide_unpack _ _). vm_compute. exact I.
  - destruct Haccept as (conn & Hconn & _);
      [refine (bool_decide_unpack _ _); vm_compute; exact I | reflexivity |].
    exists conn. exact Hconn.
Defined.

(** * HandleBroadcast *)

Lemma conn_ok_emit (e : Effect) (w : World) (c : Conn) :
  conn_ok (emit e w) c = conn_ok w c.
Proof. reflexivity. Qed.

Lemma conn_ok_Close (c c' : Conn) (w : World) :
  conn_ok w c = false -> conn_ok (Close c w) c' = conn_ok w c'.
Proof.
  intros Hbad. unfold conn_ok, Close in *. cbn [conns emit set_conns].
  destruct (decide (c' = c)) as [-> | Hne].
  - rewrite lookup_alter_eq. destruct (conns w !! c) as [st|]; [| reflexivity].
    cbn. destruct (closes st); [| reflexivity].
    cbn in Hbad. now rewrite Hbad.
  - now rewrite lookup_alter_ne.
Qed.

Lemma dispatch_teardown_spec (c : Conn) (w : World) :
  conn_ok w c = false ->
  let w' := teardown (dispatch_teardown c) w in
  Clients w' = delete c (Clients w) /\
  (forall c', conn_ok w' c' = conn_ok w c') /\
  log w' = log w ++ [EClose c].
Proof.
  intros Hbad. cbn. repeat split. intros c'. now apply (conn_ok_Close c c' w).
Qed.

Lemma broadcast_to_spec (event : DeleteEventMessage) (snapshot : list Conn) (w : World) :
  let w' := broadcast_to event snapshot w in
  (forall c, conn_ok w' c = conn_ok w c) /\
  (forall c, Clients w' !! c =
     if decide (c ∈ snapshot /\ conn_ok w c = false) then None else Clients w !! c) /\
  log w' = log w ++ flat_map (client_effects event w) snapshot.
Proof.
  revert w. induction snapshot as [|client rest IH]; intros w.
  { cbn. split; [reflexivity |]. split; [| now rewrite app_nil_r].
    intros c. rewrite decide_False; [reflexivity |]. intros [Hin _]. inversion Hin. }
  cbn [broadcast_to WriteJSON flat_map]. unfold client_effects at 1.
  destruct (conn_ok w client) eqn:Hok.
  - destruct (IH (emit (EWriteJSON client event true) w)) as (Hc & Hcl & Hlog).
    split; [exact Hc |]. split.
    + intros c. rewrite Hcl. cbn [Clients emit]. rewrite conn_ok_emit.
      destruct (decide (c ∈ rest /\ conn_ok w c = false)) as [[Hin Hbad] | Hno].
      * rewrite decide_True; [reflexivity |]. split; [now right | exact Hbad].
      * rewrite decide_False; [reflexivity |]. intros [Hin Hbad].
        apply elem_of_cons in Hin as [-> | Hin]; [congruence | tauto].
    + rewrite Hlog. cbn [log emit]. rewrite <- app_assoc. reflexivity.
  - set (w1 := emit (EWriteJSON client event false) w).
    destruct (dispatch_teardown_spec client w1 Hok) as (Hcl1 & Hc1 & Hlog1).
    destruct (IH (teardown (dispatch_teardown client) w1)) as (Hc & Hcl & Hlog).
    assert (Hfx : forall c, client_effects event (teardown (dispatch_teardown client) w1) c
                            = client_effects event w c).
    { intros c. unfold client_effects. now rewrite Hc1. }
    split; [intros c; now rewrite Hc, Hc1 |]. split.
    + intros c. rewrite Hcl, Hc1, Hcl1. subst w1. rewrite conn_ok_emit.
      cbn [Clients emit].
      destruct (decide (c ∈ rest /\ conn_ok w c = false)) as [[Hin Hbad] | Hno].
      * rewrite decide_True; [reflexivity |]. split; [now right | exact Hbad].
      * destruct (decide (c = client)) as [-> | Hne].
        -- rewrite decide_True by (split; [now left | exact Hok]). apply lookup_delete_eq.
        -- rewrite decide_False.
           ++ now apply lookup_delete_ne.
           ++ intros [Hin Hbad]. apply elem_of_cons in Hin as [? | Hin]; [contradiction | tauto].
    + rewrite Hlog, Hlog1. subst w1. cbn [log emit].
      rewrite (flat_map_ext _ _ Hfx). rewrite <- !app_assoc. reflexivity.
Qed.

Lemma clientsSnapshot_spec (w : World) (c : Conn) :
  c ∈ clientsSnapshot w <-> is_Some (Clients w !! c).
Proof.
  unfold clientsSnapshot. rewrite list_elem_of_fmap. split.
  - intros ([c' b] & -> & Hin). apply elem_of_map_to_list in Hin. now exists b.
  - intros [b Hb]. exists (c, b). split; [reflexivity | now apply elem_of_map_to_list].
Qed.

(** One turn of the dispatcher. *)
Lemma HandleBroadcast_turn_spec (w : World) (event : DeleteEventMessage)
    (rest : list DeleteEventMessage) :
  Broadcast w = event :: rest ->
  exists w', HandleBroadcast_turn w = Some w' /\
    Broadcast w' = rest /\
    (forall c, conn_ok w' c = conn_ok w c) /\
    (forall c, Clients w' !! c = if conn_ok w c then Clients w !! c else None) /\
    log w' = log w ++ ERecv event :: flat_map (client_effects event w) (clientsSnapshot w).
Proof.
  intros Hq. unfold HandleBroadcast_turn. rewrite Hq.
  set (w0 := emit (ERecv event) (set_Broadcast rest w)).
  eexists. split; [reflexivity |].
  destruct (broadcast_to_spec event (clientsSnapshot w0) w0) as (Hc & Hcl & Hlog).
  destruct (broadcast_to_frame event (clientsSnapshot w0) w0) as (_ & _ & Hb & _).
  split; [exact Hb |]. split; [exact Hc |]. split.
  - intros c. rewrite Hcl. subst w0. rewrite conn_ok_emit.
    change (conn_ok (set_Broadcast rest w) c) with (conn_ok w c).
    cbn [Clients emit set_Broadcast].
    destruct (conn_ok w c) eqn:Hok.
    + rewrite decide_False; [reflexivity |]. intros [_ ?]. discriminate.
    + destruct (decide _) as [_ | Hno]; [reflexivity |].
      destruct (Clients w !! c) as [b|] eqn:Hb'; [| reflexivity].
      exfalso. apply Hno. split; [| reflexivity].
      apply clientsSnapshot_spec. cbn [Clients emit set_Broadcast]. now exists b.
  - rewrite Hlog. subst w0. cbn [log emit set_Broadcast]. rewrite <- app_assoc. reflexivity.
Qed.

(** The loop works through the channel, and a client that stays in
    working order is written every event on it. *)
Lemma HandleBroadcast_drains (turns : nat) (w : World) :
  (length (Broadcast w) <= turns)%nat ->
  Broadcast (HandleBroadcast turns w) = [] /\
  exists l, log (HandleBroadcast turns w) = log w ++ l /\
    forall c event, is_Some (Clients w !! c) -> conn_ok w c = true ->
      event ∈ Broadcast w -> EWriteJSON c event true ∈ l.
Proof.
  revert w. induction turns as [|n IH]; intros w Hlen.
  { destruct (Broadcast w) eqn:Hq; [| cbn in Hlen; lia].
    cbn. split; [exact Hq |]. exists []. split; [now rewrite app_nil_r |].
    intros c event _ _ Hin. inversion Hin. }
  cbn [HandleBroadcast]. destruct (Broadcast w) as [|ev0 rest] eqn:Hq.
  { unfold HandleBroadcast_turn. rewrite Hq. split; [exact Hq |].
    exists []. split; [now rewrite app_nil_r |].
    intros c event _ _ Hin. inversion Hin. }
  destruct (HandleBroadcast_turn_spec w ev0 rest Hq) as (w' & -> & Hq' & Hc & Hcl & Hlog).
  destruct (IH w') as (Hempty & l' & Hl' & Hall); [rewrite Hq'; cbn in Hlen; lia |].
  split; [exact Hempty |].
  exists ((ERecv ev0 :: flat_map (client_effects ev0 w) (clientsSnapshot w)) ++ l').
  split; [rewrite Hl', Hlog, <- app_assoc; reflexivity |].
  intros c event Hreg Hok Hin. apply elem_of_app.
  apply elem_of_cons in Hin as [-> | Hin].
  - left. right. apply list_elem_of_In, in_flat_map. exists c.
    split; [now apply list_elem_of_In, clientsSnapshot_spec |].
    unfold client_effects. rewrite Hok. now left.
  - right. apply Hall; [now rewrite Hcl, Hok | now rewrite Hc | now rewrite Hq'].
Qed.

(** A connection that is closed fails the read its handler is waiting
    on, so the handler of a connection torn down by the dispatcher runs
    its own teardown as well. *)
Lemma HandleWebSocket_read_fails (c : Conn) (frame : Frame) (w : World) :
  conn_ok w c = false ->
  HandleWebSocket_read c frame w = Some (teardown (reader_teardown c) w) /\
  conn_ok (teardown (dispatch_teardown c) w) c = false.
Proof.
  intros Hbad. unfold HandleWebSocket_read, ReadJSON. rewrite Hbad. split; [reflexivity |].
  destruct (dispatch_teardown_spec c w Hbad) as (_ & Hc & _). now rewrite Hc.
Qed.

(** The two teardown paths, run side by side in any order, remove the
    connection from the registry as one removal does. *)
Lemma teardown_interleaved (c : Conn) (w : World) (schedule : list Teardown) :
  Interleave (dispatch_teardown c) (reader_teardown c) schedule ->
  Clients (teardown schedule w) = delete c (Clients w) /\
  conns (teardown schedule w) = conns (teardown (dispatch_teardown c ++ reader_teardown c) w).
Proof.
  unfold dispatch_teardown, reader_teardown. intros H.
  repeat match goal with
  | H : Interleave _ _ _ |- _ => inversion H; clear H; subst
  end; cbn; rewrite ?delete_delete_eq; split; reflexivity.
Qed.

(** A removal that comes second changes nothing. *)
Lemma TdDelete_idempotent (c : Conn) (w : World) :
  teardown [TdDelete c; TdDelete c] w = teardown [TdDelete c] w.
Proof. cbn. unfold set_Clients. cbn. now rewrite delete_delete_eq. Qed.

(** Each path also closes the connection, so a connection torn down by
    both has had [Close] called on it twice. *)
Lemma teardown_both_closes (c : Conn) (w : World) (st : ConnState) (schedule : list Teardown) :
  Interleave (dispatch_teardown c) (reader_teardown c) schedule ->
  conns w !! c = Some st ->
  closes <$> conns (teardown schedule w) !! c = Some (S (S (closes st))).
Proof.
  intros Hi Hc. destruct (teardown_interleaved c w schedule Hi) as (_ & ->).
  cbn. rewrite !lookup_alter_eq, Hc. reflexivity.
Qed.

(** ** C8 *)

(** C8. When the dispatcher takes an event from the channel, it writes
    it to every connection that is registered at that moment; the outcome
    of the write to one connection has no bearing on the others.  A
    connection whose write fails is closed and is no longer registered
    afterwards; one whose write succeeds stays registered.  The loop goes
    on: given as many turns as there are events waiting, it empties the
    channel, and a registered connection in working order is written every
    one of those events.  The removal made after a failed write and the
    removal made by the connection's own read loop can be run in either
    order, interleaved with the two closes in any way: the registry ends
    up without the connection and with its other members, its size one
    less than with the connection in it. *)
Theorem HandleBroadcast_isolates_failures (w : World) (event : DeleteEventMessage)
    (rest : list DeleteEventMessage) :
  Broadcast w = event :: rest ->
  (exists w' l, HandleBroadcast_turn w = Some w' /\
     Broadcast w' = rest /\
     log w' = log w ++ ERecv event :: l /\
     (forall c, is_Some (Clients w !! c) -> EWriteJSON c event (conn_ok w c) ∈ l) /\
     (forall c, is_Some (Clients w !! c) -> conn_ok w c = false ->
        Clients w' !! c = None /\ EClose c ∈ l) /\
     (forall c, conn_ok w c = true ->
        Clients w' !! c = Clients w !! c /\ conn_ok w' c = true)) /\
  (forall turns, (length (Broadcast w) <= turns)%nat ->
     Broadcast (HandleBroadcast turns w) = [] /\
     exists l, log (HandleBroadcast turns w) = log w ++ l /\
       forall c ev, is_Some (Clients w !! c) -> conn_ok w c = true -> ev ∈ Broadcast w ->
         EWriteJSON c ev true ∈ l) /\
  (forall c schedule,
     Interleave (dispatch_teardown c) (reader_teardown c) schedule ->
     Clients (teardown schedule w) = delete c (Clients w) /\
     (forall c', c' <> c -> Clients (teardown schedule w) !! c' = Clients w !! c') /\
     (is_Some (Clients w !! c) ->
        S (size (Clients (teardown schedule w))) = size (Clients w))).
Proof.
  intros Hq. split; [| split].
  - destruct (HandleBroadcast_turn_spec w event rest Hq) as (w' & Ht & Hq' & Hc & Hcl & Hlog).
    exists w', (flat_map (client_effects event w) (clientsSnapshot w)).
    split; [exact Ht |]. split; [exact Hq' |]. split; [exact Hlog |].
    assert (Hfx : forall c e, is_Some (Clients w !! c) -> e ∈ client_effects event w c ->
                              e ∈ flat_map (client_effects event w) (clientsSnapshot w)).
    { intros c e Hreg He. apply list_elem_of_In, in_flat_map. exists c.
      split; [now apply list_elem_of_In, clientsSnapshot_spec | now apply list_elem_of_In]. }
    split; [| split].
    + intros c Hreg. apply (Hfx c _ Hreg). now left.
    + intros c Hreg Hbad. split; [now rewrite Hcl, Hbad |].
      apply (Hfx c _ Hreg). unfold client_effects. rewrite Hbad. right. now left.
    + intros c Hok. split; [now rewrite Hcl, Hok | now rewrite Hc].
  - intros turns Hlen. exact (HandleBroadcast_drains turns w Hlen).
  - intros c schedule Hi. destruct (teardown_interleaved c w schedule Hi) as (Hcl & _).
    split; [exact Hcl |]. split.
    + intros c' Hne. rewrite Hcl. now apply lookup_delete_ne.
    + intros Hreg. rewrite Hcl, (map_size_delete_Some c (Clients w) Hreg).
      destruct (size (Clients w)) eqn:Hs; [| reflexivity].
      apply map_size_empty_inv in Hs. rewrite Hs, lookup_empty in Hreg.
      now destruct Hreg.
Qed.

Lemma HandleBroadcast_isolates_failures_witness :
  Broadcast two_clients = [delete_event "1" 150; delete_event "2" 160] /\
  conn_ok two_clients 1%positive = false /\
  conn_ok two_clients 2%positive = true /\
  (exists l, log (HandleBroadcast 2 two_clients) = log two_clients ++ l /\
     forall ev, ev ∈ Broadcast two_clients -> EWriteJSON 2%positive ev true ∈ l) /\
  Broadcast (HandleBroadcast 2 two_clients) = [].
Proof.
  destruct (HandleBroadcast_isolates_failures two_clients (delete_event "1" 150)
              [delete_event "2" 160] eq_refl) as (_ & Hloop & _).
  destruct (Hloop 2%nat) as (Hempty & l & Hlog & Hall); [simpl; lia |].
  split; [reflexivity |]. split; [reflexivity |]. split; [reflexivity |].
  split; [| exact Hempty].
  exists l. split; [exact Hlog |].
  intros ev Hin. apply Hall; [| reflexivity | exact Hin].
  exists true. reflexivity.
Defined.

(** * Deletes running side by side *)

(** ** C3 *)

(** C3 fails for two delete requests that overlap.  Both find the message
    active, both update it and both are answered with 204: [deleted_at],
    absent at first, is set to 205 by the request that updates first and
    then set again, to the earlier reading 200, by the other; two events
    with different timestamps are sent for the one message. *)
Lemma DeleteMessage_race :
  let before := sys_run (take 6 race_schedule) race_system in
  let after := sys_run race_schedule race_system in
  map row_deleted_at (messages (DB (world race_system))) = [None] /\
  map row_deleted_at (messages (DB (world before))) = [Some 205%Z] /\
  map row_deleted_at (messages (DB (world after))) = [Some 200%Z] /\
  deletes after = [("1", DelDone deleted_ok); ("1", DelDone deleted_ok)] /\
  Broadcast (world after) = [delete_event "1" 205; delete_event "1" 200] /\
  List.filter (fun e => match e with EStore (UpdateDeletedAt _ _) _ => true | _ => false end)
    (log (world after)) =
    [EStore (UpdateDeletedAt 205 "1") true; EStore (UpdateDeletedAt 200 "1") true].
Proof. vm_compute. repeat split. Qed.

(** ** Deletes one after the other

    What C3 asks for does hold as long as no two requests overlap. *)











(** ** A delete held up at a full channel

    The request waits with its update already in the store, and goes
    through as soon as the dispatcher has taken one event. *)
Lemma DeleteMessage_resumes (id : string) (now : Time) (w w' : World) :
  length (Broadcast w) = BroadcastCap ->
  HandleBroadcast_turn w = Some w' ->
  DeleteMessage_step id (DelSend now) w = None /\
  exists w'', DeleteMessage_step id (DelSend now) w' = Some (DelDone deleted_ok, w'') /\
    Broadcast w'' = tail (Broadcast w) ++ [delete_event id now].
Proof.
  intros Hfull Hturn.
  destruct (HandleBroadcast_turn_frame w w' Hturn) as (_ & _ & Hq).
  cbn [DeleteMessage_step]. split.
  - destruct decide as [Hlt | _]; [lia | reflexivity].
  - destruct decide as [_ | Hge].
    + eexists. split; [reflexivity |]. cbn. now rewrite Hq.
    + exfalso. apply Hge. rewrite Hq. unfold BroadcastCap in *.
      destruct (Broadcast w); cbn in *; lia.
Qed.

(** ** The update comes first, however the requests are interleaved *)

Lemma write_first_app (l l2 : list Effect) :
  write_first l ->
  (forall e ev, e ∈ l2 -> event_of e = Some ev -> recorded ev ∈ l) ->
  write_first (l ++ l2).
Proof.
  intros Hl Hnew n e ev Hn He.
  destruct (decide (n < length l)%nat) as [Hlt | Hge].
  - rewrite lookup_app_l in Hn by exact Hlt.
    destruct (Hl n e ev Hn He) as (m & Hm & Hrec).
    exists m. split; [exact Hm |]. rewrite lookup_app_l by lia. exact Hrec.
  - rewrite lookup_app_r in Hn by lia.
    apply list_elem_of_lookup_2 in Hn.
    destruct (proj1 (list_elem_of_lookup _ _) (Hnew e ev Hn He)) as (m & Hrec).
    pose proof (lookup_lt_Some _ _ _ Hrec) as Hm.
    exists m. split; [lia |]. rewrite lookup_app_l by exact Hm. exact Hrec.
Qed.

(** What one step of a delete request adds to the log and to the channel. *)
Lemma DeleteMessage_step_effects (id : string) (pc pc' : DeletePc) (w w' : World) :
  DeleteMessage_step id pc w = Some (pc', w') ->
  exists l, log w' = log w ++ l /\
    match pc' with
    | DelSend now =>
      l = [recorded (delete_event id now)] /\ Broadcast w' = Broadcast w
    | _ =>
      match pc with
      | DelSend now =>
        l = [ESend (delete_event id now); EWriteHeader StatusNoContent] /\
        Broadcast w' = Broadcast w ++ [delete_event id now]
      | _ => (forall e, e ∈ l -> event_of e = None) /\ Broadcast w' = Broadcast w
      end
    end.
Proof.
  assert (Hnone : forall l : list Effect, Forall (fun e => event_of e = None) l ->
                    forall e, e ∈ l -> event_of e = None).
  { intros l Hl e He. exact (proj1 (Forall_forall _ _) Hl e He). }
  destruct pc as [| | now | now | resp]; cbn [DeleteMessage_step].
  - unfold QueryRow_Exists. rewrite db_call_after.
    destruct (hd false (faults (DB w))) eqn:Hf.
    + intros [= <- <-]. eexists. cbn [respond snd emit log].
      rewrite after_call_log, <- app_assoc. split; [reflexivity |].
      split; [| apply after_call_frame]. apply Hnone. repeat constructor.
    + destruct (existsb _ _); intros [= <- <-]; eexists; cbn [respond snd emit log];
        rewrite after_call_log, <- ?app_assoc; (split; [reflexivity |]);
        (split; [| apply after_call_frame]); apply Hnone; repeat constructor.
  - intros [= <- <-]. exists []. rewrite app_nil_r. split; [reflexivity |].
    split; [| reflexivity]. intros e He. inversion He.
  - unfold Exec_Update. rewrite db_call_after.
    destruct (hd false (faults (DB w))) eqn:Hf; intros [= <- <-]; eexists;
      cbn [respond snd emit log set_DB]; rewrite after_call_log, Hf, <- ?app_assoc;
      (split; [reflexivity |]).
    + split; [| apply after_call_frame]. apply Hnone. repeat constructor.
    + split; [reflexivity | apply after_call_frame].
  - destruct decide; [| discriminate]. intros [= <- <-]. eexists.
    cbn [respond snd emit log set_Broadcast]. rewrite <- app_assoc.
    split; [reflexivity |]. split; reflexivity.
  - discriminate.
Qed.

Lemma in_order_step (s : System) (a : Action) : in_order s -> in_order (sys_step s a).
Proof.
  intros Hs. pose proof Hs as (Hlog & Hq & Hth). destruct a as [i | dt |]; cbn [sys_step].
  - destruct (deletes s !! i) as [[id pc]|] eqn:Hi; [| exact Hs].
    destruct (DeleteMessage_step id pc (world s)) as [[pc' w']|] eqn:Hstep; [| exact Hs].
    destruct (DeleteMessage_step_effects id pc pc' (world s) w' Hstep) as (l & Hl & Hcase).
    assert (Hgrow : forall e, e ∈ log (world s) -> e ∈ log w').
    { intros e He. rewrite Hl. apply elem_of_app. now left. }
    assert (Hothers : forall j id' now, j <> i ->
              <[i := (id, pc')]> (deletes s) !! j = Some (id', DelSend now) ->
              recorded (mkDeleteEventMessage "message_deleted" id' now) ∈ log w').
    { intros j id' now Hne Hj. rewrite list_lookup_insert_ne in Hj by congruence.
      apply Hgrow. exact (Hth j id' now Hj). }
    assert (Hself : forall id' now,
              <[i := (id, pc')]> (deletes s) !! i = Some (id', DelSend now) ->
              id' = id /\ pc' = DelSend now).
    { intros id' now Hj. rewrite list_lookup_insert_eq in Hj
        by (apply lookup_lt_Some in Hi; exact Hi).
      now injection Hj as <- <-. }
    unfold in_order. cbn [world deletes].
    assert (Hrest : forall id' now0,
              <[i := (id, pc')]> (deletes s) !! i = Some (id', DelSend now0) ->
              (forall t, pc' <> DelSend t) ->
              recorded (mkDeleteEventMessage "message_deleted" id' now0) ∈ log w').
    { intros id' now0 Hj Hpc. destruct (Hself id' now0 Hj) as (_ & Heq).
      now destruct (Hpc now0). }
    assert (Hquiet_case : (forall t, pc' <> DelSend t) ->
              (forall e, e ∈ l -> event_of e = None) /\ Broadcast w' = Broadcast (world s) ->
              in_order (mkSystem w' (<[i := (id, pc')]> (deletes s)))).
    { intros Hpc (Hquiet & Hb). unfold in_order. cbn [world deletes].
      split; [rewrite Hl; apply write_first_app; [exact Hlog |];
              intros e ev He Hev; rewrite (Hquiet e He) in Hev; discriminate |].
      split; [intros ev Hev; rewrite Hb in Hev; apply Hgrow; now apply Hq |].
      intros j id' now0 Hj. destruct (decide (j = i)) as [-> | Hne];
        [exact (Hrest id' now0 Hj Hpc) | exact (Hothers j id' now0 Hne Hj)]. }
    assert (Hsend_case : forall now, pc = DelSend now -> (forall t, pc' <> DelSend t) ->
              l = [ESend (delete_event id now); EWriteHeader StatusNoContent] /\
              Broadcast w' = Broadcast (world s) ++ [delete_event id now] ->
              in_order (mkSystem w' (<[i := (id, pc')]> (deletes s)))).
    { intros now -> Hpc (-> & Hb). pose proof (Hth i id now Hi) as Hrec.
      unfold in_order. cbn [world deletes]. split; [| split].
      - rewrite Hl. apply write_first_app; [exact Hlog |].
        intros e ev He Hev. apply elem_of_cons in He as [-> | He].
        + injection Hev as <-. exact Hrec.
        + apply list_elem_of_singleton in He. subst e. discriminate.
      - intros ev Hev. rewrite Hb in Hev. apply elem_of_app in Hev as [Hev | Hev].
        + apply Hgrow. now apply Hq.
        + apply list_elem_of_singleton in Hev. subst ev. apply Hgrow. exact Hrec.
      - intros j id' now0 Hj. destruct (decide (j = i)) as [-> | Hne];
          [exact (Hrest id' now0 Hj Hpc) | exact (Hothers j id' now0 Hne Hj)]. }
    destruct pc' as [| | now' | now' | resp'].
    1-3, 5: destruct pc as [| | now | now | resp];
      first [apply Hquiet_case; [discriminate | exact Hcase]
            | apply (Hsend_case now); [reflexivity | discriminate | exact Hcase]].
    unfold in_order. cbn [world deletes].
    destruct Hcase as (-> & Hb).
    split; [| split].
    + rewrite Hl. apply write_first_app; [exact Hlog |].
      intros e ev He Hev. apply list_elem_of_singleton in He. subst e. discriminate.
    + intros ev Hev. rewrite Hb in Hev. apply Hgrow. now apply Hq.
    + intros j id' now0 Hj. destruct (decide (j = i)) as [-> | Hne];
        [| exact (Hothers j id' now0 Hne Hj)].
      destruct (Hself id' now0 Hj) as (-> & [= ->]).
      rewrite Hl. apply elem_of_app. right. now left.
  - exact Hs.
  - destruct (Broadcast (world s)) as [|event rest] eqn:Hb.
    { unfold HandleBroadcast_turn. rewrite Hb. exact Hs. }
    destruct (HandleBroadcast_turn_spec (world s) event rest Hb)
      as (w' & -> & Hb' & _ & _ & Hl).
    assert (Hrec : recorded event ∈ log (world s)) by (apply Hq; now left).
    assert (Hgrow : forall e, e ∈ log (world s) -> e ∈ log w').
    { intros e He. rewrite Hl. apply elem_of_app. now left. }
    unfold in_order. cbn [world deletes]. split; [| split].
    + rewrite Hl. apply write_first_app; [exact Hlog |].
      intros e ev He Hev. apply elem_of_cons in He as [-> | He].
      * injection Hev as <-. exact Hrec.
      * apply list_elem_of_In, in_flat_map in He as (c & _ & He).
        unfold client_effects in He. destruct He as [<- | He].
        -- injection Hev as <-. exact Hrec.
        -- destruct (conn_ok (world s) c); [destruct He |].
           destruct He as [<- | []]. discriminate.
    + intros ev Hev. rewrite Hb' in Hev. apply Hgrow, Hq. now right.
    + intros i id now Hi. apply Hgrow. exact (Hth i id now Hi).
Qed.

Lemma in_order_run (schedule : list Action) (s : System) :
  in_order s -> in_order (sys_run schedule s).
Proof.
  unfold sys_run. revert s. induction schedule as [|a schedule IH]; intros s Hs; [exact Hs |].
  cbn [foldl]. apply IH, in_order_step, Hs.
Qed.

(** ** C2 *)

(** A delete is answered with 204 only along one path. *)
Lemma DeleteMessage_success_inv (id : string) (w : World) (resp : Response) :
  fst (DeleteMessage id w) = DelDone resp ->
  status resp = StatusNoContent ->
  hd false (faults (DB w)) = false /\
  ~ no_active id w /\
  hd false (tail (faults (DB w))) = false /\
  (length (Broadcast w) < BroadcastCap)%nat.
Proof.
  intros Hd Hs.
  destruct (hd false (faults (DB w))) eqn:Hf.
  { rewrite (DeleteMessage_query_fails id w Hf) in Hd. injection Hd as <-. discriminate. }
  destruct (no_active_dec id w) as [Hno | Hact].
  { rewrite (DeleteMessage_absent id w Hf Hno) in Hd. injection Hd as <-. discriminate. }
  destruct (hd false (tail (faults (DB w)))) eqn:Hf2.
  { rewrite (DeleteMessage_update_fails id w Hf Hact Hf2) in Hd. injection Hd as <-.
    discriminate. }
  destruct (decide (length (Broadcast w) < BroadcastCap)%nat) as [Hroom | Hfull]; [auto |].
  rewrite (DeleteMessage_held_up id w Hf Hact Hf2 Hfull) in Hd. discriminate.
Qed.

Lemma no_active_frame (id : string) (w w' : World) :
  messages (DB w') = messages (DB w) -> engine (DB w') = engine (DB w) ->
  no_active id w -> no_active id w'.
Proof. unfold no_active. intros -> ->. auto. Qed.

Lemma no_active_soft_delete (id id' : string) (now : Time) (w w' : World) :
  messages (DB w') = map (soft_delete (engine (DB w)) now id') (messages (DB w)) ->
  engine (DB w') = engine (DB w) ->
  (no_active id w -> no_active id w') /\ no_active id' w'.
Proof.
  unfold no_active. intros -> ->. split.
  - intros Hno r Hin Hid. apply list_elem_of_fmap in Hin as (r1 & -> & Hin).
    rewrite soft_delete_id in Hid. apply soft_delete_inactive. now apply Hno.
  - intros r Hin Hid. apply list_elem_of_fmap in Hin as (r1 & -> & Hin).
    rewrite soft_delete_id in Hid. unfold is_active.
    now rewrite (soft_delete_hit _ _ _ _ Hid).
Qed.

(** A deletion that was recorded shows in the table from then on,
    whatever the delete requests that are in flight do. *)
Lemma DeleteMessage_step_shows (id : string) (pc pc' : DeletePc) (w w' : World) :
  DeleteMessage_step id pc w = Some (pc', w') ->
  deletions_show w -> deletions_show w'.
Proof.
  assert (Hkeep : forall w' l,
            messages (DB w') = messages (DB w) -> engine (DB w') = engine (DB w) ->
            log w' = log w ++ l ->
            (forall now id', EStore (UpdateDeletedAt now id') true ∉ l) ->
            deletions_show w -> deletions_show w').
  { intros w0 l Hm He Hl Hnew Hshow now id' Hin. rewrite Hl in Hin.
    apply elem_of_app in Hin as [Hin | Hin]; [| now apply Hnew in Hin].
    exact (no_active_frame id' w w0 Hm He (Hshow now id' Hin)). }
  destruct pc as [| | now | now | resp]; cbn [DeleteMessage_step].
  - unfold QueryRow_Exists. rewrite db_call_after.
    destruct (hd false (faults (DB w))); [| destruct (existsb _ _)];
      intros [= <- <-]; cbn [respond snd];
      (eapply Hkeep;
       [cbn; apply after_call_messages | cbn; apply after_call_engine
       | cbn [emit log]; rewrite after_call_log, <- ?app_assoc; reflexivity
       | intros now id' Hin; repeat (apply elem_of_cons in Hin as [Hin | Hin];
           [discriminate |]); inversion Hin]).
  - now intros [= <- <-].
  - unfold Exec_Update. rewrite db_call_after.
    destruct (hd false (faults (DB w))) eqn:Hf; intros [= <- <-]; cbn [respond snd].
    + eapply Hkeep;
       [cbn; apply after_call_messages | cbn; apply after_call_engine
       | cbn [emit log]; rewrite after_call_log, Hf, <- ?app_assoc; reflexivity
       | intros now' id' Hin; repeat (apply elem_of_cons in Hin as [Hin | Hin];
           [discriminate |]); inversion Hin].
    + match goal with |- _ -> deletions_show ?w1 => set (w0 := w1) end.
      assert (Hsd : messages (DB w0) =
                      map (soft_delete (engine (DB w)) now id) (messages (DB w)) /\
                    engine (DB w0) = engine (DB w) /\
                    log w0 = log w ++ [EStore (UpdateDeletedAt now id) true]).
      { subst w0. cbn [set_DB set_messages DB messages engine log].
        split; [reflexivity | split; [reflexivity | now rewrite after_call_log, Hf]]. }
      destruct Hsd as (Hm & He & Hl). intros Hshow now' id' Hin.
      destruct (no_active_soft_delete id' id now w w0 Hm He) as (Hold & Hnew).
      rewrite Hl in Hin.
      apply elem_of_app in Hin as [Hin | Hin]; [exact (Hold (Hshow now' id' Hin)) |].
      apply list_elem_of_singleton in Hin. injection Hin as -> ->. exact Hnew.
  - destruct decide; [| discriminate]. intros [= <- <-]. cbn [respond snd].
    eapply Hkeep; [reflexivity | reflexivity
      | cbn [emit log set_Broadcast]; rewrite <- app_assoc; reflexivity
      | intros now' id' Hin; repeat (apply elem_of_cons in Hin as [Hin | Hin];
           [discriminate |]); inversion Hin].
  - discriminate.
Qed.

Lemma sys_step_shows (s : System) (a : Action) :
  deletions_show (world s) -> deletions_show (world (sys_step s a)).
Proof.
  intros Hs. destruct a as [i | dt |]; cbn [sys_step].
  - destruct (deletes s !! i) as [[id pc]|]; [| exact Hs].
    destruct (DeleteMessage_step id pc (world s)) as [[pc' w']|] eqn:Hstep; [| exact Hs].
    exact (DeleteMessage_step_shows _ _ _ _ _ Hstep Hs).
  - exact Hs.
  - destruct (Broadcast (world s)) as [|event rest] eqn:Hb.
    { unfold HandleBroadcast_turn. rewrite Hb. exact Hs. }
    destruct (HandleBroadcast_turn_spec (world s) event rest Hb)
      as (w' & Hturn & _ & _ & _ & Hl).
    rewrite Hturn. cbn [world].
    destruct (HandleBroadcast_turn_frame _ _ Hturn) as (Hdb & _).
    intros now id Hin. rewrite Hl in Hin.
    apply (no_active_frame id (world s) w'); [now rewrite Hdb | now rewrite Hdb |].
    apply elem_of_app in Hin as [Hin | Hin]; [exact (Hs now id Hin) |].
    exfalso. apply elem_of_cons in Hin as [Hin | Hin]; [discriminate |].
    apply list_elem_of_In, in_flat_map in Hin as (c & _ & Hin).
    unfold client_effects in Hin. destruct Hin as [Hin | Hin]; [discriminate |].
    destruct (conn_ok (world s) c); [destruct Hin |].
    destruct Hin as [Hin | []]. discriminate.
Qed.

Lemma sys_run_shows (schedule : list Action) (s : System) :
  deletions_show (world s) -> deletions_show (world (sys_run schedule s)).
Proof.
  unfold sys_run. revert s. induction schedule as [|a schedule IH]; intros s Hs; [exact Hs |].
  cbn [foldl]. apply IH. now apply sys_step_shows.
Qed.

(** C2 as stated fails in two places.  The store does not hold the
    timestamp of the event but what its [DATETIME] column keeps of it: a
    delete at 200.7 s announces 200.7 s and the row says 201 s.  And the
    event carries the identifier of the request, which need not be the
    identifier of the message that was deleted: where ["01"] is read as 1,
    the delete of ["01"] deletes message 1 and announces ["01"]. *)
Lemma DeleteMessage_same_timestamp_counterexample :
  ~ (forall (id : string) (w : World) (ev : DeleteEventMessage) (r : Row),
       fst (DeleteMessage id w) = DelDone deleted_ok ->
       last (Broadcast (snd (DeleteMessage id w))) = Some ev ->
       r ∈ messages (DB (snd (DeleteMessage id w))) -> r ∉ messages (DB w) ->
       row_deleted_at r = Some (EventDeletedAt ev)) /\
  ~ (forall (id : string) (w : World) (ev : DeleteEventMessage) (r : Row),
       fst (DeleteMessage id w) = DelDone deleted_ok ->
       last (Broadcast (snd (DeleteMessage id w))) = Some ev ->
       r ∈ messages (DB (snd (DeleteMessage id w))) -> r ∉ messages (DB w) ->
       EventID ev = Sprintf_d (row_id r)).
Proof.
  split; intros H.
  - specialize (H "1" rounding_world (delete_event "1" 200700)
                  (mkRow 1 "first" 100000 (Some 201000%Z)) eq_refl eq_refl).
    assert (Hin : mkRow 1 "first" 100000 (Some 201000%Z)
                    ∈ messages (DB (snd (DeleteMessage "1" rounding_world)))) by left.
    assert (Hout : mkRow 1 "first" 100000 (Some 201000%Z) ∉ messages (DB rounding_world)).
    { refine (bool_decide_unpack _ _). vm_compute. exact I. }
    specialize (H Hin Hout). discriminate H.
  - specialize (H "01" rounding_world (delete_event "01" 200700)
                  (mkRow 1 "first" 100000 (Some 201000%Z)) eq_refl eq_refl).
    assert (Hin : mkRow 1 "first" 100000 (Some 201000%Z)
                    ∈ messages (DB (snd (DeleteMessage "01" rounding_world)))) by left.
    assert (Hout : mkRow 1 "first" 100000 (Some 201000%Z) ∉ messages (DB rounding_world)).
    { refine (bool_decide_unpack _ _). vm_compute. exact I. }
    specialize (H Hin Hout). discriminate H.
Qed.

(** C2, amended.  For every delete that is answered with 204: the
    effects of the request are, in this order, the existence query, the
    update that is passed the handler's reading of the clock, the send of
    the event, and the response; the event is the newest one on the
    channel, is tagged "message_deleted" and carries the identifier of
    the request and that reading of the clock; the rows that the
    identifier names now have as [deleted_at] what the [DATETIME] column
    keeps of the event's timestamp, which is that timestamp where the
    column keeps it whole; for an identifier in decimal form these rows
    are the rows with that key; and the store already holds the deletion
    in the state from which the send is made, when the channel is still
    as it was.  The order does not depend on the request running alone:
    however any number of delete requests, the dispatcher and the clock
    are interleaved, every send of an event, and every receipt and every
    write of it by the dispatcher, comes after the successful update with
    the identifier and the timestamp of that event, and at the end the
    rows that the event's identifier names are soft-deleted. *)
Theorem DeleteMessage_write_before_event (id : string) (w : World) :
  (forall resp : Response,
     fst (DeleteMessage id w) = DelDone resp ->
     status resp = StatusNoContent ->
     let now := clock w in
     let e := engine (DB w) in
     let ev := delete_event id now in
     let w' := snd (DeleteMessage id w) in
     log w' = log w ++ [EStore (SelectExistsActive id) true;
                        EStore (UpdateDeletedAt now id) true;
                        ESend ev;
                        EWriteHeader StatusNoContent] /\
     Broadcast w' = Broadcast w ++ [ev] /\
     EventType ev = "message_deleted" /\
     EventID ev = id /\
     EventDeletedAt ev = now /\
     (exists r, r ∈ messages (DB w') /\ id_is e id r = true) /\
     (forall r, r ∈ messages (DB w') -> id_is e id r = true ->
        row_deleted_at r = Some (DATETIME e (EventDeletedAt ev)) /\
        (DATETIME e now = now -> row_deleted_at r = Some (EventDeletedAt ev))) /\
     (forall k r, id = Sprintf_d k -> r ∈ messages (DB w') ->
        (id_is e id r = true <-> row_id r = k)) /\
     exists w1,
       DeleteMessage_run 3 id DelCheck w = (DelSend now, w1) /\
       messages (DB w1) = messages (DB w') /\
       Broadcast w1 = Broadcast w /\
       DeleteMessage_step id (DelSend now) w1 = Some (DelDone resp, w')) /\
  (forall (requests : list string) (schedule : list Action),
     write_first (log w) ->
     (forall ev, ev ∈ Broadcast w -> recorded ev ∈ log w) ->
     let w' := world (sys_run schedule
                        (mkSystem w (map (fun id' => (id', DelCheck)) requests))) in
     write_first (log w') /\
     (deletions_show w ->
      forall n e ev, log w' !! n = Some e -> event_of e = Some ev ->
        no_active (EventID ev) w')).
Proof.
  split.
  2:{ intros requests schedule Hlog Hq w'.
      assert (Hwf : write_first (log w')).
      { apply in_order_run.
        split; [exact Hlog |]. split; [exact Hq |].
        cbn [deletes]. intros i id' now Hi.
        apply list_lookup_fmap_Some in Hi as (x & Hx & _). discriminate. }
      split; [exact Hwf |]. intros Hshow n e ev Hn Hev.
      destruct (Hwf n e ev Hn Hev) as (m & _ & Hm).
      apply list_elem_of_lookup_2 in Hm.
      exact (sys_run_shows schedule
               (mkSystem w (map (fun id' => (id', DelCheck)) requests)) Hshow _ _ Hm). }
  intros resp Hd Hs now e ev w'.
  destruct (DeleteMessage_success_inv id w resp Hd Hs) as (Hf & Hact & Hf2 & Hroom).
  pose proof (DeleteMessage_succeeds id w Hf Hact Hf2 Hroom) as Heq.
  destruct (updated_frame id w) as (Hm & _ & Hb & _ & _ & Hlog).
  assert (Hresp : resp = deleted_ok).
  { rewrite Heq in Hd. now injection Hd. }
  assert (Hm' : messages (DB w') = map (soft_delete e now id) (messages (DB w))).
  { subst w'. rewrite Heq. exact Hm. }
  split; [| split; [| split; [| split; [| split; [| split; [| split; [| split]]]]]]].
  - subst w'. rewrite Heq. cbn [done respond fst snd emit log set_Broadcast].
    rewrite Hlog, Hf, Hf2. cbn [negb]. rewrite <- !app_assoc. reflexivity.
  - subst w'. rewrite Heq. reflexivity.
  - reflexivity.
  - reflexivity.
  - reflexivity.
  - destruct (active_row_of id w Hact) as (r0 & Hin0 & Hid0 & _).
    exists (soft_delete e now id r0). rewrite Hm'.
    split; [now apply list_elem_of_fmap_2 | now rewrite soft_delete_id].
  - intros r Hin Hid. rewrite Hm' in Hin.
    apply list_elem_of_fmap in Hin as (r1 & -> & _).
    rewrite soft_delete_id in Hid.
    rewrite (soft_delete_hit _ _ _ _ Hid). split; [reflexivity |].
    intros ->. reflexivity.
  - intros k r -> _. rewrite id_is_Sprintf_d. apply Z.eqb_eq.
  - exists (updated id w).
    split; [exact (DeleteMessage_run_to_send id w Hf Hact Hf2) |].
    split; [now rewrite Hm', Hm |].
    split; [exact Hb |].
    cbn [DeleteMessage_step]. rewrite Hb.
    destruct decide; [| contradiction].
    subst w'. rewrite Heq, Hresp. reflexivity.
Qed.

Lemma DeleteMessage_write_before_event_witness :
  fst (DeleteMessage "1" sample_world) = DelDone deleted_ok /\
  log (snd (DeleteMessage "1" sample_world)) =
    [EStore (SelectExistsActive "1") true;
     EStore (UpdateDeletedAt 200 "1") true;
     ESend (mkDeleteEventMessage "message_deleted" "1" 200);
     EWriteHeader StatusNoContent] /\
  Broadcast (snd (DeleteMessage "1" sample_world)) =
    [mkDeleteEventMessage "message_deleted" "1" 200] /\
  Broadcast (snd (DeleteMessage "01" rounding_world)) =
    [mkDeleteEventMessage "message_deleted" "01" 200700] /\
  Forall (fun r => row_deleted_at r = Some 201000%Z)
    (messages (DB (snd (DeleteMessage "01" rounding_world)))).
Proof.
  split; [reflexivity |].
  destruct (DeleteMessage_write_before_event "1" sample_world) as (Hseq & _).
  destruct (Hseq deleted_ok eq_refl eq_refl) as (Hlog & Hq & _).
  destruct (DeleteMessage_write_before_event "01" rounding_world) as (Hseq' & _).
  destruct (Hseq' deleted_ok eq_refl eq_refl) as (_ & Hq' & _ & _ & _ & _ & Hrows & _).
  split; [exact Hlog |]. split; [exact Hq |]. split; [exact Hq' |].
  apply Forall_forall. intros r Hin.
  destruct (Hrows r Hin) as (Hr & _); [| exact Hr].
  cbn in Hin. apply list_elem_of_singleton in Hin. subst r. reflexivity.
Defined.

(** * Further properties of the handlers *)

(** ** CreateMessage: what reaches the store *)

(** A well-formed create goes one of four ways, by what the store says. *)
Lemma CreateMessage_cases (r : Request) (w : World) (msg : Message) :
  Decode (MaxBytesReader (2 ^ 20) (Body r)) = Some msg ->
  Content msg <> "" ->
  let k := AUTO_INCREMENT (DB w) in
  let row := mkRow k (Content msg) (DATETIME (engine (DB w)) (clock w)) None in
  let taken := existsb (fun r0 => (row_id r0 =? k)%Z) (messages (DB w)) in
  let resp := fst (CreateMessage r w) in
  let w' := snd (CreateMessage r w) in
  (Broadcast w' = Broadcast w /\ Clients w' = Clients w /\ conns w' = conns w /\
   clock w' = clock w /\ AllowedOrigins w' = AllowedOrigins w) /\
  (hd false (faults (DB w)) || taken = true ->
     resp = mkResponse StatusInternalServerError (BodyError "Failed to create message") /\
     messages (DB w') = messages (DB w) /\
     AUTO_INCREMENT (DB w') = (k + Z.of_nat (hd 0%nat (gaps (DB w))))%Z /\
     faults (DB w') = tail (faults (DB w))) /\
  (hd false (faults (DB w)) || taken = false ->
     messages (DB w') = messages (DB w) ++ [row] /\
     AUTO_INCREMENT (DB w') = (k + 1)%Z /\
     faults (DB w') = tail (tail (faults (DB w))) /\
     resp =
       if hd false (tail (faults (DB w)))
       then mkResponse StatusInternalServerError (BodyError "Failed to retrieve message id")
       else mkResponse StatusCreated
              (BodyMessage (mkMessage (Sprintf_d k) (Content msg) (clock w) None))).
Proof.
  intros Hd Hc k row taken resp w'. subst resp w'. unfold CreateMessage. rewrite Hd.
  destruct (String.eqb (Content msg) "") eqn:E; [apply eqb_empty in E; contradiction |].
  unfold Exec_Insert, Result_LastInsertId. rewrite db_call_spec.
  cbn [Content CreatedAt DeletedAt].
  destruct (hd false (faults (DB w))) eqn:Hf; cbn [orb].
  { cbn. repeat split; intros; try discriminate; auto. }
  cbn [emit set_DB DB set_faults AUTO_INCREMENT messages]. fold k. fold taken.
  destruct taken eqn:Ht.
  { cbn. repeat split; intros; try discriminate; auto. }
  rewrite db_call_spec. cbn [emit set_DB DB set_faults faults].
  destruct (hd false (tail (faults (DB w)))) eqn:Hf2; cbn;
    (split; [tauto |]); (split; [discriminate |]); intros _; repeat split; reflexivity.
Qed.

Lemma Decode_well_formed (r : Request) (w : World) :
  ~ well_formed_create r -> status (fst (CreateMessage r w)) = StatusBadRequest.
Proof.
  intros Hno. apply CreateMessage_rejected.
  destruct (Decode (MaxBytesReader (2 ^ 20) (Body r))) as [msg|] eqn:Hd; [| now left].
  right. exists msg. split; [reflexivity |].
  destruct (decide (Content msg = "")) as [Hc | Hc]; [exact Hc |].
  exfalso. apply Hno. now exists msg.
Qed.

Lemma well_formed_create_dec (r : Request) : well_formed_create r \/ ~ well_formed_create r.
Proof.
  unfold well_formed_create.
  destruct (Decode (MaxBytesReader (2 ^ 20) (Body r))) as [msg|].
  - destruct (decide (Content msg = "")) as [Hc | Hc].
    + right. intros (m & [= <-] & Hm). contradiction.
    + left. now exists msg.
  - right. intros (m & Hm & _). discriminate.
Qed.

(** A create is answered with 201 only when the request is well formed,
    the key is free and neither store call fails. *)
Lemma CreateMessage_created_inv (r : Request) (w : World) :
  status (fst (CreateMessage r w)) = StatusCreated ->
  exists msg,
    Decode (MaxBytesReader (2 ^ 20) (Body r)) = Some msg /\ Content msg <> "" /\
    hd false (faults (DB w)) = false /\
    existsb (fun r0 => (row_id r0 =? AUTO_INCREMENT (DB w))%Z) (messages (DB w)) = false /\
    hd false (tail (faults (DB w))) = false.
Proof.
  intros Hs. destruct (well_formed_create_dec r) as [(msg & Hd & Hc) | Hno].
  2:{ rewrite (Decode_well_formed r w Hno) in Hs. discriminate. }
  exists msg. split; [exact Hd |]. split; [exact Hc |].
  destruct (CreateMessage_cases r w msg Hd Hc) as (_ & Hfail & Hins).
  destruct (hd false (faults (DB w)) ||
            existsb (fun r0 => (row_id r0 =? AUTO_INCREMENT (DB w))%Z) (messages (DB w)))
    eqn:Hor.
  { destruct (Hfail eq_refl) as (Hr & _). rewrite Hr in Hs. discriminate. }
  apply orb_false_iff in Hor as [Hf Ht]. split; [exact Hf |]. split; [exact Ht |].
  destruct (Hins eq_refl) as (_ & _ & _ & Hr). rewrite Hr in Hs.
  destruct (hd false (tail (faults (DB w)))); [discriminate | reflexivity].
Qed.

Lemma filter_id_is_fresh (e : Engine) (k : Z) (rows : list Row) :
  existsb (fun r0 => (row_id r0 =? k)%Z) rows = false ->
  List.filter (id_is e (Sprintf_d k)) rows = [].
Proof.
  induction rows as [|r0 rows IH]; [reflexivity |].
  cbn [existsb List.filter]. intros H. apply orb_false_iff in H as [Hk Hrest].
  rewrite (IH Hrest), id_is_Sprintf_d, Hk. reflexivity.
Qed.

(** X1. The identifier returned by a successful create finds the
    created message and nothing else: the rows of the store that it names
    are exactly the one new row, active, with the content of the response
    and, as [created_at], what the [DATETIME] column keeps of the creation
    time of the response. *)
Theorem CreateMessage_then_lookup (r : Request) (w : World) :
  status (fst (CreateMessage r w)) = StatusCreated ->
  exists msg k,
    body (fst (CreateMessage r w)) = BodyMessage msg /\
    ID msg = Sprintf_d k /\
    List.filter (id_is (engine (DB w)) (ID msg)) (messages (DB (snd (CreateMessage r w)))) =
      [mkRow k (Content msg) (DATETIME (engine (DB w)) (CreatedAt msg)) None].
Proof.
  intros Hs. destruct (CreateMessage_created_inv r w Hs) as (msg & Hd & Hc & Hf & Ht & Hf2).
  destruct (CreateMessage_cases r w msg Hd Hc) as (_ & _ & Hins).
  destruct Hins as (Hm & _ & _ & Hr); [now rewrite Hf, Ht |].
  rewrite Hf2 in Hr.
  exists (mkMessage (Sprintf_d (AUTO_INCREMENT (DB w))) (Content msg) (clock w) None),
         (AUTO_INCREMENT (DB w)).
  split; [now rewrite Hr |]. split; [reflexivity |].
  cbn [ID Content CreatedAt].
  rewrite Hm, List.filter_app, (filter_id_is_fresh _ _ _ Ht).
  cbn [List.filter app]. rewrite id_is_Sprintf_d. cbn [row_id].
  now rewrite Z.eqb_refl.
Qed.

Lemma CreateMessage_then_lookup_witness :
  status (fst (CreateMessage forged_create rounding_world)) = StatusCreated /\
  List.filter (id_is millisecond_engine "2")
    (messages (DB (snd (CreateMessage forged_create rounding_world)))) =
    [mkRow 2 "hi" 201000 None].
Proof.
  split; [reflexivity |].
  destruct (CreateMessage_then_lookup forged_create rounding_world eq_refl)
    as (msg & k & Hb & Hid & Hrows).
  injection Hb as <-. apply (Sprintf_d_inj 2 k) in Hid. subst k. exact Hrows.
Defined.

(** A row that has just been added is listed, as long as a response can
    hold every active row. *)
Lemma new_row_listed (url_Parse : string -> option URL) (rl : Request) (w w' : World)
    (row : Row) :
  messages (DB w') = messages (DB w) ++ [row] ->
  is_active row = true ->
  list_authorized url_Parse rl w' ->
  faults (DB w') = [] ->
  (length (active_rows w) < maxMessagesPerRequest)%nat ->
  exists msgList,
    fst (GetMessages url_Parse rl w') = mkResponse StatusOK (BodyMessages msgList) /\
    scan_message row ∈ msgList.
Proof.
  intros Hm Hrow Hauth Hw' Hfew.
  rewrite (GetMessages_authorized url_Parse rl w' Hauth).
  destruct (list_messages_healthy w' Hw') as (rows & -> & Hsub & Hlen).
  eexists. split; [reflexivity |].
  assert (Hact : active_rows w' = active_rows w ++ [row]).
  { unfold active_rows. rewrite Hm, List.filter_app. cbn. now rewrite Hrow. }
  assert (Hperm : rows ≡ₚ active_rows w').
  { apply submseteq_length_Permutation; [exact Hsub |].
    rewrite Hlen, Hact, length_app. cbn [length].
    unfold maxMessagesPerRequest in *. lia. }
  apply list_elem_of_fmap_2. rewrite Hperm, Hact. apply elem_of_app. right. left.
Qed.

(** X2. A well-formed create is answered 201 or 500.  When the store
    reports an error on the INSERT the handler answers "Failed to create
    message" and makes no further call on the store.  When the INSERT has
    gone through and [LastInsertId] fails, the handler answers "Failed to
    retrieve message id" and leaves it at that: the row it has inserted
    stays in the table, and the next list response shows a message that
    no create response has announced. *)
Theorem CreateMessage_store_failure (url_Parse : string -> option URL)
    (r rl : Request) (w : World) :
  well_formed_create r ->
  let resp := fst (CreateMessage r w) in
  let w' := snd (CreateMessage r w) in
  let k := AUTO_INCREMENT (DB w) in
  let e := engine (DB w) in
  (status resp = StatusCreated \/ status resp = StatusInternalServerError) /\
  (hd false (faults (DB w)) = true ->
     resp = mkResponse StatusInternalServerError (BodyError "Failed to create message") /\
     exists content,
       log w' = log w ++ [EStore (InsertMessage content (clock w) None) false;
                          EWriteHeader StatusInternalServerError]) /\
  (hd false (faults (DB w)) = false ->
   (forall r0, r0 ∈ messages (DB w) -> row_id r0 <> k) ->
   hd false (tail (faults (DB w))) = true ->
     resp = mkResponse StatusInternalServerError (BodyError "Failed to retrieve message id")) /\
  (body resp = BodyError "Failed to retrieve message id" ->
     exists content,
       log w' = log w ++ [EStore (InsertMessage content (clock w) None) true;
                          EStore LastInsertId false;
                          EWriteHeader StatusInternalServerError] /\
       messages (DB w') = messages (DB w) ++ [mkRow k content (DATETIME e (clock w)) None] /\
       (list_authorized url_Parse rl w' -> faults (DB w') = [] ->
        (length (active_rows w) < maxMessagesPerRequest)%nat ->
        exists msgList,
          fst (GetMessages url_Parse rl w') = mkResponse StatusOK (BodyMessages msgList) /\
          mkMessage (Sprintf_d k) content (DATETIME e (clock w)) None ∈ msgList)).
Proof.
  intros (msg & Hd & Hc) resp w' k e. subst resp w'.
  destruct (CreateMessage_cases r w msg Hd Hc) as (_ & Hfail & Hins).
  fold k in Hfail, Hins. fold e in Hins.
  set (taken := existsb (fun r0 => (row_id r0 =? k)%Z) (messages (DB w))) in *.
  assert (Hlog : hd false (faults (DB w)) = true \/
                 (hd false (faults (DB w)) = false /\ taken = false /\
                  hd false (tail (faults (DB w))) = true) ->
            log (snd (CreateMessage r w)) =
              log w ++
              (if hd false (faults (DB w))
               then [EStore (InsertMessage (Content msg) (clock w) None) false;
                     EWriteHeader StatusInternalServerError]
               else [EStore (InsertMessage (Content msg) (clock w) None) true;
                     EStore LastInsertId false;
                     EWriteHeader StatusInternalServerError])).
  { unfold CreateMessage. rewrite Hd.
    destruct (String.eqb (Content msg) "") eqn:E; [apply eqb_empty in E; contradiction |].
    unfold Exec_Insert, Result_LastInsertId. rewrite db_call_spec.
    cbn [Content CreatedAt DeletedAt].
    intros [Hf | (Hf & Ht & Hf2)]; rewrite Hf.
    - cbn. now rewrite <- app_assoc.
    - cbn [emit set_DB DB set_faults AUTO_INCREMENT messages]. fold k. fold taken.
      rewrite Ht, db_call_spec. cbn [emit set_DB DB set_faults faults]. rewrite Hf2.
      cbn. now rewrite <- !app_assoc. }
  destruct (hd false (faults (DB w)) || taken) eqn:Hor.
  - destruct (Hfail eq_refl) as (Hr & _). rewrite Hr. cbn [status body].
    split; [now right |]. split; [| split; [| discriminate]].
    + intros Hf. split; [reflexivity |]. exists (Content msg).
      rewrite Hlog by now left. now rewrite Hf.
    + intros Hf Hfree _. exfalso. rewrite Hf in Hor. cbn in Hor. subst taken.
      apply existsb_exists in Hor as (r0 & Hin & Hk0). apply Z.eqb_eq in Hk0.
      apply list_elem_of_In in Hin. exact (Hfree r0 Hin Hk0).
  - destruct (Hins eq_refl) as (Hm & _ & _ & Hr). rewrite Hr.
    apply orb_false_iff in Hor as [Hf Ht].
    destruct (hd false (tail (faults (DB w)))) eqn:Hf2; cbn [status body].
    + split; [now right |].
      split; [intros Hf'; rewrite Hf in Hf'; discriminate |].
      split; [reflexivity |].
      intros _. exists (Content msg).
      split; [rewrite Hlog by (right; auto); now rewrite Hf |].
      split; [exact Hm |]. intros Hauth Hw' Hfew.
      exact (new_row_listed url_Parse rl w _ _ Hm eq_refl Hauth Hw' Hfew).
    + split; [now left |].
      split; [intros Hf'; rewrite Hf in Hf'; discriminate |].
      split; discriminate.
Qed.

Lemma CreateMessage_store_failure_witness :
  fst (CreateMessage (create_request "hi") orphan_world) =
    mkResponse StatusInternalServerError (BodyError "Failed to retrieve message id") /\
  exists msgList,
    fst (GetMessages parse_app_page list_request
           (snd (CreateMessage (create_request "hi") orphan_world)))
      = mkResponse StatusOK (BodyMessages msgList) /\
    mkMessage "3" "hi" 200 None ∈ msgList.
Proof.
  assert (Hwf : well_formed_create (create_request "hi")).
  { eexists. split; [reflexivity | discriminate]. }
  split; [reflexivity |].
  destruct (CreateMessage_store_failure parse_app_page (create_request "hi") list_request
              orphan_world Hwf) as (_ & _ & _ & Horphan).
  destruct (Horphan eq_refl) as (content & _ & Hm & Hlisted).
  vm_compute in Hm. injection Hm as <-.
  apply Hlisted.
  - unfold list_authorized. vm_compute. left.
  - reflexivity.
  - vm_compute. lia.
Defined.

(** ** CreateMessage: a run of creates *)

Lemma create_all_ids (rs : list Request) (w : World) :
  keys_below (DB w) ->
  faults (DB w) = [] ->
  Forall well_formed_create rs ->
  let k := AUTO_INCREMENT (DB w) in
  Forall (fun resp => status resp = StatusCreated) (fst (create_all rs w)) /\
  map created_id (fst (create_all rs w)) =
    map (fun i => Some (Sprintf_d (k + Z.of_nat i))) (seq 0 (length rs)) /\
  length (messages (DB (snd (create_all rs w)))) =
    (length (messages (DB w)) + length rs)%nat /\
  keys_below (DB (snd (create_all rs w))) /\
  faults (DB (snd (create_all rs w))) = [].
Proof.
  revert w. induction rs as [|r rs IH]; intros w Hkeys Hw Hwf k.
  { cbn. repeat split; auto. }
  apply Forall_cons in Hwf as [(msg & Hd & Hc) Hwf].
  destruct (CreateMessage_cases r w msg Hd Hc) as (_ & _ & Hins).
  assert (Hfree : existsb (fun r0 => (row_id r0 =? k)%Z) (messages (DB w)) = false).
  { apply not_true_iff_false. intros Hex. apply existsb_exists in Hex as (r0 & Hin & Hk).
    apply Z.eqb_eq in Hk. apply list_elem_of_In in Hin. specialize (Hkeys r0 Hin).
    subst k. lia. }
  destruct Hins as (Hm & Hk & Hf & Hr); [subst k; now rewrite Hw, Hfree |].
  rewrite Hw in Hf, Hr. cbn in Hf, Hr.
  cbn [create_all]. destruct (CreateMessage r w) as [resp w1]. cbn [fst snd] in *.
  assert (Hkeys1 : keys_below (DB w1)).
  { intros r0 Hin. rewrite Hm in Hin. rewrite Hk.
    apply elem_of_app in Hin as [Hin | Hin].
    - specialize (Hkeys r0 Hin). lia.
    - apply list_elem_of_singleton in Hin. subst r0. cbn. lia. }
  destruct (IH w1 Hkeys1 Hf Hwf) as (Hall & Hids & Hlen & Hkeys' & Hf').
  destruct (create_all rs w1) as [resps w2]. cbn [fst snd length] in *.
  split; [constructor; [now rewrite Hr | exact Hall] |].
  split.
  - cbn [map seq]. rewrite Hids, Hr, Hk. cbn [created_id body ID].
    rewrite Z.add_0_r. f_equal. rewrite <- seq_shift, map_map.
    apply map_ext. intros i. do 2 f_equal. lia.
  - split; [rewrite Hlen, Hm, length_app; cbn; lia |]. split; assumption.
Qed.

(** X3. Creates served one after the other on a store in working order
    all succeed, add one row each, and hand out pairwise distinct
    identifiers, none of which names a message that was there before. *)
Theorem create_all_distinct_ids (rs : list Request) (w : World) :
  keys_below (DB w) ->
  faults (DB w) = [] ->
  Forall well_formed_create rs ->
  let resps := fst (create_all rs w) in
  let w' := snd (create_all rs w) in
  Forall (fun resp => status resp = StatusCreated) resps /\
  length (messages (DB w')) = (length (messages (DB w)) + length rs)%nat /\
  (exists ids, map created_id resps = map Some ids /\ length ids = length rs /\
     NoDup ids /\
     forall id r0, id ∈ ids -> r0 ∈ messages (DB w) ->
       id_is (engine (DB w)) id r0 = false).
Proof.
  intros Hkeys Hw Hwf resps w'. subst resps w'.
  destruct (create_all_ids rs w Hkeys Hw Hwf) as (Hall & Hids & Hlen & _).
  split; [exact Hall |]. split; [exact Hlen |].
  exists (map (fun i => Sprintf_d (AUTO_INCREMENT (DB w) + Z.of_nat i)) (seq 0 (length rs))).
  split; [now rewrite Hids, map_map |].
  split; [now rewrite length_map, length_seq |].
  split.
  - apply NoDup_fmap_2; [| apply NoDup_seq].
    intros i j Hij. apply Sprintf_d_inj in Hij. lia.
  - intros id r0 Hin Hr0. apply list_elem_of_fmap in Hin as (i & -> & _).
    rewrite id_is_Sprintf_d. apply Z.eqb_neq.
    specialize (Hkeys r0 Hr0). lia.
Qed.

Lemma create_all_distinct_ids_witness :
  keys_below (DB sample_world) /\
  map created_id
    (fst (create_all [create_request "a"; create_request "b"; create_request "c"]
            sample_world)) = [Some "3"; Some "4"; Some "5"].
Proof.
  assert (Hkeys : keys_below (DB sample_world)).
  { intros r0 Hin. cbn in Hin.
    apply elem_of_cons in Hin as [-> | Hin]; [cbn; lia |].
    apply list_elem_of_singleton in Hin. subst r0. cbn. lia. }
  split; [exact Hkeys |].
  assert (Hwf : Forall well_formed_create
                  [create_request "a"; create_request "b"; create_request "c"]).
  { repeat constructor; eexists; (split; [reflexivity | discriminate]). }
  destruct (create_all_distinct_ids _ sample_world Hkeys eq_refl Hwf) as (_ & _ & _).
  reflexivity.
Defined.

(** ** What creating and listing leave alone *)

Lemma untouched_refl (w : World) : untouched w w.
Proof. unfold untouched. tauto. Qed.

Lemma untouched_trans (w1 w2 w3 : World) :
  untouched w1 w2 -> untouched w2 w3 -> untouched w1 w3.
Proof. unfold untouched. intuition congruence. Qed.

Lemma untouched_after_call (s : Stmt) (w : World) : untouched w (after_call s w).
Proof.
  unfold untouched. rewrite after_call_messages.
  destruct (after_call_frame s w) as (-> & _ & -> & -> & -> & -> & ->). tauto.
Qed.

Lemma untouched_emit (e : Effect) (w : World) : untouched w (emit e w).
Proof. unfold untouched. cbn. tauto. Qed.

Lemma scan_rows_untouched (rows : list Row) (w : World) :
  untouched w (snd (scan_rows rows w)).
Proof.
  revert w. induction rows as [|r rows IH]; intros w; [apply untouched_refl |].
  cbn [scan_rows]. rewrite db_call_after.
  specialize (IH (after_call RowsScan w)).
  destruct (scan_rows rows (after_call RowsScan w)) as [msgs w'].
  cbn [snd] in IH.
  pose proof (untouched_trans _ _ _ (untouched_after_call RowsScan w) IH) as H.
  destruct (hd false _); exact H.
Qed.

Lemma list_messages_untouched (w : World) : untouched w (snd (list_messages w)).
Proof.
  unfold list_messages, Query_Active. rewrite db_call_after.
  pose proof (untouched_after_call (SelectActiveRandom maxMessagesPerRequest) w) as H0.
  destruct (hd false (faults (DB w))).
  { cbn [respond snd]. exact (untouched_trans _ _ _ H0 (untouched_emit _ _)). }
  match goal with |- context [scan_rows ?rows ?w0] =>
    pose proof (scan_rows_untouched rows w0) as H1;
    assert (H01 : untouched w w0) by (unfold untouched in *; cbn; tauto);
    destruct (scan_rows rows w0) as [msgs w1] end.
  cbn [snd] in H1. rewrite db_call_after.
  pose proof (untouched_trans _ _ _ (untouched_trans _ _ _ H01 H1)
                (untouched_after_call RowsErr w1)) as H2.
  destruct (hd false _); cbn [respond snd];
    [exact (untouched_trans _ _ _ H2 (untouched_emit _ _)) | exact H2].
Qed.

(** X4. Listing is read-only: whatever the request and however it is
    answered, [GetMessages] leaves the table and its counter, the channel,
    the registry, the connections and the clock as they were. *)
Theorem GetMessages_read_only (url_Parse : string -> option URL) (r : Request) (w : World) :
  untouched w (snd (GetMessages url_Parse r w)).
Proof.
  rewrite GetMessages_by_declared_origin.
  destruct (declared_origin url_Parse r) as [origin|];
    [destruct (isOriginAllowed w origin) |];
    first [apply list_messages_untouched | apply untouched_emit].
Qed.

(** X5. A create never puts an event on the channel and never touches
    the registry, the connections or the clock; the rows that were in the
    table stay as they were, in place, and at most one row is added after
    them. *)
Theorem CreateMessage_quiet (r : Request) (w : World) :
  let w' := snd (CreateMessage r w) in
  Broadcast w' = Broadcast w /\
  Clients w' = Clients w /\
  conns w' = conns w /\
  clock w' = clock w /\
  (exists new, messages (DB w') = messages (DB w) ++ new /\ (length new <= 1)%nat) /\
  (exists l, log w' = log w ++ l /\ forall e, e ∈ l -> event_of e = None).
Proof.
  intros w'. subst w'.
  destruct (well_formed_create_dec r) as [(msg & Hd & Hc) | Hno].
  - destruct (CreateMessage_cases r w msg Hd Hc) as ((Hb & Hcl & Hcn & Hck & _) & Hfail & Hins).
    split; [exact Hb |]. split; [exact Hcl |]. split; [exact Hcn |]. split; [exact Hck |].
    split.
    + destruct (hd false (faults (DB w)) || _) eqn:Hor.
      * destruct (Hfail eq_refl) as (_ & -> & _). exists []. rewrite app_nil_r. split; [reflexivity | cbn; lia].
      * destruct (Hins eq_refl) as (-> & _). eexists. split; [reflexivity | cbn; lia].
    + unfold CreateMessage. rewrite Hd.
      destruct (String.eqb (Content msg) "") eqn:E; [apply eqb_empty in E; contradiction |].
      unfold Exec_Insert, Result_LastInsertId. rewrite db_call_spec.
      assert (Hnone : forall l : list Effect, Forall (fun e => event_of e = None) l ->
                        forall e, e ∈ l -> event_of e = None).
      { intros l Hl e He. exact (proj1 (Forall_forall _ _) Hl e He). }
      destruct (hd false (faults (DB w))); cbn [emit set_DB DB respond snd log insert_failed];
        [eexists; rewrite <- app_assoc; split; [reflexivity | apply Hnone; repeat constructor] |].
      destruct (existsb _ _); cbn [emit set_DB DB respond snd log insert_failed];
        [eexists; rewrite <- app_assoc; split; [reflexivity | apply Hnone; repeat constructor] |].
      rewrite db_call_spec.
      destruct (hd false _); cbn [emit set_DB DB respond snd log];
        eexists; rewrite <- !app_assoc; (split; [reflexivity | apply Hnone; repeat constructor]).
  - assert (Hrej : Decode (MaxBytesReader (2 ^ 20) (Body r)) = None \/
      (exists msg, Decode (MaxBytesReader (2 ^ 20) (Body r)) = Some msg /\ Content msg = "")).
    { destruct (Decode (MaxBytesReader (2 ^ 20) (Body r))) as [msg|] eqn:Hd; [| now left].
      right. exists msg. split; [reflexivity |].
      destruct (decide (Content msg = "")) as [Hc | Hc]; [exact Hc |].
      exfalso. apply Hno. now exists msg. }
    assert (Heq : CreateMessage r w =
              (fst (CreateMessage r w), emit (EWriteHeader StatusBadRequest) w)).
    { unfold CreateMessage. destruct Hrej as [-> | (msg & -> & Hc)]; [reflexivity |].
      now rewrite Hc. }
    rewrite Heq. cbn [snd emit Broadcast Clients conns clock DB log].
    repeat split; try reflexivity.
    + exists []. rewrite app_nil_r. split; [reflexivity | cbn; lia].
    + eexists. split; [reflexivity |]. intros e He.
      apply list_elem_of_singleton in He. now subst e.
Qed.

(** ** DeleteMessage: all or nothing *)

Lemma DeleteMessage_answers (id : string) (w : World) :
  (exists resp, DeleteMessage id w = done (resp, snd (DeleteMessage id w)) /\
     (status resp = StatusNotFound \/ status resp = StatusInternalServerError) /\
     messages (DB (snd (DeleteMessage id w))) = messages (DB w) /\
     Broadcast (snd (DeleteMessage id w)) = Broadcast w) \/
  (~ no_active id w /\
   messages (DB (snd (DeleteMessage id w))) =
     map (soft_delete (engine (DB w)) (clock w) id) (messages (DB w)) /\
   ((fst (DeleteMessage id w) = DelDone deleted_ok /\
     (length (Broadcast w) < BroadcastCap)%nat /\
     Broadcast (snd (DeleteMessage id w)) = Broadcast w ++ [delete_event id (clock w)]) \/
    (fst (DeleteMessage id w) = DelSend (clock w) /\
     ~ (length (Broadcast w) < BroadcastCap)%nat /\
     Broadcast (snd (DeleteMessage id w)) = Broadcast w))).
Proof.
  destruct (updated_frame id w) as (Hm & _ & Hb & _).
  destruct (hd false (faults (DB w))) eqn:Hf.
  { left. rewrite (DeleteMessage_query_fails id w Hf). eexists. split; [reflexivity |].
    cbn. rewrite after_call_messages.
    destruct (after_call_frame (SelectExistsActive id) w) as (_ & _ & _ & _ & -> & _). auto. }
  destruct (no_active_dec id w) as [Hno | Hact].
  { left. rewrite (DeleteMessage_absent id w Hf Hno). eexists. split; [reflexivity |].
    cbn. rewrite after_call_messages.
    destruct (after_call_frame (SelectExistsActive id) w) as (_ & _ & _ & _ & -> & _). auto. }
  destruct (hd false (tail (faults (DB w)))) eqn:Hf2.
  { left. rewrite (DeleteMessage_update_fails id w Hf Hact Hf2). eexists.
    split; [reflexivity |]. cbn. rewrite !after_call_messages.
    destruct (after_call_frame (UpdateDeletedAt (clock w) id)
                (after_call (SelectExistsActive id) w)) as (_ & _ & _ & _ & -> & _).
    destruct (after_call_frame (SelectExistsActive id) w) as (_ & _ & _ & _ & -> & _). auto. }
  right. split; [exact Hact |].
  destruct (decide (length (Broadcast w) < BroadcastCap)%nat) as [Hroom | Hfull].
  - rewrite (DeleteMessage_succeeds id w Hf Hact Hf2 Hroom). cbn -[updated].
    split; [exact Hm |]. left. auto.
  - rewrite (DeleteMessage_held_up id w Hf Hact Hf2 Hfull). cbn [fst snd].
    split; [exact Hm |]. right. auto.
Qed.



(** ** DeleteMessage, then GetMessages *)

Lemma listed_is_active (url_Parse : string -> option URL) (r : Request) (w : World)
    (msgList : list Message) :
  body (fst (GetMessages url_Parse r w)) = BodyMessages msgList ->
  exists picked, msgList = map scan_message picked /\
    picked ⊆+ active_rows w /\
    (length picked <= maxMessagesPerRequest)%nat.
Proof.
  rewrite GetMessages_by_declared_origin.
  destruct (declared_origin url_Parse r) as [origin|];
    [destruct (isOriginAllowed w origin) |];
    first [apply list_messages_listed | discriminate].
Qed.

(** X7. A deleted message is never listed again.  After a delete was
    answered 204, whatever requests are served afterwards, no list
    response contains a message with the deleted identifier, nor any
    other message that the engine takes the identifier for. *)
Theorem DeleteMessage_then_never_listed (url_Parse : string -> option URL)
    (id : string) (w : World) (ops : list Op) (r : Request) (msgList : list Message) :
  fst (DeleteMessage id w) = DelDone deleted_ok ->
  body (fst (GetMessages url_Parse r (run_ops url_Parse ops (snd (DeleteMessage id w)))))
    = BodyMessages msgList ->
  forall m, m ∈ msgList ->
    ID m <> id /\
    forall k, ID m = Sprintf_d k -> named_key (engine (DB w)) id <> Some k.
Proof.
  intros Hok Hlist m Hm.
  destruct (DeleteMessage_answers id w)
    as [(resp0 & Heq & Hst & _) | (Hact & Hmap & _)].
  { rewrite Heq in Hok. cbn in Hok. injection Hok as ->.
    destruct Hst as [Hst | Hst]; discriminate. }
  pose proof (map_soft_delete_soft_deleted (clock w) id w Hact) as Hdel.
  rewrite <- Hmap in Hdel.
  pose proof (DeleteMessage_run_engine 4 id DelCheck w) as He.
  change (DeleteMessage_run 4 id DelCheck w) with (DeleteMessage id w) in He.
  rewrite <- He in Hdel.
  destruct (run_ops_soft_deleted url_Parse id ops _ Hdel) as [_ Hno].
  rewrite He in Hno.
  destruct (listed_is_active _ _ _ _ Hlist) as (picked & -> & Hsub & _).
  apply list_elem_of_fmap in Hm as (row & -> & Hrow).
  assert (Hin : row ∈ active_rows (run_ops url_Parse ops (snd (DeleteMessage id w)))).
  { eapply (elem_of_submseteq); eauto. }
  unfold active_rows in Hin. apply list_elem_of_In, List.filter_In in Hin as (Hin & Hactive).
  apply list_elem_of_In in Hin.
  assert (Hnot : named_key (engine (DB w)) id <> Some (row_id row)).
  { intros Hk. apply id_is_named in Hk.
    rewrite (Hno row Hin Hk) in Hactive. discriminate. }
  split.
  - intros Hid. cbn in Hid. apply Hnot. rewrite <- Hid. apply named_key_Sprintf_d.
  - intros k Hk. cbn in Hk. apply Sprintf_d_inj in Hk. now subst k.
Qed.

Lemma DeleteMessage_then_never_listed_witness :
  Forall (fun m => ID m <> "1") [mkMessage "3" "again" 201 None] /\
  Forall (fun m => ID m <> "1") [mkMessage "2" "again" 201000 None].
Proof.
  split; apply Forall_forall; intros m Hm.
  - apply (DeleteMessage_then_never_listed parse_app_page "1" sample_world
             [OpTick 1; OpCreate (create_request "again"); OpDispatch] list_request
             [mkMessage "3" "again" 201 None]); [vm_compute; reflexivity .. | exact Hm].
  - destruct (DeleteMessage_then_never_listed parse_app_page "01" rounding_world
             [OpTick 1; OpCreate (create_request "again"); OpDispatch] list_request
             [mkMessage "2" "again" 201000 None]
             ltac:(vm_compute; reflexivity) ltac:(vm_compute; reflexivity) m Hm) as (_ & Hk).
    intros Hid. apply (Hk 1%Z); [exact Hid | reflexivity].
Defined.

(** ** GetMessages: what a list response holds *)

(** X8. When no more active messages are stored than one response may
    hold, an authorized list request on a store in working order returns
    every active message exactly once, in some order. *)
Theorem GetMessages_all_when_few (url_Parse : string -> option URL)
    (r : Request) (w : World) :
  list_authorized url_Parse r w ->
  faults (DB w) = [] ->
  (length (active_rows w) <= maxMessagesPerRequest)%nat ->
  exists msgList,
    fst (GetMessages url_Parse r w) = mkResponse StatusOK (BodyMessages msgList) /\
    msgList ≡ₚ map scan_message (active_rows w).
Proof.
  intros Hauth Hw Hfew.
  rewrite (GetMessages_authorized url_Parse r w Hauth).
  destruct (list_messages_healthy w Hw) as (rows & -> & Hsub & Hlen).
  exists (map scan_message rows). split; [reflexivity |].
  apply fmap_Permutation, submseteq_length_Permutation; [exact Hsub | lia].
Qed.

Lemma GetMessages_all_when_few_witness :
  exists msgList,
    fst (GetMessages parse_app_page list_request sample_world)
      = mkResponse StatusOK (BodyMessages msgList) /\
    msgList ≡ₚ [mkMessage "1" "first" 100 None].
Proof.
  apply (GetMessages_all_when_few parse_app_page list_request sample_world).
  - unfold list_authorized. vm_compute. left.
  - reflexivity.
  - vm_compute. lia.
Defined.

(** X9. A list response never holds the same message twice: as long as
    no two rows of the table share a key, the identifiers in a response
    are pairwise distinct, whether or not the store failed on some row. *)
Theorem GetMessages_no_duplicates (url_Parse : string -> option URL)
    (r : Request) (w : World) (msgList : list Message) :
  NoDup (map row_id (messages (DB w))) ->
  body (fst (GetMessages url_Parse r w)) = BodyMessages msgList ->
  NoDup (map ID msgList).
Proof.
  intros Hkeys Hlist.
  destruct (listed_is_active _ _ _ _ Hlist) as (picked & -> & Hsub & _).
  assert (Hp : NoDup (map row_id picked)).
  { assert (Hall : map row_id picked ⊆+ map row_id (messages (DB w))).
    { apply fmap_submseteq. etransitivity; [exact Hsub |].
      apply sublist_submseteq. unfold active_rows.
      generalize (messages (DB w)). intros l.
      induction l as [|x l IH]; [constructor |].
      cbn. destruct (is_active x); [apply sublist_skip | apply sublist_cons]; exact IH. }
    apply submseteq_Permutation in Hall as (k & Hk).
    rewrite Hk in Hkeys. now apply NoDup_app in Hkeys as (? & _). }
  replace (map ID (map scan_message picked)) with (map Sprintf_d (map row_id picked)).
  - apply NoDup_fmap_2_strong; [| exact Hp].
    intros x y _ _. apply Sprintf_d_inj.
  - rewrite !map_map. reflexivity.
Qed.

Lemma GetMessages_no_duplicates_witness :
  NoDup (map ID
    (match body (fst (GetMessages parse_app_page list_request fifteen_flaky)) with
     | BodyMessages msgList => msgList
     | _ => []
     end)).
Proof.
  apply (GetMessages_no_duplicates parse_app_page list_request fifteen_flaky).
  - refine (bool_decide_unpack _ _). vm_compute. exact I.
  - vm_compute. reflexivity.
Defined.

(** ** HandleWebSocket: the life of a subscription *)

Lemma HandleWebSocket_Some_inv (r : Request) (w : World) (conn : Conn) :
  fst (HandleWebSocket r w) = Some conn ->
  handshake r = true /\ CheckOrigin (createUpgrader (AllowedOrigins w)) r = true.
Proof.
  intros H.
  destruct (CheckOrigin (createUpgrader (AllowedOrigins w)) r) eqn:Hc.
  - split; [| reflexivity]. destruct (handshake r) eqn:Hh; [reflexivity |].
    unfold HandleWebSocket, Upgrade in H. rewrite Hh in H. discriminate.
  - rewrite (HandleWebSocket_refused r w Hc) in H. discriminate.
Qed.

Lemma registry_ok_fresh (w : World) :
  registry_ok w -> Clients w !! fresh (dom (conns w)) = None.
Proof.
  intros Hreg. destruct (Clients w !! fresh (dom (conns w))) eqn:E; [| reflexivity].
  exfalso. apply (is_fresh (dom (conns w))).
  apply elem_of_dom, Hreg. now rewrite E.
Qed.

(** X10. An accepted subscription registers exactly one client, on a
    connection that did not exist before: the registry grows by one, every
    other client and connection is as it was, and the new connection is
    open. *)
Theorem HandleWebSocket_registers_fresh (r : Request) (w : World) :
  registry_ok w ->
  handshake r = true ->
  Header_Get (ReqHeader r) "Origin" ∈ AllowedOrigins w ->
  exists conn,
    let w' := snd (HandleWebSocket r w) in
    fst (HandleWebSocket r w) = Some conn /\
    Clients w !! conn = None /\
    conns w !! conn = None /\
    Clients w' !! conn = Some true /\
    size (Clients w') = S (size (Clients w)) /\
    (forall c, c <> conn ->
       Clients w' !! c = Clients w !! c /\ conns w' !! c = conns w !! c) /\
    conn_ok w' conn = true /\
    registry_ok w'.
Proof.
  intros Hreg Hh Hin. apply CheckOrigin_spec in Hin.
  destruct (HandleWebSocket_accepted r w Hh Hin) as (Hfst & Hnew & Hcl & Hcn & _).
  pose proof (registry_ok_fresh w Hreg) as Hfresh.
  exists (fresh (dom (conns w))). cbn zeta.
  split; [exact Hfst |]. split; [exact Hfresh |]. split; [exact Hnew |].
  rewrite Hcl. split; [apply lookup_insert_eq |].
  split; [now apply map_size_insert_None |].
  split.
  { intros c Hc. rewrite Hcn. now rewrite !lookup_insert_ne. }
  split.
  { unfold conn_ok. rewrite Hcn, lookup_insert_eq. reflexivity. }
  intros c Hc. rewrite Hcn.
  destruct (decide (c = fresh (dom (conns w)))) as [-> | Hne].
  - rewrite lookup_insert_eq. eauto.
  - rewrite lookup_insert_ne by congruence. apply Hreg.
    rewrite Hcl, lookup_insert_ne in Hc by congruence. exact Hc.
Qed.

Lemma HandleWebSocket_registers_fresh_witness :
  exists conn,
    fst (HandleWebSocket (handshake_from "http://localhost:8080") two_clients) = Some conn /\
    size (Clients (snd (HandleWebSocket (handshake_from "http://localhost:8080") two_clients)))
      = 3%nat.
Proof.
  destruct (HandleWebSocket_registers_fresh (handshake_from "http://localhost:8080") two_clients)
    as (conn & Hfst & _ & _ & _ & Hsize & _).
  - intros c [b Hc].
    destruct (decide (c = 1%positive)) as [-> | H1]; [vm_compute; eauto |].
    destruct (decide (c = 2%positive)) as [-> | H2]; [vm_compute; eauto |].
    exfalso. revert Hc. unfold two_clients.
    cbn [Clients set_Broadcast Close emit set_conns].
    destruct (HandleWebSocket_accepted (handshake_from "http://localhost:8080") sample_world
                eq_refl eq_refl) as (_ & _ & Hc1 & _).
    set (w1 := snd (HandleWebSocket (handshake_from "http://localhost:8080") sample_world)) in *.
    destruct (HandleWebSocket_accepted (handshake_from "http://localhost:8080") w1
                eq_refl eq_refl) as (_ & _ & Hc2 & _).
    rewrite Hc2, Hc1.
    replace (fresh (dom (conns sample_world))) with 1%positive by (vm_compute; reflexivity).
    replace (fresh (dom (conns w1))) with 2%positive by (vm_compute; reflexivity).
    rewrite !lookup_insert_ne by congruence. cbn. rewrite lookup_empty. discriminate.
  - reflexivity.
  - vm_compute. left.
  - exists conn. split; [exact Hfst |]. rewrite Hsize. vm_compute. reflexivity.
Defined.

Lemma reader_teardown_spec (c : Conn) (w : World) :
  let w' := teardown (reader_teardown c) w in
  Clients w' = delete c (Clients w) /\
  conns w' = alter (fun st => mkConnState (S (closes st)) (peer_gone st)) c (conns w) /\
  log w' = log w ++ [EClose c].
Proof. cbn. repeat split. Qed.

(** X11. A subscription from connect to disconnect.  A frame that
    holds JSON is dropped: the read loop waits for the next one and the
    client stays registered.  A frame that does not hold JSON ends the
    handler although the peer is there, and so does any read once the
    peer has gone: the handler takes its client out of the registry,
    which is then as it was before the subscription, and closes the
    connection once; the store and the channel are never touched. *)
Theorem HandleWebSocket_round_trip (r : Request) (w : World) (conn : Conn) (frame : Frame) :
  registry_ok w ->
  fst (HandleWebSocket r w) = Some conn ->
  let w1 := snd (HandleWebSocket r w) in
  let torn_down (w2 : World) (gone : bool) :=
    Clients w2 = Clients w /\
    conns w2 !! conn = Some (mkConnState 1 gone) /\
    (forall c, c <> conn -> conns w2 !! c = conns w !! c) /\
    DB w2 = DB w /\
    Broadcast w2 = Broadcast w /\
    log w2 = log w ++ [EUpgrade conn; EClose conn] in
  HandleWebSocket_read conn FrameJSON w1 = None /\
  (exists w2, HandleWebSocket_read conn FrameOther w1 = Some w2 /\ torn_down w2 false) /\
  (exists w2,
     HandleWebSocket_read conn frame (peer_hangs_up conn w1) = Some w2 /\ torn_down w2 true).
Proof.
  intros Hreg Hsome w1 torn_down.
  destruct (HandleWebSocket_Some_inv r w conn Hsome) as (Hh & Hc).
  destruct (HandleWebSocket_accepted r w Hh Hc) as (Hfst & Hnew & Hcl & Hcn & Hlog).
  destruct (HandleWebSocket_frame r w) as (Hdb & _ & Hbr).
  pose proof (registry_ok_fresh w Hreg) as Hfresh.
  rewrite Hfst in Hsome. injection Hsome as <-.
  set (conn := fresh (dom (conns w))) in *. fold w1 in Hcl, Hcn, Hlog, Hdb, Hbr.
  assert (Hok : conn_ok w1 conn = true).
  { unfold conn_ok. rewrite Hcn, lookup_insert_eq. reflexivity. }
  assert (Hgone : conn_ok (peer_hangs_up conn w1) conn = false).
  { unfold conn_ok, peer_hangs_up. cbn [conns set_conns].
    rewrite Hcn, lookup_alter_eq, lookup_insert_eq. reflexivity. }
  split; [unfold HandleWebSocket_read, ReadJSON; now rewrite Hok |].
  split.
  - unfold HandleWebSocket_read, ReadJSON. rewrite Hok. cbn [andb].
    eexists. split; [reflexivity |]. subst torn_down. cbn beta.
    destruct (reader_teardown_spec conn w1) as (-> & -> & ->).
    destruct (teardown_frame (reader_teardown conn) w1) as (-> & _ & -> & _).
    rewrite Hcl, Hcn, Hlog, Hdb, Hbr.
    split; [now apply delete_insert_id |].
    split; [now rewrite lookup_alter_eq, lookup_insert_eq |].
    split; [| split; [reflexivity | split; [reflexivity | now rewrite <- app_assoc]]].
    intros c Hne. now rewrite lookup_alter_ne, lookup_insert_ne by congruence.
  - destruct (HandleWebSocket_read_fails conn frame _ Hgone) as (-> & _).
    eexists. split; [reflexivity |]. subst torn_down. cbn beta.
    destruct (reader_teardown_spec conn (peer_hangs_up conn w1)) as (-> & -> & ->).
    destruct (teardown_frame (reader_teardown conn) (peer_hangs_up conn w1))
      as (-> & _ & -> & _).
    unfold peer_hangs_up. cbn [Clients conns DB Broadcast log set_conns].
    rewrite Hcl, Hcn, Hlog, Hdb, Hbr.
    split; [now apply delete_insert_id |].
    split; [now rewrite !lookup_alter_eq, lookup_insert_eq |].
    split; [| split; [reflexivity | split; [reflexivity | now rewrite <- app_assoc]]].
    intros c Hne. now rewrite !lookup_alter_ne, lookup_insert_ne by congruence.
Qed.

Lemma HandleWebSocket_round_trip_witness :
  exists w2,
    HandleWebSocket_read 1%positive FrameOther
      (snd (HandleWebSocket (handshake_from "http://localhost:8080") sample_world))
      = Some w2 /\
    Clients w2 = Clients sample_world /\
    conns w2 !! 1%positive = Some (mkConnState 1 false).
Proof.
  destruct (HandleWebSocket_round_trip (handshake_from "http://localhost:8080") sample_world
              1%positive FrameJSON) as (_ & (w2 & Hread & Hcl & Hcn & _) & _).
  - intros c [b Hc]. vm_compute in Hc. discriminate.
  - vm_compute. reflexivity.
  - exists w2. split; [exact Hread |]. split; [exact Hcl | exact Hcn].
Defined.

(** ** HandleBroadcast: what each client is sent *)

Lemma written_to_app (c : Conn) (l1 l2 : list Effect) :
  written_to c (l1 ++ l2) = written_to c l1 ++ written_to c l2.
Proof. apply omap_app. Qed.

Lemma written_to_client_effects (c c' : Conn) (event : DeleteEventMessage) (w : World) :
  written_to c (client_effects event w c') =
    if decide (c' = c) then [(event, conn_ok w c)] else [].
Proof.
  unfold client_effects, written_to. cbn [omap list_omap].
  destruct (decide (c' = c)) as [-> | Hne]; destruct (conn_ok w _); reflexivity.
Qed.

Lemma written_to_snapshot (c : Conn) (event : DeleteEventMessage) (w : World)
    (snapshot : list Conn) :
  NoDup snapshot ->
  written_to c (flat_map (client_effects event w) snapshot) =
    if decide (c ∈ snapshot) then [(event, conn_ok w c)] else [].
Proof.
  induction 1 as [|c' snapshot Hnotin Hnd IH].
  - rewrite decide_False by apply not_elem_of_nil. reflexivity.
  - cbn [flat_map]. rewrite written_to_app, written_to_client_effects, IH.
    destruct (decide (c' = c)) as [-> | Hne].
    + rewrite (decide_True (P := c ∈ c :: snapshot)) by left.
      now rewrite decide_False.
    + cbn [app]. destruct (decide (c ∈ snapshot)) as [Hin | Hout].
      * now rewrite decide_True by now right.
      * rewrite decide_False; [reflexivity |].
        intros [? | ?]%elem_of_cons; congruence.
Qed.

Lemma clientsSnapshot_NoDup (w : World) : NoDup (clientsSnapshot w).
Proof. apply NoDup_fst_map_to_list. Qed.

(** X12. What the dispatcher writes to each client while it handles the
    next [turns] events of the channel.  A registered client whose
    connection works is written every one of these events exactly once, in
    the order of the channel, and every write succeeds; a registered
    client whose connection fails is written the first event only, and
    that write fails; a connection that is not registered is written
    nothing. *)
Theorem HandleBroadcast_delivery (turns : nat) (w : World) (c : Conn) :
  exists l,
    log (HandleBroadcast turns w) = log w ++ l /\
    written_to c l =
      match Clients w !! c with
      | None => []
      | Some _ =>
        if conn_ok w c then map (fun ev => (ev, true)) (take turns (Broadcast w))
        else map (fun ev => (ev, false)) (take 1 (take turns (Broadcast w)))
      end.
Proof.
  revert w. induction turns as [|turns IH]; intros w.
  { exists []. cbn. rewrite app_nil_r. split; [reflexivity |].
    destruct (Clients w !! c); [destruct (conn_ok w c) |]; reflexivity. }
  cbn [HandleBroadcast].
  destruct (Broadcast w) as [|event rest] eqn:Hb.
  { unfold HandleBroadcast_turn. rewrite Hb. exists []. rewrite app_nil_r.
    split; [reflexivity |].
    destruct (Clients w !! c); [destruct (conn_ok w c) |]; reflexivity. }
  destruct (HandleBroadcast_turn_spec w event rest Hb) as (w' & -> & Hb' & Hok & Hcl & Hlog).
  destruct (IH w') as (l' & Hl' & Hw').
  exists ((ERecv event :: flat_map (client_effects event w) (clientsSnapshot w)) ++ l').
  split; [rewrite Hl', Hlog; now rewrite <- app_assoc |].
  rewrite written_to_app, Hw', Hcl, Hok, Hb'.
  change (written_to c (ERecv event :: ?l)) with (written_to c l).
  rewrite (written_to_snapshot c event w _ (clientsSnapshot_NoDup w)).
  destruct (Clients w !! c) as [b|] eqn:Hc.
  - rewrite decide_True by (apply clientsSnapshot_spec; rewrite Hc; eauto).
    destruct (conn_ok w c) eqn:Hcok; [reflexivity |].
    cbn. now rewrite take_0.
  - rewrite decide_False.
    + destruct (conn_ok w c); reflexivity.
    + rewrite clientsSnapshot_spec, Hc. now intros [? ?].
Qed.

(** ** The channel and the registry along a history *)

Lemma quiet_refl (w : World) : quiet w w.
Proof. repeat split. exists []. now rewrite app_nil_r. Qed.

Lemma quiet_trans (w1 w2 w3 : World) : quiet w1 w2 -> quiet w2 w3 -> quiet w1 w3.
Proof.
  intros (Hb1 & Hc1 & Hn1 & l1 & Hl1 & Hq1) (Hb2 & Hc2 & Hn2 & l2 & Hl2 & Hq2).
  repeat split; try congruence.
  exists (l1 ++ l2). split; [rewrite Hl2, Hl1; now rewrite <- app_assoc |].
  now apply Forall_app.
Qed.

Lemma quiet_after_call (s : Stmt) (w : World) : quiet w (after_call s w).
Proof.
  destruct (after_call_frame s w) as (_ & _ & _ & Hc & Hb & _ & Hn).
  repeat split; try assumption.
  eexists. split; [apply after_call_log | repeat constructor].
Qed.

Lemma quiet_WriteHeader (st : Status) (w : World) : quiet w (emit (EWriteHeader st) w).
Proof. repeat split. eexists. split; [reflexivity | repeat constructor]. Qed.

Lemma quiet_set_DB (db : Store) (w : World) : quiet w (set_DB db w).
Proof. repeat split. exists []. now rewrite app_nil_r. Qed.

Lemma quiet_set_clock (t : Time) (w : World) : quiet w (set_clock t w).
Proof. repeat split. exists []. now rewrite app_nil_r. Qed.

Lemma CreateMessage_is_quiet (r : Request) (w : World) : quiet w (snd (CreateMessage r w)).
Proof.
  unfold CreateMessage.
  destruct (Decode _) as [msg|]; [| apply quiet_WriteHeader].
  destruct (String.eqb _ _); [apply quiet_WriteHeader |].
  unfold Exec_Insert, Result_LastInsertId. rewrite db_call_after.
  pose proof (quiet_after_call
    (InsertMessage (Content msg) (clock w) None) w) as H1.
  destruct (hd false (faults (DB w))).
  { cbn [respond snd]. exact (quiet_trans _ _ _ H1 (quiet_WriteHeader _ _)). }
  destruct (existsb _ _).
  { cbn [respond snd]. exact (quiet_trans _ _ _ H1 (quiet_WriteHeader _ _)). }
  rewrite db_call_after.
  match goal with |- context [after_call LastInsertId ?w0] =>
    pose proof (quiet_trans _ _ _ (quiet_trans _ _ _ H1 (quiet_set_DB _ _ : quiet _ w0))
                  (quiet_after_call LastInsertId w0)) as H2 end.
  destruct (hd false _); cbn [respond snd];
    exact (quiet_trans _ _ _ H2 (quiet_WriteHeader _ _)).
Qed.

Lemma scan_rows_quiet (rows : list Row) (w : World) : quiet w (snd (scan_rows rows w)).
Proof.
  revert w. induction rows as [|r rows IH]; intros w; [apply quiet_refl |].
  cbn [scan_rows]. rewrite db_call_after.
  specialize (IH (after_call RowsScan w)).
  destruct (scan_rows rows (after_call RowsScan w)) as [msgs w'].
  cbn [snd] in IH.
  pose proof (quiet_trans _ _ _ (quiet_after_call RowsScan w) IH) as H.
  destruct (hd false _); exact H.
Qed.

Lemma list_messages_quiet (w : World) : quiet w (snd (list_messages w)).
Proof.
  unfold list_messages, Query_Active. rewrite db_call_after.
  pose proof (quiet_after_call (SelectActiveRandom maxMessagesPerRequest) w) as H0.
  destruct (hd false (faults (DB w))).
  { cbn [respond snd]. exact (quiet_trans _ _ _ H0 (quiet_WriteHeader _ _)). }
  match goal with |- context [scan_rows ?rows ?w0] =>
    pose proof (scan_rows_quiet rows w0) as H1;
    pose proof (quiet_trans _ _ _ H0 (quiet_set_DB _ _ : quiet _ w0)) as H01;
    destruct (scan_rows rows w0) as [msgs w1] end.
  cbn [snd] in H1. rewrite db_call_after.
  pose proof (quiet_trans _ _ _ (quiet_trans _ _ _ H01 H1)
                (quiet_after_call RowsErr w1)) as H2.
  destruct (hd false _); cbn [respond snd];
    [exact (quiet_trans _ _ _ H2 (quiet_WriteHeader _ _)) | exact H2].
Qed.

Lemma GetMessages_quiet (url_Parse : string -> option URL) (r : Request) (w : World) :
  quiet w (snd (GetMessages url_Parse r w)).
Proof.
  rewrite GetMessages_by_declared_origin.
  destruct (declared_origin url_Parse r) as [origin|];
    [destruct (isOriginAllowed w origin) |];
    first [apply list_messages_quiet | apply quiet_WriteHeader].
Qed.

Lemma DeleteMessage_step_channel (id : string) (pc pc' : DeletePc) (w w' : World) :
  DeleteMessage_step id pc w = Some (pc', w') ->
  quiet w w' \/
  (Clients w' = Clients w /\ conns w' = conns w /\
   exists now, pc = DelSend now /\
     (length (Broadcast w) < BroadcastCap)%nat /\
     Broadcast w' = Broadcast w ++ [delete_event id now] /\
     log w' = log w ++ [ESend (delete_event id now); EWriteHeader StatusNoContent]).
Proof.
  destruct pc as [| | now | now | resp]; cbn [DeleteMessage_step].
  - unfold QueryRow_Exists. rewrite db_call_after.
    pose proof (quiet_after_call (SelectExistsActive id) w) as H1.
    destruct (hd false (faults (DB w))); [| destruct (existsb _ _)];
      intros [= <- <-]; left; cbn [respond snd];
      first [exact H1 | exact (quiet_trans _ _ _ H1 (quiet_WriteHeader _ _))].
  - intros [= <- <-]. left. apply quiet_refl.
  - unfold Exec_Update. rewrite db_call_after.
    pose proof (quiet_after_call (UpdateDeletedAt now id) w) as H1.
    destruct (hd false (faults (DB w))); intros [= <- <-]; left; cbn [respond snd].
    + exact (quiet_trans _ _ _ H1 (quiet_WriteHeader _ _)).
    + exact (quiet_trans _ _ _ H1 (quiet_set_DB _ _)).
  - destruct decide as [Hroom |]; [| discriminate]. intros [= <- <-]. right.
    cbn [respond snd emit set_Broadcast Clients conns Broadcast log].
    split; [reflexivity |]. split; [reflexivity |].
    exists now. rewrite <- app_assoc. repeat split. exact Hroom.
  - discriminate.
Qed.

Lemma sent_app (l1 l2 : list Effect) : sent (l1 ++ l2) = sent l1 ++ sent l2.
Proof. apply omap_app. Qed.

Lemma received_app (l1 l2 : list Effect) : received (l1 ++ l2) = received l1 ++ received l2.
Proof. apply omap_app. Qed.

Lemma no_event_sent (l : list Effect) :
  Forall (fun e => event_of e = None) l -> sent l = [] /\ received l = [].
Proof.
  induction 1 as [|e l He _ [IH1 IH2]]; [split; reflexivity |].
  destruct e; try discriminate He; cbn; auto.
Qed.

Lemma no_event_dispatched (event : DeleteEventMessage) (w : World) (snapshot : list Conn) :
  sent (flat_map (client_effects event w) snapshot) = [] /\
  received (flat_map (client_effects event w) snapshot) = [].
Proof.
  induction snapshot as [|c snapshot [IH1 IH2]]; [split; reflexivity |].
  cbn [flat_map]. rewrite sent_app, received_app, IH1, IH2.
  unfold client_effects. destruct (conn_ok w c); split; reflexivity.
Qed.

Lemma quiet_channel_ok (w w' : World) : quiet w w' -> channel_ok w -> channel_ok w'.
Proof.
  intros (Hb & _ & _ & l & Hl & Hq) (Hs & Hlen).
  destruct (no_event_sent l Hq) as (Hsl & Hrl).
  unfold channel_ok. rewrite Hb, Hl, sent_app, received_app, Hsl, Hrl, !app_nil_r.
  split; assumption.
Qed.

Lemma quiet_registry_ok (w w' : World) : quiet w w' -> registry_ok w -> registry_ok w'.
Proof.
  intros (_ & Hc & Hn & _) Hreg c. rewrite Hc, Hn. apply Hreg.
Qed.

Lemma DeleteMessage_step_channel_ok (id : string) (pc pc' : DeletePc) (w w' : World) :
  DeleteMessage_step id pc w = Some (pc', w') ->
  (channel_ok w -> channel_ok w') /\ (registry_ok w -> registry_ok w').
Proof.
  intros Hstep.
  destruct (DeleteMessage_step_channel _ _ _ _ _ Hstep)
    as [Hq | (Hc & Hn & now & _ & Hroom & Hb & Hl)].
  - split; [apply quiet_channel_ok | apply quiet_registry_ok]; exact Hq.
  - split.
    + intros (Hs & Hlen). unfold channel_ok.
      rewrite Hb, Hl, sent_app, received_app, Hs, length_app. cbn.
      rewrite app_nil_r, <- app_assoc. split; [reflexivity | lia].
    + intros Hreg c. rewrite Hc, Hn. apply Hreg.
Qed.

Lemma DeleteMessage_run_channel_ok (fuel : nat) (id : string) (pc : DeletePc) (w : World) :
  (channel_ok w -> channel_ok (snd (DeleteMessage_run fuel id pc w))) /\
  (registry_ok w -> registry_ok (snd (DeleteMessage_run fuel id pc w))).
Proof.
  revert pc w. induction fuel as [|fuel IH]; intros pc w; [split; auto |].
  cbn [DeleteMessage_run].
  destruct (DeleteMessage_step id pc w) as [[pc' w']|] eqn:Hstep; [| split; auto].
  destruct (DeleteMessage_step_channel_ok _ _ _ _ _ Hstep) as (H1 & H2).
  destruct (IH pc' w') as (H3 & H4). split; auto.
Qed.

Lemma HandleBroadcast_turn_channel_ok (w w' : World) :
  HandleBroadcast_turn w = Some w' ->
  (channel_ok w -> channel_ok w') /\ (registry_ok w -> registry_ok w').
Proof.
  intros Hturn.
  destruct (Broadcast w) as [|event rest] eqn:Hb;
    [unfold HandleBroadcast_turn in Hturn; rewrite Hb in Hturn; discriminate |].
  destruct (HandleBroadcast_turn_spec w event rest Hb) as (w0 & Hw0 & Hb' & Hok & Hcl & Hlog).
  rewrite Hturn in Hw0. injection Hw0 as <-. split.
  - intros (Hs & Hlen). unfold channel_ok.
    destruct (no_event_dispatched event w (clientsSnapshot w)) as (Hs0 & Hr0).
    rewrite Hb', Hlog, sent_app, received_app, Hs, Hb.
    change (sent (ERecv event :: ?l)) with (sent l).
    change (received (ERecv event :: ?l)) with (event :: received l).
    rewrite Hs0, Hr0, app_nil_r, <- app_assoc. split; [reflexivity |].
    rewrite Hb in Hlen. cbn in Hlen. lia.
  - intros Hreg c Hc. rewrite Hcl in Hc.
    assert (Hin : is_Some (conns w !! c)).
    { apply Hreg. destruct (conn_ok w c); [exact Hc | now destruct Hc]. }
    destruct (conn_ok w' c) eqn:E.
    + unfold conn_ok in E. destruct (conns w' !! c); [eauto | discriminate].
    + rewrite Hok in E. rewrite E in Hc. now destruct Hc.
Qed.

Lemma HandleWebSocket_channel_ok (r : Request) (w : World) :
  (channel_ok w -> channel_ok (snd (HandleWebSocket r w))) /\
  (registry_ok w -> registry_ok (snd (HandleWebSocket r w))).
Proof.
  destruct (CheckOrigin (createUpgrader (AllowedOrigins w)) r) eqn:Hc;
    [| rewrite (HandleWebSocket_refused r w Hc); split; auto].
  destruct (handshake r) eqn:Hh.
  - destruct (HandleWebSocket_accepted r w Hh Hc) as (_ & _ & Hcl & Hcn & Hlog).
    destruct (HandleWebSocket_frame r w) as (_ & _ & Hb). split.
    + intros (Hs & Hlen). unfold channel_ok.
      rewrite Hb, Hlog, sent_app, received_app, !app_nil_r. split; assumption.
    + intros Hreg c Hin. rewrite Hcn.
      destruct (decide (c = fresh (dom (conns w)))) as [-> | Hne].
      * rewrite lookup_insert_eq. eauto.
      * rewrite lookup_insert_ne by congruence. apply Hreg.
        rewrite Hcl, lookup_insert_ne in Hin by congruence. exact Hin.
  - unfold HandleWebSocket, Upgrade. rewrite Hh. split; auto.
Qed.

Lemma apply_op_channel_ok (url_Parse : string -> option URL) (w : World) (o : Op) :
  (channel_ok w -> channel_ok (apply_op url_Parse w o)) /\
  (registry_ok w -> registry_ok (apply_op url_Parse w o)).
Proof.
  assert (Hquiet : forall w', quiet w w' ->
            (channel_ok w -> channel_ok w') /\ (registry_ok w -> registry_ok w')).
  { intros w' Hq. split; [now apply quiet_channel_ok | now apply quiet_registry_ok]. }
  destruct o as [r | r | id | r | | dt]; cbn [apply_op].
  - apply Hquiet, CreateMessage_is_quiet.
  - apply Hquiet, GetMessages_quiet.
  - apply DeleteMessage_run_channel_ok.
  - apply HandleWebSocket_channel_ok.
  - cbn [HandleBroadcast]. destruct (HandleBroadcast_turn w) as [w'|] eqn:E.
    + now apply HandleBroadcast_turn_channel_ok.
    + split; auto.
  - apply Hquiet, quiet_set_clock.
Qed.

Lemma sys_step_channel_ok (s : System) (a : Action) :
  (channel_ok (world s) -> channel_ok (world (sys_step s a))) /\
  (registry_ok (world s) -> registry_ok (world (sys_step s a))).
Proof.
  destruct a as [i | dt |]; cbn [sys_step].
  - destruct (deletes s !! i) as [[id pc]|]; [| split; auto].
    destruct (DeleteMessage_step id pc (world s)) as [[pc' w']|] eqn:E; [| split; auto].
    cbn [world]. exact (DeleteMessage_step_channel_ok _ _ _ _ _ E).
  - cbn [world]. split;
      [apply quiet_channel_ok | apply quiet_registry_ok]; apply quiet_set_clock.
  - destruct (HandleBroadcast_turn (world s)) as [w'|] eqn:E; [| split; auto].
    cbn [world]. now apply HandleBroadcast_turn_channel_ok.
Qed.

(** X13. The channel neither loses, duplicates nor reorders events, and
    never holds more than a hundred.  In every history of requests served
    one after the other, and under every schedule of delete requests
    running side by side with the dispatcher, the events sent by deletes
    are, in order, the events the dispatcher has received followed by the
    events waiting on the channel. *)
Theorem channel_ok_invariant (url_Parse : string -> option URL) (w : World) :
  channel_ok w ->
  (forall ops, channel_ok (run_ops url_Parse ops w)) /\
  (forall schedule ds, channel_ok (world (sys_run schedule (mkSystem w ds)))).
Proof.
  intros Hw. split.
  - intros ops. unfold run_ops. revert w Hw.
    induction ops as [|o ops IH]; intros w Hw; [exact Hw |].
    cbn [foldl]. apply IH. now apply apply_op_channel_ok.
  - intros schedule ds. unfold sys_run.
    change w with (world (mkSystem w ds)) in Hw.
    generalize dependent (mkSystem w ds). clear w.
    induction schedule as [|a schedule IH]; intros s Hs; [exact Hs |].
    cbn [foldl]. apply IH. now apply sys_step_channel_ok.
Qed.

Lemma channel_ok_invariant_witness :
  channel_ok (world (sys_run race_schedule race_system)) /\
  channel_ok (run_ops parse_app_page
                [OpDelete "1"; OpCreate (create_request "again"); OpDispatch] sample_world).
Proof.
  split.
  - apply (channel_ok_invariant parse_app_page (world race_system)).
    split; [reflexivity | vm_compute; lia].
  - apply (channel_ok_invariant parse_app_page sample_world).
    split; [reflexivity | vm_compute; lia].
Defined.

(** X14. Every registered client is a connection that an upgrade has
    made, and this stays so whatever requests are served and whatever the
    dispatcher takes out of the registry; in particular it holds in every
    history of a server that [New] has set up. *)
Theorem registry_ok_invariant (url_Parse : string -> option URL) (ops : list Op) :
  (forall w, registry_ok w -> registry_ok (run_ops url_Parse ops w)) /\
  (forall db origins t, registry_ok (run_ops url_Parse ops (New db origins t))).
Proof.
  assert (Hkeep : forall w, registry_ok w -> registry_ok (run_ops url_Parse ops w)).
  { unfold run_ops. induction ops as [|o ops IH]; intros w Hw; [exact Hw |].
    cbn [foldl]. apply IH. now apply apply_op_channel_ok. }
  split; [exact Hkeep |].
  intros db origins t. apply Hkeep. intros c [b Hc]. cbn in Hc.
  rewrite lookup_empty in Hc. discriminate.
Qed.

Lemma registry_ok_invariant_witness :
  registry_ok (run_ops parse_app_page
                 [OpSubscribe (handshake_from "http://localhost:8080"); OpDelete "1"; OpDispatch]
                 sample_world).
Proof.
  apply (proj1 (registry_ok_invariant parse_app_page _) sample_world).
  intros c [b Hc]. vm_compute in Hc. discriminate.
Defined.

(** * config.Load: the list of allowed origins *)

Lemma list_ascii_of_string_app (a b : string) :
  list_ascii_of_string (a +:+ b) = list_ascii_of_string a ++ list_ascii_of_string b.
Proof. induction a as [|c a IH]; [reflexivity |]. simpl. f_equal. exact IH. Qed.

Lemma asciiSpace_below (c : Ascii.ascii) :
  config.asciiSpace c = true -> config.above_RuneSelf c = false.
Proof. destruct c as [[] [] [] [] [] [] [] []]; try reflexivity; discriminate. Qed.

Lemma asciiSpace_not_comma (c : Ascii.ascii) :
  config.asciiSpace c = true -> c <> config.comma.
Proof. intros H ->. discriminate. Qed.

Lemma Split_comma_cons (s : string) : exists piece pieces, config.Split_comma s = piece :: pieces.
Proof.
  induction s as [|c s (piece & pieces & IH)]; [now eexists _, _ |].
  cbn [config.Split_comma]. destruct (Ascii.eqb c config.comma); [now eexists _, _ |].
  rewrite IH. now eexists _, _.
Qed.

Lemma Split_comma_plain (s : string) :
  config.comma ∉ list_ascii_of_string s -> config.Split_comma s = [s].
Proof.
  induction s as [|c s IH]; [reflexivity |]. cbn [list_ascii_of_string].
  intros Hnot. apply not_elem_of_cons in Hnot as (Hc & Hs).
  cbn [config.Split_comma String.append].
  destruct (Ascii.eqb c config.comma) eqn:E; [apply Ascii.eqb_eq in E; congruence |].
  now rewrite (IH Hs).
Qed.

Lemma Split_comma_app (s rest : string) :
  config.comma ∉ list_ascii_of_string s ->
  config.Split_comma (s +:+ String config.comma rest) = s :: config.Split_comma rest.
Proof.
  induction s as [|c s IH]; [reflexivity |]. cbn [list_ascii_of_string].
  intros Hnot. apply not_elem_of_cons in Hnot as (Hc & Hs).
  change (String c s +:+ String config.comma rest)
    with (String c (s +:+ String config.comma rest)).
  cbn [config.Split_comma].
  destruct (Ascii.eqb c config.comma) eqn:E; [apply Ascii.eqb_eq in E; congruence |].
  now rewrite (IH Hs).
Qed.

Lemma Split_comma_concat (pieces : list string) :
  pieces <> [] ->
  Forall (fun s => config.comma ∉ list_ascii_of_string s) pieces ->
  config.Split_comma (String.concat "," pieces) = pieces.
Proof.
  induction pieces as [|s pieces IH]; [congruence |]. intros _ Hall.
  apply Forall_cons in Hall as (Hs & Hall).
  destruct pieces as [|s' pieces]; [now apply Split_comma_plain |].
  change (String.concat "," (s :: s' :: pieces))
    with (s +:+ String config.comma (String.concat "," (s' :: pieces))).
  rewrite (Split_comma_app _ _ Hs), IH; [reflexivity | congruence | exact Hall].
Qed.

Lemma Split_comma_length (s : string) :
  length (config.Split_comma s) = S (config.commas s).
Proof.
  unfold config.commas. induction s as [|c s IH]; [reflexivity |].
  cbn [config.Split_comma list_ascii_of_string List.filter].
  destruct (Ascii.eqb c config.comma); cbn [length]; [now rewrite IH |].
  destruct (Split_comma_cons s) as (piece & pieces & E). rewrite E in IH |- *. exact IH.
Qed.

Lemma Split_comma_trailing (s : string) :
  exists pieces, config.Split_comma (s +:+ ",") = pieces ++ [""] /\ pieces <> [].
Proof.
  induction s as [|c s (pieces & IH & Hne)]; [now exists [""] |].
  change (String c s +:+ ",") with (String c (s +:+ ",")).
  cbn [config.Split_comma]. destruct (Ascii.eqb c config.comma).
  - exists ("" :: pieces). rewrite IH. split; [reflexivity | congruence].
  - rewrite IH. destruct pieces as [|piece pieces]; [congruence |].
    exists (String c piece :: pieces). split; [reflexivity | congruence].
Qed.

Lemma trim_loop_blank (blanks rest : list Ascii.ascii) :
  Forall (fun c => config.asciiSpace c = true) blanks ->
  config.trim_loop (blanks ++ rest) = config.trim_loop rest.
Proof.
  induction 1 as [|c blanks Hc _ IH]; [reflexivity |].
  cbn [app config.trim_loop]. now rewrite (asciiSpace_below c Hc), Hc.
Qed.

Lemma trim_loop_edge (s : list Ascii.ascii) :
  (forall c, head s = Some c -> config.edge c) ->
  config.trim_loop s = (false, s).
Proof.
  destruct s as [|c s]; [reflexivity |]. intros H.
  destruct (H c eq_refl) as (Ha & Hs). cbn [config.trim_loop]. now rewrite Ha, Hs.
Qed.

Lemma padded_no_comma (entry : string * string * string) :
  config.well_padded entry -> config.comma ∉ list_ascii_of_string (config.padded entry).
Proof.
  destruct entry as [[before origin] after]. intros (Hb & (Hcomma & _) & Ha).
  unfold config.padded. rewrite !list_ascii_of_string_app, !elem_of_app.
  intros [Hin | [Hin | Hin]]; [| contradiction |].
  - exact (asciiSpace_not_comma _ (proj1 (Forall_forall _ _) Hb _ Hin) eq_refl).
  - exact (asciiSpace_not_comma _ (proj1 (Forall_forall _ _) Ha _ Hin) eq_refl).
Qed.

Section Load.

Variable TrimFunc_IsSpace : string -> string.
Variable TrimRightFunc_IsSpace : string -> string.

Lemma TrimSpace_padded (entry : string * string * string) :
  config.well_padded entry ->
  config.TrimSpace TrimFunc_IsSpace TrimRightFunc_IsSpace (config.padded entry)
    = config.origin_of entry.
Proof.
  destruct entry as [[before origin] after]. intros (Hb & (Hcomma & Hhd & Hlast) & Ha).
  unfold config.TrimSpace, config.padded, config.origin_of.
  rewrite !list_ascii_of_string_app, (trim_loop_blank _ _ Hb).
  assert (Hstart : config.trim_loop (list_ascii_of_string origin ++ list_ascii_of_string after)
                   = (false, match list_ascii_of_string origin with
                             | [] => []
                             | _ => list_ascii_of_string origin ++ list_ascii_of_string after
                             end)).
  { destruct (list_ascii_of_string origin) as [|c bytes] eqn:E.
    - cbn [app]. rewrite <- (app_nil_r (list_ascii_of_string after)).
      now rewrite (trim_loop_blank _ _ Ha).
    - apply trim_loop_edge. intros c' [= <-]. now apply Hhd. }
  rewrite Hstart.
  destruct (list_ascii_of_string origin) as [|c bytes] eqn:E.
  - cbn. rewrite <- (string_of_list_ascii_of_string origin), E. reflexivity.
  - rewrite reverse_app, trim_loop_blank by now apply Forall_reverse.
    rewrite trim_loop_edge.
    + rewrite reverse_involutive, <- E. apply string_of_list_ascii_of_string.
    + intros c'. rewrite head_reverse. apply Hlast.
Qed.

Lemma Load_AllowedOrigins (environ : gmap string string) :
  config.AllowedOrigins (config.Load TrimFunc_IsSpace TrimRightFunc_IsSpace environ) =
    map (config.TrimSpace TrimFunc_IsSpace TrimRightFunc_IsSpace)
      (config.Split_comma
         (if String.eqb (config.Getenv environ "ALLOWED_ORIGINS") ""
          then "http://localhost:3000,http://127.0.0.1:3000"
          else config.Getenv environ "ALLOWED_ORIGINS")).
Proof. reflexivity. Qed.

(** X15. The list of allowed origins is read back as it was written:
    when [ALLOWED_ORIGINS] holds origins separated by commas, each with
    any amount of white space around it, [Load] returns these origins, in
    order and without the white space. *)
Theorem Load_origins_round_trip (environ : gmap string string)
    (entries : list (string * string * string)) :
  entries <> [] ->
  Forall config.well_padded entries ->
  String.concat "," (map config.padded entries) <> "" ->
  environ !! "ALLOWED_ORIGINS" = Some (String.concat "," (map config.padded entries)) ->
  config.AllowedOrigins (config.Load TrimFunc_IsSpace TrimRightFunc_IsSpace environ)
    = map config.origin_of entries.
Proof.
  intros Hne Hall Hraw Henv. rewrite Load_AllowedOrigins.
  unfold config.Getenv. rewrite Henv. cbn [default]. unfold id.
  destruct (String.eqb _ "") eqn:E; [apply String.eqb_eq in E; contradiction |].
  rewrite Split_comma_concat.
  - rewrite map_map. apply map_ext_Forall.
    eapply Forall_impl; [exact Hall |]. intros entry. apply TrimSpace_padded.
  - destruct entries; [congruence | discriminate].
  - apply Forall_fmap. eapply Forall_impl; [exact Hall |].
    intros entry. apply padded_no_comma.
Qed.

(** X16. A comma at the end of [ALLOWED_ORIGINS] puts the empty origin
    into the list, and a server set up with the list that [Load] returns
    then accepts a WebSocket handshake that carries no [Origin] header. *)
Theorem Load_trailing_comma (environ : gmap string string) (raw : string)
    (db : Store) (t : Time) (r : Request) :
  environ !! "ALLOWED_ORIGINS" = Some (raw +:+ ",") ->
  let origins :=
    config.AllowedOrigins (config.Load TrimFunc_IsSpace TrimRightFunc_IsSpace environ) in
  "" ∈ origins /\
  (ReqHeader r !! "Origin" = None -> handshake r = true ->
     exists conn, fst (HandleWebSocket r (New db origins t)) = Some conn).
Proof.
  intros Henv origins.
  assert (Hin : "" ∈ origins).
  { subst origins. rewrite Load_AllowedOrigins. unfold config.Getenv. rewrite Henv.
    cbn [default]. unfold id.
    destruct (String.eqb _ "") eqn:E;
      [apply String.eqb_eq in E; destruct raw; discriminate |].
    destruct (Split_comma_trailing raw) as (pieces & -> & _).
    rewrite map_app. apply elem_of_app. right. left. }
  split; [exact Hin |]. intros Hnone Hh.
  assert (Hc : CheckOrigin (createUpgrader (AllowedOrigins (New db origins t))) r = true).
  { apply CheckOrigin_spec. unfold Header_Get. rewrite Hnone. exact Hin. }
  destruct (HandleWebSocket_accepted r _ Hh Hc) as (Hfst & _). eauto.
Qed.

(** X17. [Load] never returns an empty list of allowed origins.  With
    [ALLOWED_ORIGINS] unset or empty the list is the two local origins of
    the default; otherwise it has one entry more than the value has
    commas. *)
Theorem Load_origins_never_empty (environ : gmap string string) :
  let raw := config.Getenv environ "ALLOWED_ORIGINS" in
  let origins :=
    config.AllowedOrigins (config.Load TrimFunc_IsSpace TrimRightFunc_IsSpace environ) in
  origins <> [] /\
  (raw = "" -> origins = ["http://localhost:3000"; "http://127.0.0.1:3000"]) /\
  (raw <> "" -> length origins = S (config.commas raw)).
Proof.
  intros raw origins. subst origins. rewrite Load_AllowedOrigins. fold raw.
  assert (Hlen : forall s, length (map (config.TrimSpace TrimFunc_IsSpace TrimRightFunc_IsSpace)
                                     (config.Split_comma s)) = S (config.commas s)).
  { intros s. now rewrite length_map, Split_comma_length. }
  split; [| split].
  - intros Hnil. apply (f_equal length) in Hnil. rewrite Hlen in Hnil. discriminate.
  - intros ->. reflexivity.
  - intros Hraw. destruct (String.eqb raw "") eqn:E;
      [apply String.eqb_eq in E; contradiction | apply Hlen].
Qed.

End Load.

Lemma Load_origins_round_trip_witness :
  config.AllowedOrigins
    (config.Load (fun s => s) (fun s => s)
       {["ALLOWED_ORIGINS" := " http://localhost:8080 ,http://127.0.0.1:8080"]})
    = sample_origins.
Proof.
  apply (Load_origins_round_trip (fun s => s) (fun s => s) _
           [(" ", "http://localhost:8080", " "); ("", "http://127.0.0.1:8080", "")]).
  - discriminate.
  - assert (Hblank : forall s, Forall (fun c => config.asciiSpace c = true)
                                  (list_ascii_of_string s) -> config.blank s) by auto.
    repeat apply Forall_cons_2; [| | apply Forall_nil_2];
      (split; [apply Hblank; cbn; repeat constructor |]);
      (split; [| apply Hblank; cbn; repeat constructor]);
      (split; [refine (bool_decide_unpack _ _); vm_compute; exact I |]);
      split; intros c Hc; cbn in Hc; injection Hc as <-; split; reflexivity.
  - discriminate.
  - reflexivity.
Defined.

Lemma Load_trailing_comma_witness :
  exists conn,
    fst (HandleWebSocket handshake_without_origin
           (New sample_store
              (config.AllowedOrigins
                 (config.Load (fun s => s) (fun s => s)
                    {["ALLOWED_ORIGINS" := "http://localhost:8080,"]}))
              200)) = Some conn.
Proof.
  destruct (Load_trailing_comma (fun s => s) (fun s => s)
              {["ALLOWED_ORIGINS" := "http://localhost:8080,"]} "http://localhost:8080"
              sample_store 200 handshake_without_origin) as (_ & H).
  - vm_compute. reflexivity.
  - apply H; reflexivity.
Defined.

(** * From one handler to the next *)

Lemma CreateMessage_created (r : Request) (w : World) :
  status (fst (CreateMessage r w)) = StatusCreated ->
  exists content,
    let k := AUTO_INCREMENT (DB w) in
    let w' := snd (CreateMessage r w) in
    fst (CreateMessage r w) =
      mkResponse StatusCreated (BodyMessage (mkMessage (Sprintf_d k) content (clock w) None)) /\
    messages (DB w') =
      messages (DB w) ++ [mkRow k content (DATETIME (engine (DB w)) (clock w)) None] /\
    faults (DB w') = tail (tail (faults (DB w))) /\
    Broadcast w' = Broadcast w /\ Clients w' = Clients w /\ conns w' = conns w /\
    clock w' = clock w /\ AllowedOrigins w' = AllowedOrigins w.
Proof.
  intros Hs. destruct (CreateMessage_created_inv r w Hs) as (msg & Hd & Hc & Hf & Ht & Hf2).
  destruct (CreateMessage_cases r w msg Hd Hc) as ((Hb & Hcl & Hcn & Hck & Hao) & _ & Hins).
  destruct Hins as (Hm & _ & Hfl & Hr); [now rewrite Hf, Ht |].
  rewrite Hf2 in Hr. exists (Content msg). cbn zeta. tauto.
Qed.

(** X18. A message that was created is listed.  When fewer messages
    are active than a response may hold, a create answered 201 is followed
    by a list response, to an authorized request on a store in working
    order, that contains the message with the identifier and the content
    that the create returned.  Its [created_at] is what the [DATETIME]
    column keeps of the creation time that the create returned; where the
    column keeps that time whole, the message is listed exactly as it was
    returned. *)
Theorem CreateMessage_then_listed (url_Parse : string -> option URL)
    (r rl : Request) (w : World) (msg : Message) :
  fst (CreateMessage r w) = mkResponse StatusCreated (BodyMessage msg) ->
  let w' := snd (CreateMessage r w) in
  let e := engine (DB w) in
  list_authorized url_Parse rl w' ->
  faults (DB w') = [] ->
  (length (active_rows w) < maxMessagesPerRequest)%nat ->
  exists msgList,
    fst (GetMessages url_Parse rl w') = mkResponse StatusOK (BodyMessages msgList) /\
    mkMessage (ID msg) (Content msg) (DATETIME e (CreatedAt msg)) None ∈ msgList /\
    (DATETIME e (CreatedAt msg) = CreatedAt msg -> msg ∈ msgList).
Proof.
  intros Hresp w' e Hauth Hw' Hfew.
  destruct (CreateMessage_created r w) as (content & Hr & Hm & _); [now rewrite Hresp |].
  rewrite Hresp in Hr. injection Hr as ->. fold w' in Hm. fold e in Hm.
  destruct (new_row_listed url_Parse rl w w' _ Hm eq_refl Hauth Hw' Hfew)
    as (msgList & Hlist & Hin).
  exists msgList. split; [exact Hlist |]. cbn [ID Content CreatedAt].
  split; [exact Hin |]. intros Hwhole. unfold scan_message in Hin. cbn in Hin.
  now rewrite Hwhole in Hin.
Qed.

Lemma CreateMessage_then_listed_witness :
  fst (CreateMessage (create_request "again") rounding_world) =
    mkResponse StatusCreated (BodyMessage (mkMessage "2" "again" 200700 None)) /\
  exists msgList,
    fst (GetMessages parse_app_page list_request
           (snd (CreateMessage (create_request "again") rounding_world)))
      = mkResponse StatusOK (BodyMessages msgList) /\
    mkMessage "2" "again" 201000 None ∈ msgList.
Proof.
  split; [reflexivity |].
  destruct (CreateMessage_then_listed parse_app_page (create_request "again") list_request
              rounding_world (mkMessage "2" "again" 200700 None))
    as (msgList & Hlist & Hin & _).
  - vm_compute. reflexivity.
  - unfold list_authorized. vm_compute. left.
  - vm_compute. reflexivity.
  - vm_compute. lia.
  - exists msgList. split; [exact Hlist | exact Hin].
Defined.

(** X19. A message that was created can be deleted under the identifier
    the create returned: with the store in working order and room on the
    channel, the delete is answered 204 and announces that identifier. *)
Theorem CreateMessage_then_delete (r : Request) (w : World) (msg : Message) :
  fst (CreateMessage r w) = mkResponse StatusCreated (BodyMessage msg) ->
  let w' := snd (CreateMessage r w) in
  hd false (faults (DB w')) = false ->
  hd false (tail (faults (DB w'))) = false ->
  (length (Broadcast w) < BroadcastCap)%nat ->
  fst (DeleteMessage (ID msg) w') = DelDone deleted_ok /\
  Broadcast (snd (DeleteMessage (ID msg) w')) = Broadcast w ++ [delete_event (ID msg) (clock w)] /\
  no_active (ID msg) (snd (DeleteMessage (ID msg) w')).
Proof.
  intros Hresp w' Hf Hf2 Hroom.
  destruct (CreateMessage_created r w)
    as (content & Hr & Hm & _ & Hb & _ & _ & Hck & _); [now rewrite Hresp |].
  rewrite Hresp in Hr. injection Hr as ->. fold w' in Hm, Hb, Hck. cbn [ID].
  set (id := Sprintf_d (AUTO_INCREMENT (DB w))).
  assert (Hact : ~ no_active id w').
  { intros Hno.
    assert (Hrow : mkRow (AUTO_INCREMENT (DB w)) content
                     (DATETIME (engine (DB w)) (clock w)) None ∈ messages (DB w')).
    { rewrite Hm. apply elem_of_app. right. left. }
    specialize (Hno _ Hrow). subst id. rewrite id_is_Sprintf_d in Hno. cbn [row_id] in Hno.
    rewrite Z.eqb_refl in Hno. specialize (Hno eq_refl). discriminate. }
  assert (Hroom' : (length (Broadcast w') < BroadcastCap)%nat) by now rewrite Hb.
  rewrite (DeleteMessage_succeeds id w' Hf Hact Hf2 Hroom').
  split; [reflexivity |].
  cbn [done respond fst snd emit set_Broadcast Broadcast]. rewrite Hb, Hck.
  split; [reflexivity |].
  destruct (updated_frame id w') as (Hmu & _).
  apply (no_active_soft_delete id id (clock w') w'); [exact Hmu | apply updated_engine].
Qed.

Lemma CreateMessage_then_delete_witness :
  fst (DeleteMessage "3" (snd (CreateMessage (create_request "again") sample_world)))
    = DelDone deleted_ok.
Proof.
  apply (CreateMessage_then_delete (create_request "again") sample_world
           (mkMessage "3" "again" 200 None)).
  - vm_compute. reflexivity.
  - reflexivity.
  - reflexivity.
  - vm_compute. lia.
Defined.

Lemma DeleteMessage_run_registry (fuel : nat) (id : string) (pc : DeletePc) (w : World) :
  Clients (snd (DeleteMessage_run fuel id pc w)) = Clients w /\
  conns (snd (DeleteMessage_run fuel id pc w)) = conns w.
Proof.
  revert pc w. induction fuel as [|fuel IH]; intros pc w; [split; reflexivity |].
  cbn [DeleteMessage_run].
  destruct (DeleteMessage_step id pc w) as [[pc' w']|] eqn:Hstep; [| split; reflexivity].
  destruct (IH pc' w') as (-> & ->).
  destruct (DeleteMessage_step_channel _ _ _ _ _ Hstep)
    as [(_ & Hc & Hn & _) | (Hc & Hn & _)]; now rewrite Hc, Hn.
Qed.

Lemma HandleBroadcast_keeps_DB (turns : nat) (w : World) :
  DB (HandleBroadcast turns w) = DB w /\ clock (HandleBroadcast turns w) = clock w.
Proof.
  revert w. induction turns as [|turns IH]; intros w; [split; reflexivity |].
  cbn [HandleBroadcast]. destruct (HandleBroadcast_turn w) as [w'|] eqn:E; [| split; reflexivity].
  destruct (HandleBroadcast_turn_frame w w' E) as (<- & <- & _). apply IH.
Qed.

(** X20. A delete reaches every live subscriber.  After a delete was
    answered 204, once the dispatcher has worked through the channel,
    every client that was registered with a working connection has been
    written the event of this delete, carrying the identifier of the
    request and the time of the call; the rows that the identifier names
    hold as [deleted_at] what the [DATETIME] column keeps of that time. *)
Theorem DeleteMessage_announced (id : string) (w : World) (turns : nat) (c : Conn) :
  fst (DeleteMessage id w) = DelDone deleted_ok ->
  is_Some (Clients w !! c) ->
  conn_ok w c = true ->
  (length (Broadcast w) < turns)%nat ->
  let w1 := snd (DeleteMessage id w) in
  let w2 := HandleBroadcast turns w1 in
  let e := engine (DB w) in
  Broadcast w2 = [] /\
  (exists l, log w2 = log w1 ++ l /\
     EWriteJSON c (mkDeleteEventMessage "message_deleted" id (clock w)) true ∈ l) /\
  (exists row, row ∈ messages (DB w2) /\ id_is e id row = true) /\
  (forall row, row ∈ messages (DB w2) -> id_is e id row = true ->
     row_deleted_at row = Some (DATETIME e (clock w))).
Proof.
  intros Hok Hreg Hlive Hturns w1 w2 e.
  destruct (DeleteMessage_answers id w)
    as [(resp0 & Heq & Hst & _) | (Hact & Hm & [(_ & _ & Hb) | (Hheld & _)])].
  { rewrite Heq in Hok. cbn in Hok. injection Hok as ->.
    destruct Hst as [Hst | Hst]; discriminate. }
  2:{ rewrite Hheld in Hok. discriminate. }
  fold w1 in Hm, Hb. fold e in Hm.
  destruct (DeleteMessage_run_registry 4 id DelCheck w) as (Hcl & Hcn).
  change (DeleteMessage_run 4 id DelCheck w) with (DeleteMessage id w) in Hcl, Hcn.
  fold w1 in Hcl, Hcn.
  assert (Hlen : (length (Broadcast w1) <= turns)%nat).
  { rewrite Hb, length_app. cbn. lia. }
  destruct (HandleBroadcast_drains turns w1 Hlen) as (Hempty & l & Hl & Hall).
  destruct (HandleBroadcast_keeps_DB turns w1) as (Hdb & _). fold w2 in Hempty, Hl, Hdb.
  split; [exact Hempty |]. split.
  - exists l. split; [exact Hl |]. apply Hall.
    + now rewrite Hcl.
    + unfold conn_ok. rewrite Hcn. exact Hlive.
    + rewrite Hb. apply elem_of_app. right. left.
  - rewrite Hdb, Hm.
    destruct (map_soft_delete_soft_deleted (clock w) id w Hact) as (Hex & _).
    split; [exact Hex |].
    intros row Hin Hid. apply list_elem_of_fmap in Hin as (r1 & -> & _).
    rewrite soft_delete_id in Hid. now apply soft_delete_hit.
Qed.

Lemma DeleteMessage_announced_witness :
  (exists l,
     log (HandleBroadcast 3 (snd (DeleteMessage "1" two_clients)))
       = log (snd (DeleteMessage "1" two_clients)) ++ l /\
     EWriteJSON 2%positive (delete_event "1" 200) true ∈ l).
Proof.
  destruct (DeleteMessage_announced "1" two_clients 3 2%positive) as (_ & H & _).
  - vm_compute. reflexivity.
  - vm_compute. eauto.
  - vm_compute. reflexivity.
  - vm_compute. lia.
  - exact H.
Defined.

(** X21. What the dispatcher leaves behind after a number of turns: the
    store and the clock as they were, the channel shorter by the events it
    took, and the registry without exactly those clients whose connection
    fails, provided there was an event to write to them. *)
Theorem HandleBroadcast_state (turns : nat) (w : World) :
  let w' := HandleBroadcast turns w in
  DB w' = DB w /\
  clock w' = clock w /\
  Broadcast w' = drop turns (Broadcast w) /\
  (forall c, conn_ok w' c = conn_ok w c) /\
  (forall c, Clients w' !! c =
     if conn_ok w c then Clients w !! c
     else match take turns (Broadcast w) with
          | [] => Clients w !! c
          | _ :: _ => None
          end).
Proof.
  revert w. induction turns as [|turns IH]; intros w; cbn zeta.
  { cbn. repeat split; try reflexivity. intros c. now destruct (conn_ok w c). }
  cbn [HandleBroadcast].
  destruct (Broadcast w) as [|event rest] eqn:Hb.
  { unfold HandleBroadcast_turn. rewrite Hb. cbn. rewrite Hb.
    repeat split; try reflexivity. intros c. now destruct (conn_ok w c). }
  destruct (HandleBroadcast_turn_spec w event rest Hb) as (w' & Hturn & Hb' & Hok & Hcl & _).
  destruct (HandleBroadcast_turn_frame w w' Hturn) as (Hdb & Hck & _).
  rewrite Hturn. destruct (IH w') as (Hdb' & Hck' & Hbr' & Hok' & Hcl').
  rewrite Hdb', Hck', Hbr', Hb', Hdb, Hck. cbn [drop take].
  repeat split; try reflexivity.
  - intros c. now rewrite Hok', Hok.
  - intros c. rewrite Hcl', Hok, Hcl.
    destruct (conn_ok w c); [reflexivity |]. now destruct (take turns (Broadcast w')).
Qed.


